(** * Scarecrow, Twitter cog: follow registry, dispatch and stream supervision

    A shallow embedding of [cogs/twitter.py].  The cog keeps, in
    [self.conf.follows], a dictionary from Twitter user ids to the Discord
    channels that follow them, each with the id of the last tweet sent there.
    The functions below are the methods of the class [Twitter], written over
    an explicit state (the cog object) and an explicit outcome (a returned
    value or a raised exception).  A coroutine is followed from its call to
    its end: what other coroutines may do at an [await] is not modelled. *)

From Stdlib Require Import ZArith List String Ascii Bool Lia Sorted.
From stdpp Require Import base decidable countable gmap strings pretty.
Import ListNotations.

Open Scope string_scope.
Open Scope Z_scope.
Open Scope list_scope.

(** ** Python dictionaries

    A Python [dict] keeps its keys in insertion order; assigning to a key that
    is present keeps its place, assigning to a new key appends it. *)

Module PyDict.

Abbreviation dict V := (list (Z * V)).

Section Ops.
Context {V : Type}.

Fixpoint get (d : dict V) (k : Z) : option V :=
  match d with
  | [] => None
  | (k', v) :: d' => if Z.eqb k' k then Some v else get d' k
  end.

Definition contains (d : dict V) (k : Z) : bool :=
  match get d k with Some _ => true | None => false end.

(** [d[k] = v] *)
Fixpoint set (d : dict V) (k : Z) (v : V) : dict V :=
  match d with
  | [] => [(k, v)]
  | (k', v') :: d' =>
      if Z.eqb k' k then (k', v) :: d' else (k', v') :: set d' k v
  end.

(** [del d[k]], for a key that is present *)
Fixpoint remove (d : dict V) (k : Z) : dict V :=
  match d with
  | [] => []
  | (k', v) :: d' => if Z.eqb k' k then d' else (k', v) :: remove d' k
  end.

Definition keys (d : dict V) : list Z := map fst d.
Definition values (d : dict V) : list V := map snd d.
Definition len (d : dict V) : Z := Z.of_nat (length d).

(** No key occurs twice: what every Python dictionary satisfies. *)
Definition wf (d : dict V) : Prop := List.NoDup (keys d).

End Ops.

End PyDict.

Import PyDict.

(** ** Python strings

    A string is the sequence of the bytes of its UTF-8 encoding.
    [str.lower] follows the case tables of Unicode, which are no part of the
    program: the cog is given it with the rest of what it does not own (see
    [str_lower] below).  On ASCII text it is [ascii_lower], which the
    scenarios use. *)

Definition lower_char (c : ascii) : ascii :=
  let n := nat_of_ascii c in
  if (Nat.leb 65 n && Nat.leb n 90)%bool then ascii_of_nat (n + 32) else c.

Fixpoint ascii_lower (s : string) : string :=
  match s with
  | EmptyString => EmptyString
  | String c s' => String (lower_char c) (ascii_lower s')
  end.

(** [str.lstrip('@')] *)
Fixpoint lstrip_at (s : string) : string :=
  match s with
  | String "@"%char s' => lstrip_at s'
  | _ => s
  end.

(** [min(...)] and [max(...)] over a generator: [None] stands for the
    [ValueError] Python raises on an empty sequence. *)
Definition py_min (l : list Z) : option Z :=
  match l with
  | [] => None
  | x :: l' => Some (fold_left Z.min l' x)
  end.

Definition py_max (l : list Z) : option Z :=
  match l with
  | [] => None
  | x :: l' => Some (fold_left Z.max l' x)
  end.

(** ** Data model *)

(** [config.ConfigElement(last_tweet_id=...)]: what a channel remembers. *)
Record channel_conf : Type := ChannelConf { last_tweet_id : Z }.

(** [config.ConfigElement(screen_name=..., channels={})]: a followed user. *)
Record follow_conf : Type := FollowConf {
  screen_name : string;
  channels : dict channel_conf
}.

(** A tweet as the cog reads it: [tweet['id']], [tweet['user']['id']] and
    [tweet['user']['screen_name']]. *)
Record tweet : Type := Tweet {
  tweet_id : Z;
  tweet_user_id : Z;
  tweet_user_screen_name : string
}.

(** The answer of [api.users.show]: [user['id']], [user['protected']] and
    [user['status']['id']]; an account that never tweeted has no ['status']. *)
Record user : Type := User {
  user_id : Z;
  user_protected : bool;
  user_status : option Z
}.

(** Exceptions the cog raises or lets through.  [HTTPException] is the one
    of [discord] (a refused send or reaction), [NotFound] the one of [peony],
    and [PeonyException] any other exception of [peony] (a request that
    Twitter refuses). *)
Inductive exn : Type :=
| KeyError
| ValueError
| AttributeError
| HTTPException
| NotFound
| PeonyException
| TwitterError (msg : string).

(** What the cog does not own: the case tables of Python, Twitter and
    Discord. *)
Record World : Type := MkWorld {
  (** [str.lower] *)
  str_lower : string -> string;
  (** [api.users.show.get(screen_name=...)]; [None] is peony's [NotFound] *)
  users_show : string -> option user;
  (** the tweets of an account, newest first *)
  user_timeline : Z -> list tweet;
  (** the number of tweets Twitter puts in an answer to a request that gives
      no [count] *)
  page_size : nat;
  (** the largest [count] that Twitter honours *)
  max_count : Z;
  (** [bot.get_channel(id)] finds the channel *)
  get_channel : Z -> bool;
  (** sending this text to this channel succeeds *)
  send_ok : Z -> string -> bool;
  (** adding this reaction to the message of a command, in this channel,
      succeeds *)
  react_ok : Z -> string -> bool
}.

(** The asyncio task running [stream_tweets].  [Task.cancel] only asks for
    cancellation; the task gives its stream back when the loop runs it
    again.  A task that has left [stream_tweets], cancelled or on an
    exception, is [finished]: the loop does not run it again. *)
Record task : Type := MkTask {
  cancel_requested : bool;
  subscription : option (list Z);
  finished : bool
}.

(** The cog object. *)
Record Twitter : Type := MkTwitter {
  follows : dict follow_conf;        (* self.conf.follows *)
  saved : dict follow_conf;          (* what self.conf.save() wrote last *)
  stream_task : option nat;          (* self.stream_task: a task of [tasks] *)
  tasks : list task;                 (* the tasks created on bot.loop *)
  sent : list (Z * string);          (* messages sent, oldest first *)
  reactions : list string            (* reactions added, oldest first *)
}.

(** Values that reach [remove_channels_from_conf]: channel ids, and the
    [discord] channel object itself, which is equal to no integer
    ([discord]'s [EqualityComparable.__eq__] asks for the same class). *)
Inductive pyobj : Type :=
| PyInt (n : Z)
| PyChannel (id : Z).

Global Instance pyobj_eq_dec : EqDecision pyobj.
Proof. solve_decision. Defined.

Global Instance pyobj_countable : Countable pyobj.
Proof.
  refine (inj_countable'
            (fun o => match o with PyInt n => inl n | PyChannel i => inr i end)
            (fun s => match s with inl n => PyInt n | inr i => PyChannel i end) _).
  intros []; reflexivity.
Defined.

(** ** The monad of the cog's methods: a state, and a value or an exception.
    A raised exception keeps the changes made before it. *)

Inductive outcome (A : Type) : Type :=
| Return (a : A)
| Raise (e : exn).
Arguments Return {A} a.
Arguments Raise {A} e.

Definition M (A : Type) : Type := Twitter -> Twitter * outcome A.

Definition ret {A} (a : A) : M A := fun s => (s, Return a).
Definition raise {A} (e : exn) : M A := fun s => (s, Raise e).
Definition bind {A B} (m : M A) (f : A -> M B) : M B :=
  fun s => match m s with
           | (s', Return a) => f a s'
           | (s', Raise e) => (s', Raise e)
           end.
Definition get_state : M Twitter := fun s => (s, Return s).
Definition modify (f : Twitter -> Twitter) : M unit := fun s => (f s, Return tt).

Declare Scope cog_scope.
Delimit Scope cog_scope with cog.
Notation "x <- c1 ;; c2" := (bind c1 (fun x => c2))
  (at level 100, c1 at next level, right associativity) : cog_scope.
Notation "c1 ;; c2" := (bind c1 (fun _ => c2))
  (at level 100, right associativity) : cog_scope.
Open Scope cog_scope.

Definition state_of {A} (r : Twitter * outcome A) : Twitter := fst r.
Definition outcome_of {A} (r : Twitter * outcome A) : outcome A := snd r.

(** ** Updating the fields of the cog *)

Definition set_follows (f : dict follow_conf) (s : Twitter) : Twitter :=
  MkTwitter f (saved s) (stream_task s) (tasks s) (sent s) (reactions s).

Definition set_saved (f : dict follow_conf) (s : Twitter) : Twitter :=
  MkTwitter (follows s) f (stream_task s) (tasks s) (sent s) (reactions s).

Definition set_stream (t : option nat) (ts : list task) (s : Twitter) : Twitter :=
  MkTwitter (follows s) (saved s) t ts (sent s) (reactions s).

Definition add_sent (channel : Z) (text : string) (s : Twitter) : Twitter :=
  MkTwitter (follows s) (saved s) (stream_task s) (tasks s)
            (sent s ++ [(channel, text)]) (reactions s).

Definition add_reacted (emoji : string) (s : Twitter) : Twitter :=
  MkTwitter (follows s) (saved s) (stream_task s) (tasks s) (sent s)
            (reactions s ++ [emoji]).

(** [conf.channels = chs] on the entry of [user_id], in place *)
Definition set_channels (user_id : Z) (conf : follow_conf)
    (chs : dict channel_conf) (f : dict follow_conf) : dict follow_conf :=
  set f user_id (FollowConf (screen_name conf) chs).

(** ** Collaborators *)

(** [self.conf.save()] *)
Definition save : M unit := modify (fun s => set_saved (follows s) s).

(** [channel.send(text)] *)
Definition send (w : World) (channel : Z) (text : string) : M unit :=
  fun s => if send_ok w channel text
           then (add_sent channel text s, Return tt)
           else (s, Raise HTTPException).

(** [self.bot.get_channel(int(channel_id)).send(text)]: [get_channel] gives
    [None] for a channel it does not know. *)
Definition get_channel_send (w : World) (channel_id : Z) (text : string) : M unit :=
  if get_channel w channel_id then send w channel_id text else raise AttributeError.

(** [ctx.message.add_reaction(emoji)], on the message of a command sent in
    [channel]: like [send], a request to Discord that can be refused. *)
Definition add_reaction (w : World) (channel : Z) (emoji : string) : M unit :=
  fun s => if react_ok w channel emoji
           then (add_reacted emoji s, Return tt)
           else (s, Raise HTTPException).

Definition WHITE_HEAVY_CHECK_MARK : string := "WHITE HEAVY CHECK MARK".

(** Modelled from the spec: [utils.config.get(follows, screen_name=...)], of
    the module [utils/config.py] that is not among the sources.  The handle of
    a source is its lookup key: the first entry whose [screen_name] is the
    given one, as the pair [(user_id, conf)], and nothing when no entry has
    it (the caller then sees [conf is None]). *)
Fixpoint config_get (f : dict follow_conf) (name : string)
    : option (Z * follow_conf) :=
  match f with
  | [] => None
  | (k, conf) :: f' =>
      if String.eqb (screen_name conf) name then Some (k, conf)
      else config_get f' name
  end.

(** The two ways [statuses.user_timeline] is asked: [since_id] or [count]. *)
Inductive timeline_bound : Type :=
| SinceId (since_id : Z)
| Count (limit : Z).

(** The request [api.statuses.user_timeline.get] of [get_timeline], read
    through [iterator.with_since_id(force=False)].  Twitter answers a
    request with one page, newest first: of the tweets of the account that
    are newer than [since_id], the [page_size] newest, as the request gives
    no [count]; or the [count] newest tweets, for a [count] of at most
    [max_count].  The iterator then asks for what is newer than the newest
    tweet it received and stops at the first empty answer: the timeline being
    newest first, it collects the first page and no more, so that tweets
    older than that page are not fetched, however far back [since_id] is.
    Asked by handle, Twitter does not know the account ([NotFound]) or
    refuses the timeline of a protected one.  Asked by id, which the cog
    does for the accounts of the registry, it answers: [follow] stores no
    protected account, and the accounts do not change while the cog runs. *)
Definition user_timeline_get (w : World) (account : Z + string)
    (bound : timeline_bound) : M (list tweet) :=
  let page (l : list tweet) :=
    match bound with
    | SinceId since_id =>
        firstn (page_size w) (List.filter (fun t => since_id <? tweet_id t) l)
    | Count limit => firstn (Z.to_nat (Z.min limit (max_count w))) l
    end in
  match account with
  | inl uid => ret (page (user_timeline w uid))
  | inr name =>
      match users_show w name with
      | Some u =>
          if user_protected u then raise PeonyException
          else ret (page (user_timeline w (user_id u)))
      | None => raise NotFound
      end
  end.

(** ** The cog *)

Definition build_tweet_url (screen_name : string) (tweet_id : Z) : string :=
  "https://twitter.com/" +:+ screen_name +:+ "/status/" +:+ pretty tweet_id.

(** *** The stream task *)

Definition new_task : task := MkTask false None false.

Definition cancel (t : task) : task := MkTask true (subscription t) (finished t).

(** the task leaves [async with]: the stream is closed and the task ends *)
Definition end_task (t : task) : task := MkTask (cancel_requested t) None true.

Definition stream_start : M unit :=
  modify (fun s =>
    match stream_task s with
    | None =>
        if 0 <? len (follows s)
        then set_stream (Some (length (tasks s))) (tasks s ++ [new_task]) s
        else s
    | Some _ => s
    end).

Definition stream_stop : M unit :=
  modify (fun s =>
    match stream_task s with
    | Some t => set_stream None (alter cancel t (tasks s)) s
    | None => s
    end).

Definition stream_restart : M unit :=
  stream_stop ;; stream_start.

(** [Twitter.__init__], given the loaded configuration *)
Definition init (loaded : dict follow_conf) : Twitter :=
  state_of (stream_start (MkTwitter loaded loaded None [] [] [])).

Definition cog_unload : M unit := stream_stop.

(** *** Removing channels *)

(** [channels & set(conf.channels)]: the keys of [conf.channels] that are
    equal to a member of [channels]. *)
Definition common_channels (chans : gset pyobj) (d : dict channel_conf) : list Z :=
  List.filter (fun k => bool_decide (PyInt k ∈ chans)) (keys d).

(** the inner loop: [conf.channels.pop(c); removed += 1] *)
Definition pop_channels (cs : list Z) (d : dict channel_conf) (removed : Z)
    : dict channel_conf * Z :=
  fold_left (fun acc c => (remove (fst acc) c, snd acc + 1)) cs (d, removed).

(** one turn of the outer loop, on an item of [self.conf.follows.copy()];
    [conf] is the very object held by [self.conf.follows]. *)
Definition remove_channels_step (chans : gset pyobj)
    (acc : dict follow_conf * Z * Z) (item : Z * follow_conf)
    : dict follow_conf * Z * Z :=
  let '(f, removed, unfollowed) := acc in
  let '(user_id, conf) := item in
  let '(chs, removed) :=
    pop_channels (common_channels chans (channels conf)) (channels conf) removed in
  if len chs =? 0
  then (remove f user_id, removed, unfollowed + 1)
  else (set_channels user_id conf chs f, removed, unfollowed).

Definition remove_channels_from_conf (channels : list pyobj) : M (Z * Z) :=
  s <- get_state ;;
  let chans : gset pyobj := list_to_set channels in
  let '(f, removed, unfollowed) :=
    fold_left (remove_channels_step chans) (follows s) (follows s, 0, 0) in
  modify (set_follows f) ;;
  save ;;
  (if 0 <? unfollowed then stream_restart else ret tt) ;;
  ret (removed, unfollowed).

(** [on_guild_channel_delete(channel)]: the listener hands over the channel
    object; the result is the pair it logs. *)
Definition on_guild_channel_delete (channel_id : Z) : M (Z * Z) :=
  remove_channels_from_conf [PyChannel channel_id].

(** *** Dispatching *)

(** [conf.channels[channel_id].last_tweet_id = tweet['id']], where [conf]
    is the entry of the tweet's user in [self.conf.follows] *)
Definition set_last_tweet_id (t : tweet) (channel_id : Z) (s : Twitter) : Twitter :=
  match get (follows s) (tweet_user_id t) with
  | Some conf =>
      set_follows
        (set_channels (tweet_user_id t) conf
           (set (channels conf) channel_id (ChannelConf (tweet_id t)))
           (follows s)) s
  | None => s
  end.

(** the loop [for channel_id in conf.channels] *)
Fixpoint dispatch_loop (w : World) (t : tweet) (tweet_url : string)
    (channel_ids : list Z) : M unit :=
  match channel_ids with
  | [] => ret tt
  | channel_id :: rest =>
      get_channel_send w channel_id tweet_url ;;
      modify (set_last_tweet_id t channel_id) ;;
      save ;;
      dispatch_loop w t tweet_url rest
  end.

Definition dispatch_tweet (w : World) (t : tweet) : M unit :=
  let tweet_url := build_tweet_url (tweet_user_screen_name t) (tweet_id t) in
  s <- get_state ;;
  match get (follows s) (tweet_user_id t) with
  | None => ret tt
  | Some conf => dispatch_loop w t tweet_url (keys (channels conf))
  end.

(** *** Timelines *)

Definition cursors (conf : follow_conf) : list Z :=
  map last_tweet_id (values (channels conf)).

Definition get_timeline (w : World) (user_id : option Z) (name : string)
    (limit : Z) : M (list tweet) :=
  s <- get_state ;;
  match user_id with
  | Some uid =>
      if uid =? 0 then user_timeline_get w (inr name) (Count limit)
      else
        match get (follows s) uid with
        | None => raise KeyError
        | Some conf =>
            match py_min (cursors conf) with
            | None => raise ValueError
            | Some since_id =>
                user_timeline_get w (inl uid)
                  (if 0 <? since_id then SinceId since_id else Count limit)
            end
        end
  | None => user_timeline_get w (inr name) (Count limit)
  end.

(** the loop [for timeline_tweet in reversed(timeline)] *)
Fixpoint dispatch_all (w : World) (ts : list tweet) : M unit :=
  match ts with
  | [] => ret tt
  | t :: rest => dispatch_tweet w t ;; dispatch_all w rest
  end.

(** one turn of [update_feeds]: the timeline [get_timelines] yields for
    [uid] is fetched when the loop reaches it, and sent oldest first. *)
Definition update_feed (w : World) (uid : Z) : M unit :=
  timeline <- get_timeline w (Some uid) "" 3 ;;
  dispatch_all w (rev timeline).

Fixpoint update_feeds_loop (w : World) (user_ids : list Z) : M unit :=
  match user_ids with
  | [] => ret tt
  | uid :: rest => update_feed w uid ;; update_feeds_loop w rest
  end.

Definition update_feeds (w : World) : M unit :=
  s <- get_state ;;
  update_feeds_loop w (keys (follows s)).

(** *** The stream *)

(** What the stream hands to [stream_tweets]. *)
Inductive stream_data : Type :=
| OnTweet (t : tweet)
| OnConnect
| OtherData.

(** what [stream_tweets] does with [data] *)
Definition handle_data (w : World) (data : stream_data) : M unit :=
  match data with
  | OnTweet t => dispatch_tweet w t
  | OnConnect => update_feeds w
  | OtherData => ret tt
  end.

(** One turn of the loop [async for data in stream], in the task [i] whose
    stream handed [data] over.  Nothing in [stream_tweets] catches an
    exception: when the handling raises, the exception leaves the loop and
    [async with], the stream is closed and the task ends, while
    [self.stream_task] is left as it is. *)
Definition stream_tweets_data (w : World) (i : nat) (data : stream_data) : M unit :=
  fun s => match handle_data w data s with
           | (s', Raise e) =>
               (set_stream (stream_task s') (alter end_task i (tasks s')) s', Raise e)
           | r => r
           end.

(** The loop runs task [i] of [bot.loop] up to its next [await]: a task asked
    to cancel leaves [async with], gives its stream back and ends; a new one
    opens the stream on [list(self.conf.follows.keys())]; a finished one is
    not run. *)
Definition loop_runs_task (i : nat) : M unit :=
  modify (fun s =>
    set_stream (stream_task s)
      (alter (fun t =>
                if finished t then t
                else if cancel_requested t then end_task t
                else match subscription t with
                     | None => MkTask false (Some (keys (follows s))) false
                     | Some _ => t
                     end) i (tasks s)) s).

(** *** The commands *)

(** the end of [follow], shared by its two branches: [conf] is the entry of
    [uid] in [self.conf.follows], which
    [conf.channels[ctx.channel.id] = ...] changes in place. *)
Definition follow_channel (w : World) (channel : Z) (uid : Z) (conf : follow_conf)
    (tweet_url : string) (last : Z) : M unit :=
  modify (fun s =>
    set_follows
      (set_channels uid conf
         (set (channels conf) channel (ChannelConf last)) (follows s)) s) ;;
  save ;;
  stream_restart ;;
  send w channel tweet_url ;;
  add_reaction w channel WHITE_HEAVY_CHECK_MARK.

(** [follow(ctx, handle)], with [ctx.channel.id = channel] *)
Definition follow (w : World) (channel : Z) (handle : string) : M unit :=
  let name := lstrip_at (str_lower w handle) in
  s <- get_state ;;
  match config_get (follows s) name with
  | Some (uid, conf) =>
      if contains (channels conf) channel
      then raise (TwitterError ("Already following " +:+ name +:+ " in this channel."))
      else
        match py_max (cursors conf) with
        | None => raise ValueError
        | Some last =>
            follow_channel w channel uid conf (build_tweet_url name last) last
        end
  | None =>
      match users_show w name with
      | None => raise (TwitterError ("User " +:+ name +:+ " not found."))
      | Some u =>
          if user_protected u
          then raise (TwitterError "This user is protected and cannot be followed.")
          else
            let conf := FollowConf name [] in
            modify (fun s => set_follows (set (follows s) (user_id u) conf) s) ;;
            match user_status u with
            | None => raise KeyError
            | Some last =>
                follow_channel w channel (user_id u) conf
                  (build_tweet_url name last) last
            end
      end
  end.

(** [unfollow(ctx, handle)], with [ctx.channel.id = channel] *)
Definition unfollow (w : World) (channel : Z) (handle : string) : M unit :=
  let name := lstrip_at (str_lower w handle) in
  s <- get_state ;;
  match config_get (follows s) name with
  | None => raise (TwitterError ("Not following " +:+ name +:+ " on this channel."))
  | Some (uid, conf) =>
      if contains (channels conf) channel
      then
        let chs := remove (channels conf) channel in
        modify (fun s => set_follows (set_channels uid conf chs (follows s)) s) ;;
        (if len chs =? 0
         then modify (fun s => set_follows (remove (follows s) uid) s) ;;
              stream_restart
         else ret tt) ;;
        save ;;
        add_reaction w channel WHITE_HEAVY_CHECK_MARK
      else raise (TwitterError ("Not following " +:+ name +:+ " on this channel."))
  end.

(** ** Reading the state *)

(** the cursor of [channel] for the user [uid] *)
Definition cursor (s : Twitter) (uid channel : Z) : option Z :=
  match get (follows s) uid with
  | Some conf => option_map last_tweet_id (get (channels conf) channel)
  | None => None
  end.

(** the texts sent to [channel], oldest first *)
Definition received (s : Twitter) (channel : Z) : list string :=
  map snd (List.filter (fun m => fst m =? channel) (sent s)).

(** some followed user has no channel *)
Definition has_empty_source (f : dict follow_conf) : bool :=
  existsb (fun item => len (channels (snd item)) =? 0) f.

(** every followed user has a channel *)
Definition no_empty_source (f : dict follow_conf) : Prop :=
  Forall (fun item => channels (snd item) <> []) f.

(** the tasks that hold an open stream *)
Definition subscribed_tasks (s : Twitter) : list nat :=
  List.filter (fun i => match tasks s !! i with
                        | Some t => match subscription t with Some _ => true | None => false end
                        | None => false
                        end) (seq 0 (length (tasks s))).

Definition url_of (t : tweet) : string :=
  build_tweet_url (tweet_user_screen_name t) (tweet_id t).

(** ** Runs of the cog: what happens to it, one thing after another *)

Inductive op : Type :=
| OpFollow (channel : Z) (handle : string)
| OpUnfollow (channel : Z) (handle : string)
| OpRemoveChannels (channels : list pyobj)
| OpChannelDelete (channel_id : Z)
| OpData (i : nat) (data : stream_data)
| OpLoopRuns (i : nat)
| OpUnload.

Definition run_op (w : World) (o : op) : M unit :=
  match o with
  | OpFollow channel handle => follow w channel handle
  | OpUnfollow channel handle => unfollow w channel handle
  | OpRemoveChannels chs => remove_channels_from_conf chs ;; ret tt
  | OpChannelDelete channel_id => on_guild_channel_delete channel_id ;; ret tt
  | OpData i data => stream_tweets_data w i data
  | OpLoopRuns i => loop_runs_task i
  | OpUnload => cog_unload
  end.

(** a command that raises leaves the cog as the exception found it *)
Definition run_ops (w : World) (ops : list op) (s : Twitter) : Twitter :=
  fold_left (fun s o => state_of (run_op w o s)) ops s.

(** the number of tasks that were not asked to cancel *)
Definition count_running (ts : list task) : nat :=
  length (List.filter (fun t => negb (cancel_requested t)) ts).

(** [self.stream_task], when set, is a task that was not asked to cancel *)
Definition handle_runs (s : Twitter) : bool :=
  match stream_task s with
  | Some i =>
      match tasks s !! i with
      | Some t => negb (cancel_requested t)
      | None => false
      end
  | None => true
  end.

Definition holds_handle (s : Twitter) : bool :=
  match stream_task s with Some _ => true | None => false end.

(** ** What the registry operations are meant to compute

    [removeDestinations(destinationIds)] in the words of the specification:
    the destinations of the set leave every source, a source left with no
    destination is deleted, and the two counts are reported. *)

Definition kept_channels (chans : gset pyobj) (d : dict channel_conf)
    : dict channel_conf :=
  List.filter (fun kv => negb (bool_decide (PyInt (fst kv) ∈ chans))) d.

Definition prune_source (chans : gset pyobj) (item : Z * follow_conf)
    : Z * follow_conf :=
  (fst item,
   FollowConf (screen_name (snd item)) (kept_channels chans (channels (snd item)))).

Definition has_channels (item : Z * follow_conf) : bool :=
  negb (len (channels (snd item)) =? 0).

Definition remove_destinations_spec (chans : gset pyobj) (f : dict follow_conf)
    : dict follow_conf :=
  List.filter has_channels (map (prune_source chans) f).

Fixpoint removed_spec (chans : gset pyobj) (f : dict follow_conf) : Z :=
  match f with
  | [] => 0
  | item :: f' =>
      Z.of_nat (length (common_channels chans (channels (snd item))))
      + removed_spec chans f'
  end.

Fixpoint unfollowed_spec (chans : gset pyobj) (f : dict follow_conf) : Z :=
  match f with
  | [] => 0
  | item :: f' =>
      (if has_channels (prune_source chans item) then 0 else 1)
      + unfollowed_spec chans f'
  end.

(** ** The dispatch loop as a state transformer *)

(** the channel takes the text: it is found and the send goes through *)
Definition deliverable (w : World) (channel_id : Z) (text : string) : bool :=
  get_channel w channel_id && send_ok w channel_id text.

(** the cog after one full turn of the loop of [dispatch_tweet] *)
Definition delivered (t : tweet) (tweet_url : string) (s : Twitter)
    (channel_id : Z) : Twitter :=
  let s' := set_last_tweet_id t channel_id (add_sent channel_id tweet_url s) in
  set_saved (follows s') s'.

(** the channels following [uid], in the order of the dictionary *)
Definition channel_ids (s : Twitter) (uid : Z) : list Z :=
  match get (follows s) uid with
  | Some conf => keys (channels conf)
  | None => []
  end.

(** ** The tweets an operation dispatches *)

(** the tweets [update_feeds_loop] hands to [dispatch_tweet], in order *)
Fixpoint replayed_loop (w : World) (user_ids : list Z) (s : Twitter) : list tweet :=
  match user_ids with
  | [] => []
  | uid :: rest =>
      match get_timeline w (Some uid) "" 3 s with
      | (s1, Return timeline) =>
          rev timeline
          ++ match dispatch_all w (rev timeline) s1 with
             | (s2, Return _) => replayed_loop w rest s2
             | (_, Raise _) => []
             end
      | (_, Raise _) => []
      end
  end.

Definition dispatched_by (w : World) (o : op) (s : Twitter) : list tweet :=
  match o with
  | OpData _ (OnTweet t) => [t]
  | OpData _ OnConnect => replayed_loop w (keys (follows s)) s
  | _ => []
  end.

(** ** Well-formed registries *)

(** the registry and the channels of each entry are Python dictionaries *)
Definition wf_registry (f : dict follow_conf) : Prop :=
  wf f /\ Forall (fun item => wf (channels (snd item))) f.

(** an account that is followed is followed under the handle Twitter knows
    it by *)
Definition handles_current (w : World) (f : dict follow_conf) : Prop :=
  forall name usr conf,
    users_show w name = Some usr ->
    get f (user_id usr) = Some conf ->
    screen_name conf = name.

(** ** The scenarios of the specification *)

Definition alice_tweet (i : Z) : tweet := Tweet i 42 "alice".

(** [alice] is account 42, with four tweets; [bob] never tweeted; Twitter
    answers with pages of 20 tweets and takes a [count] up to 200; every
    channel but [dead] takes messages, and every reaction is accepted. *)
Definition scenario_world (dead : Z) : World :=
  MkWorld
    ascii_lower
    (fun name =>
       if String.eqb name "alice" then Some (User 42 false (Some 1000))
       else if String.eqb name "bob" then Some (User 7 false None)
       else None)
    (fun uid => if uid =? 42 then map alice_tweet [1002; 1001; 1000; 999] else [])
    20%nat
    200
    (fun c => negb (c =? dead))
    (fun _ _ => true)
    (fun _ _ => true).

(** the stream was down while [alice] published the 22 tweets 1001 to 1022;
    channel 100 follows her and is on tweet 1000 *)
Definition outage_world : World :=
  MkWorld
    ascii_lower
    (fun name =>
       if String.eqb name "alice" then Some (User 42 false (Some 1022)) else None)
    (fun uid =>
       if uid =? 42
       then map alice_tweet (rev (map Z.of_nat (seq 1001 22)))
       else [])
    20%nat
    200
    (fun _ => true)
    (fun _ _ => true)
    (fun _ _ => true).

Definition outage_cog : Twitter :=
  init [(42, FollowConf "alice" [(100, ChannelConf 1000)])].

(** channels 100 and 200 follow account 42 with cursors 1001 and 998 *)
Definition scenario_follows : dict follow_conf :=
  [(42, FollowConf "alice" [(100, ChannelConf 1001); (200, ChannelConf 998)])].

Definition scenario_cog : Twitter := init scenario_follows.

(** every handle of the registry is one Twitter knows, and it names the
    account it is stored with *)
Definition handles_resolve (w : World) (f : dict follow_conf) : Prop :=
  forall uid conf,
    In (uid, conf) f ->
    exists usr, users_show w (screen_name conf) = Some usr /\ user_id usr = uid.

(** ** The cursor a new destination starts from

    In the words of the specification, where a source is an account, known
    by its id, and [name] is the handle Twitter knows it by: on the first
    follow of a source, which is not in the registry yet, the last known
    item of the account; on a follow of a source that is followed already,
    the maximum cursor over its destinations. *)
Inductive seed_cursor (w : World) (f : dict follow_conf) (name : string)
    (channel : Z) : Z -> Z -> Prop :=
| seed_first_follow (usr : user) (last : Z) :
    users_show w name = Some usr ->
    get f (user_id usr) = None ->
    user_protected usr = false ->
    user_status usr = Some last ->
    seed_cursor w f name channel (user_id usr) last
| seed_later_follow (usr : user) (conf : follow_conf) (last : Z) :
    users_show w name = Some usr ->
    get f (user_id usr) = Some conf ->
    contains (channels conf) channel = false ->
    In last (cursors conf) ->
    (forall c, In c (cursors conf) -> c <= last) ->
    seed_cursor w f name channel (user_id usr) last.

(** the account 42 changed its handle from [alice] to [alicia], and its last
    tweet is 1005 *)
Definition renamed_world : World :=
  MkWorld
    ascii_lower
    (fun name =>
       if String.eqb name "alicia" then Some (User 42 false (Some 1005)) else None)
    (fun uid => if uid =? 42 then map (fun i => Tweet i 42 "alicia") [1005] else [])
    20%nat
    200
    (fun _ => true)
    (fun _ _ => true)
    (fun _ _ => true).

(** the cog after the failed follow of [bob], then a follow of [alice] from
    channel 100 *)
Definition cog_after_failed_follow : Twitter :=
  run_ops (scenario_world 0) [OpFollow 100 "bob"; OpFollow 100 "alice"] (init []).

(** ** Supervision of the stream task *)

(** At most one task was not asked to cancel, and it is the one that
    [self.stream_task] holds. *)
Definition supervised (s : Twitter) : Prop :=
  count_running (tasks s) = (if holds_handle s then 1 else 0)%nat
  /\ handle_runs s = true.

Definition keeps_supervised {A : Type} (m : M A) : Prop :=
  forall s, supervised s -> supervised (state_of (m s)).

(** ** The commands and handlers the registry does not depend on *)

(** [try: m except <exceptions>: handler] *)
Definition try_except {A} (m : M A) (catches : exn -> bool) (handler : M A) : M A :=
  fun s => match m s with
           | (s', Raise e) => if catches e then handler s' else (s', Raise e)
           | r => r
           end.

Definition is_not_found (e : exn) : bool :=
  match e with NotFound => true | _ => false end.

(** the loop [for tweet in reversed(timeline)] of [fetch]: the url is built
    with the handle that was typed, and sent with [ctx.send] *)
Fixpoint fetch_loop (w : World) (channel : Z) (name : string) (ts : list tweet)
    : M unit :=
  match ts with
  | [] => ret tt
  | t :: rest =>
      send w channel (build_tweet_url name (tweet_id t)) ;;
      fetch_loop w channel name rest
  end.

(** [fetch(ctx, handle, limit)], with [ctx.channel.id = channel] *)
Definition fetch (w : World) (channel : Z) (handle : string) (limit : Z) : M unit :=
  let name := lstrip_at (str_lower w handle) in
  timeline <- try_except (get_timeline w None name limit) is_not_found
                (raise (TwitterError ("User " +:+ name +:+ " not found."))) ;;
  fetch_loop w channel name (rev timeline) ;;
  add_reaction w channel WHITE_HEAVY_CHECK_MARK.

Definition CROSS_MARK : string := "CROSS MARK".

(** [isinstance(error, (commands.UserInputError, commands.CheckFailure))]:
    of the exceptions of the cog, [TwitterError] alone is a
    [UserInputError]; the others reach the handler wrapped in a
    [CommandInvokeError]. *)
Definition is_user_input_error (e : exn) : bool :=
  match e with TwitterError _ => true | _ => false end.

(** [cog_command_error(ctx, error)], with [ctx.channel.id = channel] *)
Definition cog_command_error (w : World) (channel : Z) (error : exn) : M unit :=
  if is_user_input_error error then add_reaction w channel CROSS_MARK else ret tt.

(** A command of the cog as [discord] invokes it: when the command raises,
    [cog_command_error] is called with the exception.  What is returned is
    the cog the handler left and the exception of the command, or the one
    the handler raised itself. *)
Definition invoke (w : World) (channel : Z) (command : M unit) : M unit :=
  fun s => match command s with
           | (s', Raise e) =>
               match cog_command_error w channel e s' with
               | (s'', Return _) => (s'', Raise e)
               | (s'', Raise e') => (s'', Raise e')
               end
           | r => r
           end.

(** ** What the operations keep *)

(** the saved configuration is the one in memory *)
Definition persisted (s : Twitter) : Prop := saved s = follows s.

(** who follows whom: the accounts, their handles and the channels of each,
    in the order of the dictionaries, without the cursors *)
Definition shape (f : dict follow_conf) : list (Z * string * list Z) :=
  map (fun item => (fst item, screen_name (snd item), keys (channels (snd item)))) f.

(** the cog holds a stream task exactly when an account is followed *)
Definition streams_when_following (s : Twitter) : Prop :=
  holds_handle s = (0 <? len (follows s)).

(** the computation leaves [f] of the cog as it is, whatever its outcome *)
Definition unchanged {X A : Type} (f : Twitter -> X) (m : M A) : Prop :=
  forall s, f (state_of (m s)) = f s.

(** the computation keeps [P], whatever its outcome *)
Definition keeps {A : Type} (P : Twitter -> Prop) (m : M A) : Prop :=
  forall s, P s -> P (state_of (m s)).

(** what handling the stream leaves alone: who follows whom, the stream
    task and the reactions *)
Definition membership (s : Twitter)
    : list (Z * string * list Z) * option nat * list task * list string :=
  (shape (follows s), stream_task s, tasks s, reactions s).

(** ** The cog [Admin] of [cogs/admin.py]: who the bot ignores

    [self.ignored] holds three dictionaries: the ignored guilds and the
    ignored channels, from id to reason, and the ignored users, from guild id
    to a dictionary from user id to reason. *)

Module Admin.

Record Ignored : Type := MkIgnored {
  guilds : dict string;
  channels : dict string;
  users : dict (dict string)
}.

(** [ctx.guild]: its id and [guild.owner.id] *)
Record Guild : Type := MkGuild {
  guild_id : Z;
  guild_owner : Z
}.

(** What the checks and the commands read of [ctx]: [ctx.author.id],
    [ctx.bot.owner.id], [ctx.guild] ([None] in a private message),
    [ctx.channel.id] and [ctx.channel.permissions_for(ctx.author).manage_guild]. *)
Record Context : Type := MkContext {
  author : Z;
  bot_owner : Z;
  guild : option Guild;
  channel : Z;
  manage_guild : bool
}.

(** [self.ignored.users.get(guild.id, {})] *)
Definition users_of (ig : Ignored) (gid : Z) : dict string :=
  match get (users ig) gid with Some d => d | None => [] end.

(** [bot_check_once(ctx)] *)
Definition bot_check_once (ig : Ignored) (ctx : Context) : bool :=
  if author ctx =? bot_owner ctx then true
  else
    match guild ctx with
    | Some g =>
        if contains (guilds ig) (guild_id g) then false
        else if contains (channels ig) (channel ctx) then false
        else if author ctx =? guild_owner g then true
        else if contains (users_of ig (guild_id g)) (author ctx) then false
        else if negb (manage_guild ctx) && contains (channels ig) (channel ctx)
        then false
        else true
    | None => true
    end.

(** What a target of [ignore] and [unignore] can be. *)
Inductive Target : Type :=
| Member (id : Z)
| TextChannel (id : Z)
| VoiceChannel (id : Z)
| GuildTarget (id : Z).

Definition target_id (t : Target) : Z :=
  match t with
  | Member id | TextChannel id | VoiceChannel id | GuildTarget id => id
  end.

(** The dictionary [resolve_target] returns with the target: it is one of
    the dictionaries of [self.ignored], which the commands change in place. *)
Inductive Conf : Type :=
| IgnoredChannels
| IgnoredGuilds
| IgnoredUsers (guild_id : Z).

(** What the converters of [discord] answer to a command: [None] is their
    [BadArgument].  A command asks them before it changes anything. *)
Record Converters : Type := MkConverters {
  TextChannelConverter : string -> option Z;
  MemberConverter : string -> option Z;
  GuildConverter : string -> option Z
}.

(** The cog object, and what it did. *)
Record Cog : Type := MkCog {
  ignored : Ignored;                 (* self.ignored *)
  saved : Ignored;                   (* what self.ignored.save() wrote last *)
  left : list Z;                     (* the guilds left, oldest first *)
  sent : list (Z * string);          (* messages sent, oldest first *)
  reactions : list string            (* reactions added, oldest first *)
}.

(** What Discord answers to the requests of the commands: whether the bot
    can leave this guild, send this text in the channel of the command, and
    add this reaction to the message of the command, given the guilds it
    has left. *)
Record Discord : Type := MkDiscord {
  leave_ok : Z -> bool;
  send_ok : Context -> string -> bool;
  react_ok : list Z -> Context -> string -> bool
}.

(** Discord accepts every request. *)
Definition always : Discord :=
  MkDiscord (fun _ => true) (fun _ _ => true) (fun _ _ _ => true).

(** [HTTPException] is the exception of a request that Discord refuses. *)
Inductive error : Type :=
| BadArgument (msg : string)
| KeyError
| ValueError
| NoPrivateMessage
| MissingPermissions
| HTTPException.

Inductive result (A : Type) : Type :=
| Ok (a : A)
| Raised (e : error).
Arguments Ok {A} a.
Arguments Raised {A} e.

Definition M (A : Type) : Type := Cog -> Cog * result A.

Definition ret {A} (a : A) : M A := fun s => (s, Ok a).
Definition raise {A} (e : error) : M A := fun s => (s, Raised e).
Definition bind {A B} (m : M A) (f : A -> M B) : M B :=
  fun s => match m s with
           | (s', Ok a) => f a s'
           | (s', Raised e) => (s', Raised e)
           end.
Definition modify (f : Cog -> Cog) : M unit := fun s => (f s, Ok tt).

Definition set_ignored (ig : Ignored) (s : Cog) : Cog :=
  MkCog ig (saved s) (left s) (sent s) (reactions s).

(** [self.ignored.save()] *)
Definition save : M unit :=
  modify (fun s => MkCog (ignored s) (ignored s) (left s) (sent s) (reactions s)).

(** [target.leave()] *)
Definition leave (discord : Discord) (gid : Z) : M unit :=
  fun s =>
    if leave_ok discord gid
    then (MkCog (ignored s) (saved s) (left s ++ [gid]) (sent s) (reactions s), Ok tt)
    else (s, Raised HTTPException).

(** [ctx.send(text)] *)
Definition send (discord : Discord) (ctx : Context) (text : string) : M unit :=
  fun s =>
    if send_ok discord ctx text
    then (MkCog (ignored s) (saved s) (left s)
            (sent s ++ [(channel ctx, text)]) (reactions s), Ok tt)
    else (s, Raised HTTPException).

(** [ctx.message.add_reaction(emoji)]: what Discord answers can depend on
    the guilds the bot has left, the guild of the command among them *)
Definition add_reaction (discord : Discord) (ctx : Context) (emoji : string)
    : M unit :=
  fun s =>
    if react_ok discord (left s) ctx emoji
    then (MkCog (ignored s) (saved s) (left s) (sent s) (reactions s ++ [emoji]),
          Ok tt)
    else (s, Raised HTTPException).

(** the dictionary that [conf] is, in [self.ignored] *)
Definition conf_of (conf : Conf) (ig : Ignored) : option (dict string) :=
  match conf with
  | IgnoredChannels => Some (channels ig)
  | IgnoredGuilds => Some (guilds ig)
  | IgnoredUsers gid => get (users ig) gid
  end.

(** [conf] changed in place to [d] *)
Definition conf_put (conf : Conf) (d : dict string) (ig : Ignored) : Ignored :=
  match conf with
  | IgnoredChannels => MkIgnored (guilds ig) d (users ig)
  | IgnoredGuilds => MkIgnored d (channels ig) (users ig)
  | IgnoredUsers gid => MkIgnored (guilds ig) (channels ig) (set (users ig) gid d)
  end.

(** the double quote character *)
Definition QUOTE : ascii := ascii_of_nat 34.

(** [resolve_target(ctx, target)], in the guild [g] of the command *)
Definition resolve_target (cv : Converters) (ctx : Context) (g : Guild)
    (target : string) : M (Target * Conf) :=
  if String.eqb target "channel" then ret (TextChannel (channel ctx), IgnoredChannels)
  else if (String.eqb target "guild" || String.eqb target "server")%bool
  then ret (GuildTarget (guild_id g), IgnoredGuilds)
  else
    match TextChannelConverter cv target with
    | Some c => ret (TextChannel c, IgnoredChannels)
    | None =>
        match MemberConverter cv target with
        | Some m =>
            fun s =>
              match get (users (ignored s)) (guild_id g) with
              | Some _ => (s, Ok (Member m, IgnoredUsers (guild_id g)))
              | None =>
                  (set_ignored
                     (MkIgnored (guilds (ignored s)) (channels (ignored s))
                        (set (users (ignored s)) (guild_id g) [])) s,
                   Ok (Member m, IgnoredUsers (guild_id g)))
              end
        | None =>
            match GuildConverter cv target with
            | Some x => ret (GuildTarget x, IgnoredGuilds)
            | None => raise (BadArgument (String QUOTE target +:+ String QUOTE " not found."))
            end
        end
    end.

(** [validate_ignore_target(ctx, target)] *)
Definition validate_ignore_target (ctx : Context) (g : Guild) (t : Target) : M unit :=
  match t with
  | Member id =>
      if bot_owner ctx =? id
      then raise (BadArgument "Cannot ignore/unignore the bot owner.")
      else if (id =? guild_owner g) && negb (author ctx =? bot_owner ctx)
      then raise (BadArgument
                    "Only the bot owner can ignore/unignore the owner of a server.")
      else ret tt
  | GuildTarget _ =>
      if negb (author ctx =? bot_owner ctx)
      then raise (BadArgument "Only the bot owner can ignore/unignore servers.")
      else ret tt
  | VoiceChannel _ => raise (BadArgument "Cannot ignore/unignore voice channels.")
  | TextChannel _ => ret tt
  end.

(** the checks [commands.guild_only()] and
    [commands.has_permissions(manage_guild=True)] in front of a command *)
Definition guarded {A} (ctx : Context) (body : Guild -> M A) : M A :=
  match guild ctx with
  | None => raise NoPrivateMessage
  | Some g => if manage_guild ctx then body g else raise MissingPermissions
  end.

(** [conf[target.id] = reason] *)
Definition set_item (conf : Conf) (id : Z) (reason : string) : M unit :=
  fun s =>
    match conf_of conf (ignored s) with
    | Some d => (set_ignored (conf_put conf (set d id reason) (ignored s)) s, Ok tt)
    | None => (s, Raised KeyError)
    end.

(** [del conf[target.id]] *)
Definition del_item (conf : Conf) (id : Z) : M unit :=
  fun s =>
    match conf_of conf (ignored s) with
    | Some d =>
        if contains d id
        then (set_ignored (conf_put conf (remove d id) (ignored s)) s, Ok tt)
        else (s, Raised KeyError)
    | None => (s, Raised KeyError)
    end.

Definition is_member (t : Target) : bool :=
  match t with Member _ => true | _ => false end.

Definition is_guild (t : Target) : bool :=
  match t with GuildTarget _ => true | _ => false end.

Definition is_value_error (e : error) : bool :=
  match e with ValueError => true | _ => false end.

(** [try: m  except <caught>: handler  else: otherwise] *)
Definition try_except_else {A B} (m : M A) (caught : error -> bool)
    (handler : M B) (otherwise : A -> M B) : M B :=
  fun s => match m s with
           | (s', Ok a) => otherwise a s'
           | (s', Raised e) => if caught e then handler s' else (s', Raised e)
           end.

(** [ignore_group(ctx, target, reason)] *)
Definition ignore_group (discord : Discord) (cv : Converters) (ctx : Context)
    (target reason : string) : M unit :=
  guarded ctx (fun g =>
    bind (resolve_target cv ctx g target) (fun tc =>
    bind (validate_ignore_target ctx g (fst tc)) (fun _ =>
    bind (set_item (snd tc) (target_id (fst tc)) reason) (fun _ =>
    bind save (fun _ =>
    bind (if is_guild (fst tc) then leave discord (target_id (fst tc)) else ret tt)
      (fun _ =>
    add_reaction discord ctx "WHITE HEAVY CHECK MARK")))))).

(** [len(conf) == 0] *)
Definition conf_is_empty (conf : Conf) (s : Cog) : bool :=
  match conf_of conf (ignored s) with
  | Some d => len d =? 0
  | None => false
  end.

(** [del self.ignored.users[ctx.guild.id]] *)
Definition del_users (gid : Z) : M unit :=
  fun s =>
    if contains (users (ignored s)) gid
    then (set_ignored (MkIgnored (guilds (ignored s)) (channels (ignored s))
                         (remove (users (ignored s)) gid)) s, Ok tt)
    else (s, Raised KeyError).

(** [unignore(ctx, target)] *)
Definition unignore (discord : Discord) (cv : Converters) (ctx : Context)
    (target : string) : M unit :=
  guarded ctx (fun g =>
    bind (resolve_target cv ctx g target) (fun tc =>
    bind (validate_ignore_target ctx g (fst tc)) (fun _ =>
    try_except_else (del_item (snd tc) (target_id (fst tc))) is_value_error
      (send discord ctx "Target not found.")
      (fun _ =>
         bind (fun s => if (is_member (fst tc) && conf_is_empty (snd tc) s)%bool
                        then del_users (guild_id g) s else ret tt s) (fun _ =>
         bind save (fun _ =>
         add_reaction discord ctx "WHITE HEAVY CHECK MARK")))))).

End Admin.

(** * Properties *)

(** ** Dictionaries *)

Section DictFacts.
Context {V : Type}.
Implicit Types (d pre : dict V) (k : Z) (v : V).

Lemma get_In d k v : get d k = Some v -> In k (keys d).
Proof.
  induction d as [|[k' v'] d IH]; simpl; [discriminate|].
  destruct (Z.eqb_spec k' k); auto.
Qed.

Lemma get_None d k : ~ In k (keys d) -> get d k = None.
Proof.
  induction d as [|[k' v'] d IH]; simpl; [reflexivity|].
  intros H. destruct (Z.eqb_spec k' k); [tauto|]. apply IH. tauto.
Qed.

Lemma get_set_eq d k v : get (set d k v) k = Some v.
Proof.
  induction d as [|[k' v'] d IH]; simpl.
  - now rewrite Z.eqb_refl.
  - destruct (Z.eqb_spec k' k) as [->|Hne]; simpl.
    + now rewrite Z.eqb_refl.
    + destruct (Z.eqb_spec k' k); [contradiction|exact IH].
Qed.

Lemma get_set_ne d k k' v : k <> k' -> get (set d k v) k' = get d k'.
Proof.
  intros Hne. induction d as [|[k0 v0] d IH]; simpl.
  - destruct (Z.eqb_spec k k'); [contradiction|reflexivity].
  - destruct (Z.eqb_spec k0 k) as [->|Hk]; simpl.
    + destruct (Z.eqb_spec k k'); [contradiction|reflexivity].
    + destruct (Z.eqb_spec k0 k'); [reflexivity|exact IH].
Qed.

Lemma keys_set_present d k v : In k (keys d) -> keys (set d k v) = keys d.
Proof.
  induction d as [|[k' v'] d IH]; simpl; [tauto|].
  intros H. destruct (Z.eqb_spec k' k) as [->|Hne]; simpl; [reflexivity|].
  f_equal. apply IH. destruct H; [contradiction|assumption].
Qed.

Lemma get_remove_ne d k k' : k <> k' -> get (remove d k) k' = get d k'.
Proof.
  intros Hne. induction d as [|[k0 v0] d IH]; simpl; [reflexivity|].
  destruct (Z.eqb_spec k0 k) as [->|Hk]; simpl.
  - destruct (Z.eqb_spec k k'); [contradiction|reflexivity].
  - destruct (Z.eqb_spec k0 k'); [reflexivity|exact IH].
Qed.

Lemma get_remove_eq d k : wf d -> get (remove d k) k = None.
Proof.
  unfold wf. induction d as [|[k0 v0] d IH]; simpl; [reflexivity|].
  intros Hnd. apply NoDup_cons_iff in Hnd as [Hnotin Hnd'].
  destruct (Z.eqb_spec k0 k) as [<-|Hk]; simpl.
  - now apply get_None.
  - destruct (Z.eqb_spec k0 k); [contradiction|auto].
Qed.

Lemma set_app_absent pre d k v x :
  ~ In k (keys pre) -> set (pre ++ (k, v) :: d) k x = pre ++ (k, x) :: d.
Proof.
  induction pre as [|[k' v'] pre IH]; simpl; intros H.
  - now rewrite Z.eqb_refl.
  - destruct (Z.eqb_spec k' k); [tauto|]. f_equal. apply IH. tauto.
Qed.

Lemma remove_app_absent pre d k v :
  ~ In k (keys pre) -> remove (pre ++ (k, v) :: d) k = pre ++ d.
Proof.
  induction pre as [|[k' v'] pre IH]; simpl; intros H.
  - now rewrite Z.eqb_refl.
  - destruct (Z.eqb_spec k' k); [tauto|]. f_equal. apply IH. tauto.
Qed.

Lemma remove_cons_ne d k k' v :
  k' <> k -> remove ((k', v) :: d) k = (k', v) :: remove d k.
Proof. intros H. simpl. destruct (Z.eqb_spec k' k); [contradiction|reflexivity]. Qed.

Lemma len_zero d : (len d =? 0) = true <-> d = [].
Proof.
  unfold len. destruct d; simpl; split; intros H; try reflexivity; discriminate.
Qed.

End DictFacts.

(** ** Removing channels: the loops compute what the specification says *)

Section Removal.
Variable chans : gset pyobj.

Lemma pop_channels_cons_absent cs k v d removed :
  ~ In k cs ->
  pop_channels cs ((k, v) :: d) removed
  = ((k, v) :: fst (pop_channels cs d removed), snd (pop_channels cs d removed)).
Proof.
  unfold pop_channels. revert d removed.
  induction cs as [|c cs IH]; intros d removed Hk; cbn [fold_left fst snd];
    [reflexivity|].
  rewrite remove_cons_ne by (intros ->; apply Hk; now left).
  apply IH. intros H. apply Hk. now right.
Qed.

Lemma pop_channels_common d removed :
  pop_channels (common_channels chans d) d removed
  = (kept_channels chans d,
     removed + Z.of_nat (length (common_channels chans d))).
Proof.
  revert removed. induction d as [|[k v] d IH]; intros removed.
  - unfold pop_channels. simpl. f_equal. lia.
  - unfold common_channels, kept_channels in *. simpl.
    destruct (bool_decide (PyInt k ∈ chans)) eqn:Hk; simpl.
    + unfold pop_channels in *. simpl. rewrite Z.eqb_refl.
      rewrite IH. f_equal. lia.
    + rewrite pop_channels_cons_absent.
      * rewrite IH. reflexivity.
      * intros Hin. apply filter_In in Hin as [_ Hin]. congruence.
Qed.

Lemma common_kept d : common_channels chans (kept_channels chans d) = [].
Proof.
  unfold common_channels, kept_channels.
  induction d as [|[k v] d IH]; simpl; [reflexivity|].
  destruct (bool_decide (PyInt k ∈ chans)) eqn:Hk; simpl; [exact IH|].
  rewrite Hk. exact IH.
Qed.

Lemma kept_all d : common_channels chans d = [] -> kept_channels chans d = d.
Proof.
  unfold common_channels, kept_channels.
  induction d as [|[k v] d IH]; simpl; [reflexivity|].
  destruct (bool_decide (PyInt k ∈ chans)) eqn:Hk; simpl; [discriminate|].
  intros H. f_equal. auto.
Qed.

Lemma remove_channels_step_spec pre uid conf rest removed unfollowed :
  ~ In uid (keys pre) ->
  remove_channels_step chans (pre ++ (uid, conf) :: rest, removed, unfollowed)
    (uid, conf)
  = (pre ++ remove_destinations_spec chans [(uid, conf)] ++ rest,
     removed + removed_spec chans [(uid, conf)],
     unfollowed + unfollowed_spec chans [(uid, conf)]).
Proof.
  intros Hpre. unfold remove_channels_step.
  rewrite pop_channels_common.
  unfold remove_destinations_spec, set_channels.
  cbn [map List.filter fst snd removed_spec unfollowed_spec].
  unfold has_channels, prune_source. cbn [fst snd channels screen_name].
  destruct (len (kept_channels chans (channels conf)) =? 0) eqn:Hlen;
    cbn [negb app].
  - rewrite remove_app_absent by assumption. repeat (f_equal; try lia).
  - rewrite set_app_absent by assumption. repeat (f_equal; try lia).
Qed.

Lemma keys_remove_destinations_spec f k :
  In k (keys (remove_destinations_spec chans f)) -> In k (keys f).
Proof.
  unfold remove_destinations_spec, keys.
  induction f as [|[uid conf] f IH]; simpl; [tauto|].
  destruct (has_channels _); simpl; intros H; tauto.
Qed.

Lemma wf_remove_destinations_spec f :
  wf f -> wf (remove_destinations_spec chans f).
Proof.
  unfold wf. induction f as [|[uid conf] f IH]; simpl; intros H.
  - constructor.
  - apply NoDup_cons_iff in H as [Hnotin Hnd].
    unfold remove_destinations_spec in *. simpl.
    destruct (has_channels _); simpl; [|auto].
    constructor; [|auto].
    intros Hin. apply Hnotin. now apply keys_remove_destinations_spec.
Qed.

Lemma remove_channels_loop_spec items pre removed unfollowed :
  wf items ->
  (forall k, In k (keys pre) -> ~ In k (keys items)) ->
  fold_left (remove_channels_step chans) items (pre ++ items, removed, unfollowed)
  = (pre ++ remove_destinations_spec chans items,
     removed + removed_spec chans items,
     unfollowed + unfollowed_spec chans items).
Proof.
  unfold wf. revert pre removed unfollowed.
  induction items as [|[uid conf] items IH]; intros pre removed unfollowed Hnd Hpre.
  - simpl. rewrite !Z.add_0_r. reflexivity.
  - apply NoDup_cons_iff in Hnd as [Hnotin Hnd].
    cbn [fold_left]. rewrite remove_channels_step_spec.
    2:{ intros Hin. apply (Hpre _ Hin). now left. }
    rewrite app_assoc. rewrite IH; [|assumption|].
    + rewrite <- app_assoc. f_equal; [f_equal|].
      * f_equal. unfold remove_destinations_spec. simpl.
        destruct (has_channels _); reflexivity.
      * cbn [removed_spec]. lia.
      * cbn [unfollowed_spec]. lia.
    + intros k Hk. unfold keys in Hk. rewrite map_app in Hk.
      apply in_app_or in Hk as [Hk|Hk].
      * intros Hin. apply (Hpre _ Hk). now right.
      * apply keys_remove_destinations_spec in Hk. simpl in Hk.
        destruct Hk as [<-|[]]. assumption.
Qed.

Lemma prune_source_idem item :
  prune_source chans (prune_source chans item) = prune_source chans item.
Proof.
  unfold prune_source. cbn [fst snd channels screen_name].
  rewrite (kept_all (kept_channels chans _)) by apply common_kept.
  reflexivity.
Qed.

Lemma common_prune_source item :
  common_channels chans (channels (snd (prune_source chans item))) = [].
Proof. unfold prune_source. cbn [snd channels]. apply common_kept. Qed.

(** Once applied, [removeDestinations] finds nothing more to do. *)
Lemma remove_destinations_spec_settled f :
  remove_destinations_spec chans (remove_destinations_spec chans f)
  = remove_destinations_spec chans f
  /\ removed_spec chans (remove_destinations_spec chans f) = 0
  /\ unfollowed_spec chans (remove_destinations_spec chans f) = 0.
Proof.
  unfold remove_destinations_spec.
  induction f as [|item f IH]; [now compute|].
  cbn [map List.filter].
  destruct (has_channels (prune_source chans item)) eqn:Hhas; [|exact IH].
  cbn [map List.filter removed_spec unfollowed_spec].
  rewrite prune_source_idem, Hhas, common_prune_source.
  destruct IH as (-> & -> & ->). auto.
Qed.

End Removal.

Lemma state_of_pair {A} (s : Twitter) (o : outcome A) : state_of (s, o) = s.
Proof. reflexivity. Qed.

Lemma outcome_of_pair {A} (s : Twitter) (o : outcome A) : outcome_of (s, o) = o.
Proof. reflexivity. Qed.

Lemma state_of_then_ret {A} (m : M A) (s : Twitter) :
  state_of (bind m (fun _ => ret tt) s) = state_of (m s).
Proof. unfold bind. destruct (m s) as [s' [a|e]]; reflexivity. Qed.

(** ** The stream handle *)

Lemma stream_restart_unfold s :
  stream_restart s = stream_start (state_of (stream_stop s)).
Proof. reflexivity. Qed.

Lemma stream_start_frame s :
  follows (state_of (stream_start s)) = follows s
  /\ saved (state_of (stream_start s)) = saved s
  /\ sent (state_of (stream_start s)) = sent s
  /\ reactions (state_of (stream_start s)) = reactions s.
Proof.
  unfold stream_start, modify, state_of. cbn [fst].
  destruct (stream_task s); [auto|]. destruct (0 <? len (follows s)); auto.
Qed.

Lemma stream_stop_frame s :
  follows (state_of (stream_stop s)) = follows s
  /\ saved (state_of (stream_stop s)) = saved s
  /\ sent (state_of (stream_stop s)) = sent s
  /\ reactions (state_of (stream_stop s)) = reactions s.
Proof.
  unfold stream_stop, modify, state_of. cbn [fst].
  destruct (stream_task s); auto.
Qed.

Lemma stream_restart_frame s :
  follows (state_of (stream_restart s)) = follows s
  /\ saved (state_of (stream_restart s)) = saved s
  /\ sent (state_of (stream_restart s)) = sent s
  /\ reactions (state_of (stream_restart s)) = reactions s.
Proof.
  rewrite stream_restart_unfold.
  destruct (stream_start_frame (state_of (stream_stop s))) as (-> & -> & -> & ->).
  apply stream_stop_frame.
Qed.

Lemma stream_restart_eta s :
  stream_restart s = (state_of (stream_restart s), Return tt).
Proof.
  reflexivity.
Qed.

(** [remove_channels_from_conf] never raises; it leaves the registry the
    specification asks for, saves it, restarts the stream when a source went
    away, and returns the two counts. *)
Lemma remove_channels_from_conf_spec (chs : list pyobj) (s : Twitter) :
  wf (follows s) ->
  remove_channels_from_conf chs s
  = (let f := remove_destinations_spec (list_to_set chs) (follows s) in
     let s' := set_saved f (set_follows f s) in
     if 0 <? unfollowed_spec (list_to_set chs) (follows s)
     then state_of (stream_restart s') else s',
     Return (removed_spec (list_to_set chs) (follows s),
             unfollowed_spec (list_to_set chs) (follows s))).
Proof.
  intros Hwf. unfold remove_channels_from_conf, bind at 1, get_state.
  pose proof (remove_channels_loop_spec (list_to_set chs) (follows s) [] 0 0 Hwf)
    as Hloop.
  change ([] ++ follows s) with (follows s) in Hloop.
  rewrite Hloop by (intros k []).
  cbn beta iota. rewrite !Z.add_0_l. change ([] ++ ?x) with x.
  unfold bind, modify, save, ret. cbn [set_follows set_saved follows].
  destruct (0 <? unfollowed_spec _ _).
  - rewrite stream_restart_eta. reflexivity.
  - reflexivity.
Qed.

(** C5. [remove_channels_from_conf] is idempotent: called again with the same
    channels on the cog it left, it returns the counts [(0, 0)], raises
    nothing, and leaves the cog (registry, saved copy and stream) as it
    was. *)
Theorem remove_channels_from_conf_idempotent (chs : list pyobj) (s : Twitter) :
  wf (follows s) ->
  remove_channels_from_conf chs (state_of (remove_channels_from_conf chs s))
  = (state_of (remove_channels_from_conf chs s), Return (0, 0)).
Proof.
  intros Hwf.
  pose proof (remove_destinations_spec_settled (list_to_set chs) (follows s))
    as (Hf & Hr & Hu).
  assert (Hfollows : follows (state_of (remove_channels_from_conf chs s))
                     = remove_destinations_spec (list_to_set chs) (follows s)).
  { rewrite remove_channels_from_conf_spec by assumption.
    rewrite state_of_pair. cbv zeta. destruct (0 <? _); [|reflexivity].
    now destruct (stream_restart_frame
                    (set_saved (remove_destinations_spec (list_to_set chs) (follows s))
                       (set_follows (remove_destinations_spec (list_to_set chs) (follows s)) s)))
      as (-> & _). }
  assert (Hsaved : saved (state_of (remove_channels_from_conf chs s))
                   = remove_destinations_spec (list_to_set chs) (follows s)).
  { rewrite remove_channels_from_conf_spec by assumption.
    rewrite state_of_pair. cbv zeta. destruct (0 <? _); [|reflexivity].
    now destruct (stream_restart_frame
                    (set_saved (remove_destinations_spec (list_to_set chs) (follows s))
                       (set_follows (remove_destinations_spec (list_to_set chs) (follows s)) s)))
      as (_ & -> & _). }
  rewrite (remove_channels_from_conf_spec chs (state_of _)).
  - rewrite Hfollows, Hf, Hr, Hu. cbn [Z.ltb Z.compare].
    f_equal. revert Hfollows Hsaved.
    generalize (remove_destinations_spec (list_to_set chs) (follows s)).
    destruct (state_of (remove_channels_from_conf chs s)).
    cbn. intros f -> ->. reflexivity.
  - rewrite Hfollows. now apply wf_remove_destinations_spec.
Qed.

(** ** Dispatching one tweet *)

Lemma dispatch_loop_cons w t url c rest s :
  dispatch_loop w t url (c :: rest) s
  = if get_channel w c
    then if send_ok w c url
         then dispatch_loop w t url rest (delivered t url s c)
         else (s, Raise HTTPException)
    else (s, Raise AttributeError).
Proof.
  cbn [dispatch_loop]. unfold bind, get_channel_send, send, raise, modify, save.
  destruct (get_channel w c); [|reflexivity].
  destruct (send_ok w c url); reflexivity.
Qed.

Lemma dispatch_loop_ok w t url cs s :
  Forall (fun c => deliverable w c url = true) cs ->
  dispatch_loop w t url cs s = (fold_left (delivered t url) cs s, Return tt).
Proof.
  intros Hok. revert s. induction Hok as [|c cs Hc Hcs IH]; intros s.
  - reflexivity.
  - rewrite dispatch_loop_cons. unfold deliverable in Hc.
    apply andb_true_iff in Hc as [-> ->]. rewrite IH. reflexivity.
Qed.

Lemma dispatch_loop_fails w t url pre c post s :
  Forall (fun c => deliverable w c url = true) pre ->
  deliverable w c url = false ->
  exists e,
    dispatch_loop w t url (pre ++ c :: post) s
    = (fold_left (delivered t url) pre s, Raise e).
Proof.
  intros Hok Hc. revert s. induction Hok as [|c' pre Hc' Hpre IH]; intros s.
  - cbn [app fold_left]. rewrite dispatch_loop_cons. unfold deliverable in Hc.
    destruct (get_channel w c); [|eauto].
    destruct (send_ok w c url); [discriminate|eauto].
  - cbn [app fold_left]. rewrite dispatch_loop_cons. unfold deliverable in Hc'.
    apply andb_true_iff in Hc' as [-> ->]. apply IH.
Qed.

Lemma sent_delivered_all t url cs s :
  sent (fold_left (delivered t url) cs s) = sent s ++ map (fun c => (c, url)) cs.
Proof.
  revert s. induction cs as [|c cs IH]; intros s; cbn [fold_left map].
  - now rewrite app_nil_r.
  - rewrite IH. unfold delivered, set_last_tweet_id.
    destruct (get (follows (add_sent c url s)) (tweet_user_id t));
      cbn; now rewrite <- app_assoc.
Qed.

Lemma channel_ids_delivered t url s c u :
  In c (channel_ids s (tweet_user_id t)) ->
  channel_ids (delivered t url s c) u = channel_ids s u.
Proof.
  unfold channel_ids, delivered, set_last_tweet_id. cbn [follows add_sent].
  destruct (get (follows s) (tweet_user_id t)) as [conf|] eqn:Hconf; [|intros []].
  intros Hc. cbn [follows set_follows set_saved]. unfold set_channels.
  destruct (Z.eq_dec (tweet_user_id t) u) as [<-|Hne].
  - rewrite get_set_eq, Hconf. cbn [channels]. now apply keys_set_present.
  - now rewrite get_set_ne.
Qed.

Lemma cursor_delivered t url s c u d :
  In c (channel_ids s (tweet_user_id t)) ->
  cursor (delivered t url s c) u d
  = if Z.eq_dec u (tweet_user_id t)
    then if Z.eq_dec d c then Some (tweet_id t) else cursor s u d
    else cursor s u d.
Proof.
  unfold channel_ids, cursor, delivered, set_last_tweet_id. cbn [follows add_sent].
  destruct (get (follows s) (tweet_user_id t)) as [conf|] eqn:Hconf; [|intros []].
  intros Hc. cbn [follows set_follows set_saved]. unfold set_channels.
  destruct (Z.eq_dec u (tweet_user_id t)) as [->|Hne].
  - rewrite get_set_eq, Hconf. cbn [channels].
    destruct (Z.eq_dec d c) as [->|Hd].
    + now rewrite get_set_eq.
    + rewrite get_set_ne by congruence. reflexivity.
  - rewrite get_set_ne by congruence. reflexivity.
Qed.

Lemma channel_ids_delivered_all t url cs s u :
  incl cs (channel_ids s (tweet_user_id t)) ->
  channel_ids (fold_left (delivered t url) cs s) u = channel_ids s u.
Proof.
  revert s. induction cs as [|c cs IH]; intros s Hincl; cbn [fold_left]; [reflexivity|].
  assert (Hc : In c (channel_ids s (tweet_user_id t))) by (apply Hincl; now left).
  rewrite IH.
  - now apply channel_ids_delivered.
  - rewrite channel_ids_delivered by assumption.
    intros x Hx. apply Hincl. now right.
Qed.

Lemma cursor_delivered_all_hit t url cs s d :
  incl cs (channel_ids s (tweet_user_id t)) ->
  In d cs ->
  cursor (fold_left (delivered t url) cs s) (tweet_user_id t) d = Some (tweet_id t).
Proof.
  revert s. induction cs as [|c cs IH]; intros s Hincl Hd; [destruct Hd|].
  cbn [fold_left].
  assert (Hc : In c (channel_ids s (tweet_user_id t))) by (apply Hincl; now left).
  assert (Hincl' : incl cs (channel_ids (delivered t url s c) (tweet_user_id t))).
  { rewrite channel_ids_delivered by assumption. intros x Hx. apply Hincl. now right. }
  destruct (in_dec Z.eq_dec d cs) as [Hin|Hnotin]; [now apply IH|].
  destruct Hd as [->|Hd]; [|contradiction].
  clear IH. revert Hincl' Hnotin.
  assert (Hnow : cursor (delivered t url s d) (tweet_user_id t) d = Some (tweet_id t)).
  { rewrite cursor_delivered by assumption.
    destruct (Z.eq_dec _ _); [|contradiction]. destruct (Z.eq_dec d d); congruence. }
  revert Hnow. generalize (delivered t url s d). clear.
  induction cs as [|c cs IH]; intros s Hnow Hincl Hnotin; cbn [fold_left]; [assumption|].
  assert (Hc : In c (channel_ids s (tweet_user_id t))) by (apply Hincl; now left).
  apply IH.
  - rewrite cursor_delivered by assumption.
    destruct (Z.eq_dec _ _); [|contradiction].
    destruct (Z.eq_dec d c) as [->|]; [exfalso; apply Hnotin; now left|assumption].
  - rewrite channel_ids_delivered by assumption. intros x Hx. apply Hincl. now right.
  - intros H. apply Hnotin. now right.
Qed.

Lemma cursor_delivered_all_miss t url cs s u d :
  incl cs (channel_ids s (tweet_user_id t)) ->
  u <> tweet_user_id t \/ ~ In d cs ->
  cursor (fold_left (delivered t url) cs s) u d = cursor s u d.
Proof.
  revert s. induction cs as [|c cs IH]; intros s Hincl Hmiss; cbn [fold_left]; [reflexivity|].
  assert (Hc : In c (channel_ids s (tweet_user_id t))) by (apply Hincl; now left).
  rewrite IH.
  - rewrite cursor_delivered by assumption.
    destruct (Z.eq_dec u (tweet_user_id t)) as [->|]; [|reflexivity].
    destruct (Z.eq_dec d c) as [->|]; [|reflexivity].
    destruct Hmiss as [H|H]; [congruence|]. exfalso. apply H. now left.
  - rewrite channel_ids_delivered by assumption. intros x Hx. apply Hincl. now right.
  - destruct Hmiss as [H|H]; [now left|right]. intros Hin. apply H. now right.
Qed.

Lemma dispatch_tweet_unfold w t s :
  dispatch_tweet w t s
  = match get (follows s) (tweet_user_id t) with
    | None => (s, Return tt)
    | Some conf => dispatch_loop w t (url_of t) (keys (channels conf)) s
    end.
Proof.
  unfold dispatch_tweet, bind, get_state, url_of.
  destruct (get (follows s) (tweet_user_id t)); reflexivity.
Qed.

(** ** What a channel received *)

Lemma received_sent_app s s' l d :
  sent s' = sent s ++ l ->
  received s' d = received s d ++ map snd (List.filter (fun m => fst m =? d) l).
Proof.
  intros H. unfold received. now rewrite H, List.filter_app, map_app.
Qed.

Lemma NoDup_app_disjoint (l1 l2 : list Z) x :
  List.NoDup (l1 ++ l2) -> In x l1 -> ~ In x l2.
Proof.
  induction l1 as [|a l1 IH]; cbn [app]; intros Hnd Hx; [destruct Hx|].
  apply NoDup_cons_iff in Hnd as [Ha Hnd]. destruct Hx as [->|Hx]; [|auto].
  intros H. apply Ha. apply in_or_app. now right.
Qed.

Lemma filter_channel_miss (url : string) cs d :
  ~ In d cs -> List.filter (fun m => fst m =? d) (map (fun c => (c, url)) cs) = [].
Proof.
  induction cs as [|c cs IH]; intros H; cbn; [reflexivity|].
  destruct (Z.eqb_spec c d) as [->|]; [exfalso; apply H; now left|].
  apply IH. intros Hin. apply H. now right.
Qed.

Lemma filter_channel_hit (url : string) cs d :
  List.NoDup cs -> In d cs ->
  List.filter (fun m => fst m =? d) (map (fun c => (c, url)) cs) = [(d, url)].
Proof.
  induction cs as [|c cs IH]; intros Hnd Hd; [destruct Hd|].
  apply NoDup_cons_iff in Hnd as [Hnotin Hnd]. cbn.
  destruct (Z.eqb_spec c d) as [->|Hne].
  - now rewrite filter_channel_miss.
  - destruct Hd as [->|Hd]; [contradiction|auto].
Qed.

(** ** A delivery that fails *)

(** C3, as the code has it.  The dispatch of a tweet stops at the first
    channel that cannot be delivered to, with the exception of that send:
    the channels before it in the dictionary have received the tweet and
    have their cursor on it; the failing channel and every channel after it
    have received nothing and keep their cursor. *)
Theorem dispatch_tweet_stops_at_failure
    (w : World) (t : tweet) (s : Twitter) (conf : follow_conf)
    (pre : list Z) (c : Z) (post : list Z) :
  get (follows s) (tweet_user_id t) = Some conf ->
  wf (channels conf) ->
  keys (channels conf) = pre ++ c :: post ->
  Forall (fun d => deliverable w d (url_of t) = true) pre ->
  deliverable w c (url_of t) = false ->
  (exists e, outcome_of (dispatch_tweet w t s) = Raise e)
  /\ (forall d, In d pre ->
        received (state_of (dispatch_tweet w t s)) d = received s d ++ [url_of t]
        /\ cursor (state_of (dispatch_tweet w t s)) (tweet_user_id t) d
           = Some (tweet_id t))
  /\ (forall d, In d (c :: post) ->
        received (state_of (dispatch_tweet w t s)) d = received s d
        /\ cursor (state_of (dispatch_tweet w t s)) (tweet_user_id t) d
           = cursor s (tweet_user_id t) d).
Proof.
  intros Hconf Hwf Hkeys Hpre Hc.
  rewrite dispatch_tweet_unfold, Hconf, Hkeys.
  destruct (dispatch_loop_fails w t (url_of t) pre c post s Hpre Hc) as [e ->].
  rewrite state_of_pair, outcome_of_pair.
  unfold wf in Hwf. rewrite Hkeys in Hwf.
  assert (Hincl : incl pre (channel_ids s (tweet_user_id t))).
  { unfold channel_ids. rewrite Hconf, Hkeys. intros x Hx. apply in_or_app. now left. }
  assert (Hndpre : List.NoDup pre) by (now apply List.NoDup_app_remove_r in Hwf).
  assert (Hdisj : forall d, In d (c :: post) -> ~ In d pre).
  { intros d Hd Hin. exact (NoDup_app_disjoint _ _ d Hwf Hin Hd). }
  split; [eauto|]. split.
  - intros d Hd. split.
    + rewrite (received_sent_app s _ _ d (sent_delivered_all t (url_of t) pre s)).
      now rewrite filter_channel_hit.
    + now apply cursor_delivered_all_hit.
  - intros d Hd. split.
    + rewrite (received_sent_app s _ _ d (sent_delivered_all t (url_of t) pre s)).
      rewrite filter_channel_miss by (now apply Hdisj). now rewrite app_nil_r.
    + apply cursor_delivered_all_miss; [assumption|]. right. now apply Hdisj.
Qed.

(** ** Replaying a timeline *)

Lemma dispatch_tweet_ok w t s :
  Forall (fun c => deliverable w c (url_of t) = true)
         (channel_ids s (tweet_user_id t)) ->
  dispatch_tweet w t s
  = (fold_left (delivered t (url_of t)) (channel_ids s (tweet_user_id t)) s,
     Return tt).
Proof.
  intros Hok. rewrite dispatch_tweet_unfold. unfold channel_ids in *.
  destruct (get (follows s) (tweet_user_id t)); [|reflexivity].
  now apply dispatch_loop_ok.
Qed.

Lemma dispatch_all_cons w t ts s :
  dispatch_all w (t :: ts) s
  = match dispatch_tweet w t s with
    | (s', Return _) => dispatch_all w ts s'
    | (s', Raise e) => (s', Raise e)
    end.
Proof. reflexivity. Qed.

(** the messages a replay of [ts] sends to the channels [cs] *)
Lemma received_replay (cs : list Z) (ts : list tweet) d :
  List.NoDup cs -> In d cs ->
  map snd (List.filter (fun m => fst m =? d)
             (flat_map (fun t => map (fun c => (c, url_of t)) cs) ts))
  = map url_of ts.
Proof.
  intros Hnd Hd. induction ts as [|t ts IH]; [reflexivity|].
  cbn [flat_map]. rewrite List.filter_app, map_app, IH.
  now rewrite filter_channel_hit.
Qed.

Lemma dispatch_all_ok w uid ts s :
  List.NoDup (channel_ids s uid) ->
  Forall (fun t => tweet_user_id t = uid) ts ->
  (forall d text, In d (channel_ids s uid) -> deliverable w d text = true) ->
  exists s',
    dispatch_all w ts s = (s', Return tt)
    /\ channel_ids s' uid = channel_ids s uid
    /\ sent s' = sent s
                 ++ flat_map (fun t => map (fun c => (c, url_of t)) (channel_ids s uid)) ts
    /\ forall d, In d (channel_ids s uid) ->
         cursor s' uid d
         = fold_left (fun _ t => Some (tweet_id t)) ts (cursor s uid d).
Proof.
  intros Hnd Hts. revert s Hnd.
  induction Hts as [|t ts Ht Hts IH]; intros s Hnd Hok.
  - exists s. cbn. rewrite app_nil_r. auto.
  - rewrite dispatch_all_cons, dispatch_tweet_ok; rewrite Ht.
    2:{ apply List.Forall_forall. intros d Hd. now apply Hok. }
    set (s1 := fold_left (delivered t (url_of t)) (channel_ids s uid) s).
    assert (Hids : channel_ids s1 uid = channel_ids s uid).
    { subst s1. rewrite <- Ht. apply channel_ids_delivered_all. apply incl_refl. }
    destruct (IH s1) as (s' & Hrun & Hids' & Hsent & Hcur).
    { now rewrite Hids. }
    { intros d text Hd. apply Hok. now rewrite <- Hids. }
    exists s'. split; [exact Hrun|]. split; [congruence|]. split.
    + rewrite Hsent, Hids. subst s1. rewrite sent_delivered_all.
      cbn [flat_map]. now rewrite <- app_assoc.
    + intros d Hd. rewrite Hcur by (now rewrite Hids). cbn [fold_left].
      f_equal. subst s1. rewrite <- Ht.
      apply cursor_delivered_all_hit; [apply incl_refl|now rewrite Ht].
Qed.

Lemma get_timeline_since w uid name limit s conf since_id :
  uid <> 0 ->
  get (follows s) uid = Some conf ->
  py_min (cursors conf) = Some since_id ->
  0 < since_id ->
  get_timeline w (Some uid) name limit s
  = (s, Return (firstn (page_size w)
                  (List.filter (fun t => since_id <? tweet_id t) (user_timeline w uid)))).
Proof.
  intros Huid Hconf Hmin Hpos. unfold get_timeline, bind, get_state.
  destruct (Z.eqb_spec uid 0); [contradiction|].
  rewrite Hconf, Hmin. apply Z.ltb_lt in Hpos. rewrite Hpos. reflexivity.
Qed.

Lemma sorted_newest_first_rev (ts : list tweet) :
  StronglySorted (fun a b => tweet_id b < tweet_id a) ts ->
  StronglySorted Z.lt (map tweet_id (rev ts)).
Proof.
  induction 1 as [|t ts Hts IH Hall]; cbn [rev map]; [constructor|].
  rewrite map_app. cbn [map].
  revert IH. assert (Hlt : Forall (fun x => x < tweet_id t) (map tweet_id (rev ts))).
  { apply List.Forall_forall. intros x Hx. apply in_map_iff in Hx as (b & <- & Hb).
    apply in_rev in Hb. rewrite List.Forall_forall in Hall. now apply Hall. }
  revert Hlt. generalize (map tweet_id (rev ts)). clear.
  induction l as [|x l IH]; intros Hlt Hs; cbn [app].
  - repeat constructor.
  - apply StronglySorted_inv in Hs as [Hs Hx].
    apply Forall_cons_iff in Hlt as [Hxt Hlt].
    constructor; [auto|]. apply Forall_app. split; [assumption|]. now constructor.
Qed.

Lemma sorted_filter (f : tweet -> bool) (ts : list tweet) :
  StronglySorted (fun a b => tweet_id b < tweet_id a) ts ->
  StronglySorted (fun a b => tweet_id b < tweet_id a) (List.filter f ts).
Proof.
  induction 1 as [|t ts Hts IH Hall]; cbn [List.filter]; [constructor|].
  destruct (f t); [|assumption]. constructor; [assumption|].
  apply List.Forall_forall. intros x Hx. apply filter_In in Hx as [Hx _].
  rewrite List.Forall_forall in Hall. now apply Hall.
Qed.

Lemma In_firstn {A} (n : nat) (l : list A) (x : A) : In x (firstn n l) -> In x l.
Proof.
  revert n. induction l as [|a l IH]; intros [|n]; cbn [firstn In]; try tauto.
  intros [->|H]; [now left|right; eauto].
Qed.

Lemma sorted_firstn (n : nat) (ts : list tweet) :
  StronglySorted (fun a b => tweet_id b < tweet_id a) ts ->
  StronglySorted (fun a b => tweet_id b < tweet_id a) (firstn n ts).
Proof.
  intros Hs. revert n. induction Hs as [|t ts Hts IH Hall]; intros [|n];
    cbn [firstn]; try constructor; [apply IH|].
  apply List.Forall_forall. intros x Hx. apply In_firstn in Hx.
  rewrite List.Forall_forall in Hall. now apply Hall.
Qed.

(** C1, as the code has it.  Reconciling a source fetches its timeline
    since the smallest cursor among the channels that follow it.  What the
    fetch returns is one page: of the tweets newer than that cursor, the
    [page_size] newest.  Each channel receives exactly the tweets that the
    fetch returned, oldest first, whatever its own cursor, and then has its
    cursor on the newest one. *)
Theorem update_feed_replays_since_min_cursor
    (w : World) (s : Twitter) (uid : Z) (conf : follow_conf) (since_id : Z)
    (fetched : list tweet) :
  uid <> 0 ->
  get (follows s) uid = Some conf ->
  wf (channels conf) ->
  py_min (cursors conf) = Some since_id ->
  0 < since_id ->
  outcome_of (get_timeline w (Some uid) "" 3 s) = Return fetched ->
  Forall (fun t => tweet_user_id t = uid) (user_timeline w uid) ->
  StronglySorted (fun a b => tweet_id b < tweet_id a) (user_timeline w uid) ->
  (forall d text, In d (keys (channels conf)) -> deliverable w d text = true) ->
  fetched
  = firstn (page_size w)
      (List.filter (fun t => since_id <? tweet_id t) (user_timeline w uid))
  /\ outcome_of (update_feed w uid s) = Return tt
  /\ StronglySorted Z.lt (map tweet_id (rev fetched))
  /\ forall d, In d (keys (channels conf)) ->
       received (state_of (update_feed w uid s)) d
       = received s d ++ map url_of (rev fetched)
       /\ forall newest, hd_error fetched = Some newest ->
            cursor (state_of (update_feed w uid s)) uid d = Some (tweet_id newest).
Proof.
  intros Huid Hconf Hwf Hmin Hpos Hfetched Huser Hsorted Hok.
  assert (Hids : channel_ids s uid = keys (channels conf)).
  { unfold channel_ids. now rewrite Hconf. }
  assert (Hpage : fetched
                  = firstn (page_size w)
                      (List.filter (fun t => since_id <? tweet_id t)
                         (user_timeline w uid))).
  { rewrite (get_timeline_since w uid _ _ s conf since_id) in Hfetched by assumption.
    rewrite outcome_of_pair in Hfetched. now injection Hfetched. }
  assert (Hfetch : get_timeline w (Some uid) "" 3 s = (s, Return fetched)).
  { rewrite Hpage. now apply (get_timeline_since w uid _ _ s conf since_id). }
  split; [exact Hpage|].
  unfold update_feed, bind. rewrite Hfetch.
  destruct (dispatch_all_ok w uid (rev fetched) s) as (s' & Hrun & _ & Hsent & Hcur).
  { now rewrite Hids. }
  { apply List.Forall_forall. intros t Ht. apply in_rev in Ht.
    rewrite Hpage in Ht. apply In_firstn in Ht.
    apply filter_In in Ht as [Ht _]. rewrite List.Forall_forall in Huser. auto. }
  { intros d text Hd. apply Hok. now rewrite <- Hids. }
  rewrite Hrun, state_of_pair, outcome_of_pair.
  split; [reflexivity|]. split.
  { apply sorted_newest_first_rev. rewrite Hpage.
    now apply sorted_firstn, sorted_filter. }
  intros d Hd. split.
  - rewrite (received_sent_app s s' _ d Hsent), Hids.
    now rewrite received_replay.
  - intros newest Hnewest. rewrite Hcur by (now rewrite Hids).
    destruct fetched as [|t fetched']; [discriminate|].
    injection Hnewest as ->. cbn [rev]. now rewrite fold_left_app.
Qed.

(** The scenario of the specification, run: channel 100, whose cursor is on
    tweet 1001, receives the four tweets 999 to 1002 again, not only 1002. *)
Lemma update_feeds_resends_to_channel_ahead :
  cursor scenario_cog 42 100 = Some 1001
  /\ outcome_of (update_feeds (scenario_world 0) scenario_cog) = Return tt
  /\ received (state_of (update_feeds (scenario_world 0) scenario_cog)) 100
     = map url_of (map alice_tweet [999; 1000; 1001; 1002])
  /\ received (state_of (update_feeds (scenario_world 0) scenario_cog)) 100
     <> [url_of (alice_tweet 1002)].
Proof. vm_compute. repeat split; discriminate. Qed.

(** After a longer outage the reconciliation does not replay all that was
    missed.  Of the 22 tweets newer than the cursor 1000, the fetch returns
    the page of the 20 newest: channel 100 receives 1003 to 1022 and is then
    on 1022, so that the next reconciliation fetches nothing, and 1001 and
    1002 are never delivered. *)
Lemma update_feed_misses_tweets_older_than_the_page :
  length (List.filter (fun t => 1000 <? tweet_id t) (user_timeline outage_world 42))
  = 22%nat
  /\ received (state_of (update_feed outage_world 42 outage_cog)) 100
     = map url_of (map alice_tweet (map Z.of_nat (seq 1003 20)))
  /\ cursor (state_of (update_feed outage_world 42 outage_cog)) 42 100 = Some 1022
  /\ update_feed outage_world 42 (state_of (update_feed outage_world 42 outage_cog))
     = (state_of (update_feed outage_world 42 outage_cog), Return tt).
Proof. vm_compute. repeat split. Qed.

Lemma update_feed_replays_since_min_cursor_witness :
  outcome_of (update_feed (scenario_world 0) 42 scenario_cog) = Return tt
  /\ received (state_of (update_feed (scenario_world 0) 42 scenario_cog)) 200
     = received scenario_cog 200
       ++ map url_of (rev (map alice_tweet [1002; 1001; 1000; 999]))
  /\ cursor (state_of (update_feed (scenario_world 0) 42 scenario_cog)) 42 200
     = Some 1002.
Proof.
  pose proof (update_feed_replays_since_min_cursor (scenario_world 0) scenario_cog 42
                (FollowConf "alice" [(100, ChannelConf 1001); (200, ChannelConf 998)])
                998 (map alice_tweet [1002; 1001; 1000; 999])) as H.
  destruct H as (_ & Hout & _ & Hd).
  - discriminate.
  - reflexivity.
  - unfold wf. cbn. repeat constructor; cbn; intuition discriminate.
  - reflexivity.
  - reflexivity.
  - reflexivity.
  - cbn. repeat constructor.
  - cbn. repeat constructor.
  - intros d text [<-|[<-|[]]]; reflexivity.
  - destruct (Hd 200) as [Hrecv Hcur].
    + cbn. auto.
    + split; [exact Hout|]. split; [exact Hrecv|].
      exact (Hcur (alice_tweet 1002) eq_refl).
Defined.

(** Channel 300 cannot be reached: the tweet goes to channel 100 and the
    dispatch stops, so channel 200, which takes messages, never gets it. *)
Lemma dispatch_tweet_failure_blocks_later_channels :
  let w := scenario_world 300 in
  let s := init [(42, FollowConf "alice"
                        [(100, ChannelConf 1000); (300, ChannelConf 1000);
                         (200, ChannelConf 1000)])] in
  deliverable w 200 (url_of (alice_tweet 1001)) = true
  /\ outcome_of (dispatch_tweet w (alice_tweet 1001) s) = Raise AttributeError
  /\ received (state_of (dispatch_tweet w (alice_tweet 1001) s)) 100
     = [url_of (alice_tweet 1001)]
  /\ received (state_of (dispatch_tweet w (alice_tweet 1001) s)) 200 = []
  /\ cursor (state_of (dispatch_tweet w (alice_tweet 1001) s)) 42 200 = Some 1000.
Proof. vm_compute. repeat split. Qed.

Lemma dispatch_tweet_stops_at_failure_witness :
  let w := scenario_world 300 in
  let s := init [(42, FollowConf "alice"
                        [(100, ChannelConf 1000); (300, ChannelConf 1000);
                         (200, ChannelConf 1000)])] in
  received (state_of (dispatch_tweet w (alice_tweet 1001) s)) 100
  = received s 100 ++ [url_of (alice_tweet 1001)]
  /\ cursor (state_of (dispatch_tweet w (alice_tweet 1001) s)) 42 100 = Some 1001
  /\ received (state_of (dispatch_tweet w (alice_tweet 1001) s)) 200 = received s 200
  /\ cursor (state_of (dispatch_tweet w (alice_tweet 1001) s)) 42 200
     = cursor s 42 200.
Proof.
  intros w s.
  pose proof (dispatch_tweet_stops_at_failure w (alice_tweet 1001) s
                (FollowConf "alice"
                   [(100, ChannelConf 1000); (300, ChannelConf 1000);
                    (200, ChannelConf 1000)])
                [100] 300 [200]) as H.
  destruct H as (_ & Hpre & Hpost).
  - reflexivity.
  - unfold wf. cbn. repeat constructor; cbn; intuition discriminate.
  - reflexivity.
  - repeat constructor.
  - reflexivity.
  - destruct (Hpre 100) as [H1 H2]; [cbn; auto|].
    destruct (Hpost 200) as [H3 H4]; [cbn; auto|].
    auto.
Defined.

Lemma remove_channels_from_conf_idempotent_witness :
  remove_channels_from_conf [PyInt 200]
    (state_of (remove_channels_from_conf [PyInt 200] scenario_cog))
  = (state_of (remove_channels_from_conf [PyInt 200] scenario_cog), Return (0, 0)).
Proof.
  apply remove_channels_from_conf_idempotent.
  unfold wf. cbn. repeat constructor; cbn; intuition.
Defined.

(** ** The registry after a command *)

Arguments stream_restart : simpl never.
Arguments stream_start : simpl never.
Arguments stream_stop : simpl never.

Create HintDb cog.
#[local] Hint Unfold bind modify save ret raise get_state add_reaction send : cog.

Ltac run_cog := repeat progress (autounfold with cog; cbn beta iota).

Lemma follows_follow_channel w channel uid conf url last s :
  follows (state_of (follow_channel w channel uid conf url last s))
  = set (follows s) uid
      (FollowConf (screen_name conf) (set (channels conf) channel (ChannelConf last))).
Proof.
  unfold follow_channel. run_cog. rewrite stream_restart_eta. cbn beta iota.
  match goal with
  | |- context [stream_restart ?x] =>
      destruct (stream_restart_frame x) as (Hf & _); revert Hf;
      generalize (state_of (stream_restart x))
  end.
  intros s' Hf.
  destruct (send_ok w channel url); [destruct (react_ok w channel _)|];
    cbn; rewrite Hf; reflexivity.
Qed.

Lemma config_get_get f name uid conf :
  wf f -> config_get f name = Some (uid, conf) -> get f uid = Some conf.
Proof.
  unfold wf. induction f as [|[k0 c0] f IH]; cbn; [discriminate|].
  intros Hnd. apply NoDup_cons_iff in Hnd as [Hk0 Hnd].
  destruct (String.eqb (screen_name c0) name).
  - intros [= <- <-]. now rewrite Z.eqb_refl.
  - intros H. specialize (IH Hnd H).
    destruct (Z.eqb_spec k0 uid) as [->|]; [|assumption].
    exfalso. apply Hk0. eapply get_In. eassumption.
Qed.

Lemma get_config_get f k conf :
  get f k = Some conf -> config_get f (screen_name conf) <> None.
Proof.
  induction f as [|[k0 c0] f IH]; cbn; [discriminate|].
  destruct (Z.eqb_spec k0 k) as [->|].
  - intros [= ->]. now rewrite String.eqb_refl.
  - intros H. destruct (String.eqb (screen_name c0) (screen_name conf)); [discriminate|auto].
Qed.

Lemma get_In_item {V} (d : dict V) k v : get d k = Some v -> In (k, v) d.
Proof.
  induction d as [|[k' v'] d IH]; cbn; [discriminate|].
  destruct (Z.eqb_spec k' k) as [->|]; [intros [= ->]; now left|auto].
Qed.

Lemma contains_false_get {V} (d : dict V) k : contains d k = false -> get d k = None.
Proof. unfold contains. destruct (get d k); [discriminate|reflexivity]. Qed.

(** [follow] leaves the cursors that exist as they are. *)
Lemma cursor_follow w channel handle s u d c :
  wf (follows s) ->
  handles_current w (follows s) ->
  cursor s u d = Some c ->
  cursor (state_of (follow w channel handle s)) u d = Some c.
Proof.
  intros Hwf Hcur Hc. unfold follow. run_cog.
  set (name := lstrip_at (str_lower w handle)).
  destruct (config_get (follows s) name) as [[uid conf]|] eqn:Hget.
  - apply config_get_get in Hget; [|assumption].
    destruct (contains (channels conf) channel) eqn:Hin; [exact Hc|].
    destruct (py_max (cursors conf)); [|exact Hc].
    unfold cursor in *. rewrite follows_follow_channel.
    destruct (Z.eq_dec uid u) as [->|Hne].
    + rewrite get_set_eq. rewrite Hget in Hc. cbn [channels].
      rewrite get_set_ne; [exact Hc|].
      intros ->. apply contains_false_get in Hin. rewrite Hin in Hc. discriminate.
    + now rewrite get_set_ne.
  - destruct (users_show w name) as [usr|] eqn:Husr; [|exact Hc].
    destruct (user_protected usr); [exact Hc|].
    assert (Hne : user_id usr <> u).
    { intros Heq. subst u. unfold cursor in Hc.
      destruct (get (follows s) (user_id usr)) as [conf|] eqn:Hconf; [|discriminate].
      pose proof (Hcur _ _ _ Husr Hconf) as Hname.
      apply get_config_get in Hconf. rewrite Hname in Hconf. contradiction. }
    destruct (user_status usr) as [last|].
    + unfold cursor in *. rewrite follows_follow_channel. cbn [follows set_follows].
      now rewrite !get_set_ne.
    + unfold cursor in *. cbn [state_of fst follows set_follows].
      now rewrite get_set_ne.
Qed.

Lemma follows_unfollow w channel handle s :
  follows (state_of (unfollow w channel handle s))
  = match config_get (follows s) (lstrip_at (str_lower w handle)) with
    | Some (uid, conf) =>
        if contains (channels conf) channel
        then let chs := remove (channels conf) channel in
             if len chs =? 0
             then remove (set_channels uid conf chs (follows s)) uid
             else set_channels uid conf chs (follows s)
        else follows s
    | None => follows s
    end.
Proof.
  unfold unfollow. run_cog.
  destruct (config_get (follows s) (lstrip_at (str_lower w handle))) as [[uid conf]|];
    [|reflexivity].
  destruct (contains (channels conf) channel); [|reflexivity].
  cbn zeta. destruct (len (remove (channels conf) channel) =? 0); run_cog.
  - rewrite stream_restart_eta. cbn.
    match goal with
    | |- context [stream_restart ?x] =>
        destruct (stream_restart_frame x) as (Hf & _)
    end.
    destruct (react_ok w channel _); cbn; now rewrite Hf.
  - destruct (react_ok w channel _); reflexivity.
Qed.

Lemma wf_entry (f : dict follow_conf) uid conf :
  wf_registry f -> get f uid = Some conf -> wf (channels conf).
Proof.
  intros [_ Hall] Hget. apply get_In_item in Hget.
  rewrite List.Forall_forall in Hall. exact (Hall _ Hget).
Qed.

Lemma wf_set_present {V} (d : dict V) k v :
  wf d -> In k (keys d) -> wf (set d k v).
Proof. unfold wf. intros Hwf Hin. now rewrite keys_set_present. Qed.

(** [unfollow] leaves a cursor as it is, or removes it. *)
Lemma cursor_unfollow w channel handle s u d c c' :
  wf_registry (follows s) ->
  cursor s u d = Some c ->
  cursor (state_of (unfollow w channel handle s)) u d = Some c' ->
  c' = c.
Proof.
  intros Hwf Hc. unfold cursor at 1. rewrite follows_unfollow.
  destruct (config_get (follows s) (lstrip_at (str_lower w handle))) as [[uid conf]|] eqn:Hget;
    [|fold (cursor s u d); congruence].
  apply config_get_get in Hget; [|apply Hwf].
  destruct (contains (channels conf) channel); [|fold (cursor s u d); congruence].
  cbn zeta. unfold set_channels.
  assert (Hstep : forall conf',
             get (set (follows s) uid
                    (FollowConf (screen_name conf) (remove (channels conf) channel))) u
             = Some conf' ->
             option_map last_tweet_id (get (channels conf') d) = Some c' -> c' = c).
  { intros conf'. unfold cursor in Hc.
    destruct (Z.eq_dec uid u) as [->|Hne].
    - rewrite get_set_eq. intros [= <-]. cbn [channels]. rewrite Hget in Hc.
      destruct (Z.eq_dec channel d) as [->|Hd].
      + rewrite get_remove_eq by (eapply wf_entry; eassumption). discriminate.
      + rewrite get_remove_ne by assumption. congruence.
    - rewrite get_set_ne by assumption. intros Hu. rewrite Hu in Hc. congruence. }
  destruct (len (remove (channels conf) channel) =? 0).
  - destruct (Z.eq_dec uid u) as [->|Hne].
    + rewrite get_remove_eq; [discriminate|].
      apply wf_set_present; [apply Hwf|]. eapply get_In. eassumption.
    + rewrite get_remove_ne by assumption.
      destruct (get _ u) as [conf'|] eqn:Hu; [|discriminate]. now apply Hstep.
  - destruct (get _ u) as [conf'|] eqn:Hu; [|discriminate]. now apply Hstep.
Qed.

Lemma get_kept_channels chans (chs : dict channel_conf) d x :
  get (kept_channels chans chs) d = Some x -> get chs d = Some x.
Proof.
  unfold kept_channels. induction chs as [|[k v] chs IH]; cbn; [discriminate|].
  destruct (bool_decide (PyInt k ∈ chans)) eqn:Hk; cbn.
  - intros H. destruct (Z.eqb_spec k d) as [->|]; [|auto].
    exfalso. clear IH. revert H. induction chs as [|[k' v'] chs IH]; cbn; [discriminate|].
    destruct (bool_decide (PyInt k' ∈ chans)) eqn:Hk'; cbn; [exact IH|].
    destruct (Z.eqb_spec k' d) as [->|]; [congruence|exact IH].
  - destruct (Z.eqb_spec k d); auto.
Qed.

Lemma get_remove_destinations_spec chans f u conf' :
  wf f ->
  get (remove_destinations_spec chans f) u = Some conf' ->
  exists conf, get f u = Some conf
               /\ channels conf' = kept_channels chans (channels conf).
Proof.
  unfold wf, remove_destinations_spec.
  induction f as [|[k cf] f IH]; cbn [map List.filter keys]; [discriminate|].
  intros Hnd. apply NoDup_cons_iff in Hnd as [Hk Hnd]. cbn [get].
  destruct (Z.eqb_spec k u) as [->|Hne].
  - destruct (has_channels (prune_source chans (u, cf))).
    + cbn [get prune_source fst snd]. rewrite Z.eqb_refl. intros [= <-]. eauto.
    + intros H. exfalso. apply Hk.
      apply get_In in H. now apply keys_remove_destinations_spec in H.
  - destruct (has_channels (prune_source chans (k, cf))); [|auto].
    cbn [get prune_source fst snd].
    destruct (Z.eqb_spec k u); [contradiction|auto].
Qed.

(** [remove_channels_from_conf] leaves a cursor as it is, or removes it. *)
Lemma cursor_remove_channels chs s u d c c' :
  wf (follows s) ->
  cursor s u d = Some c ->
  cursor (state_of (remove_channels_from_conf chs s)) u d = Some c' ->
  c' = c.
Proof.
  intros Hwf Hc. unfold cursor at 1.
  rewrite remove_channels_from_conf_spec by assumption.
  rewrite state_of_pair. cbv zeta.
  assert (Hf : follows
                 (if 0 <? unfollowed_spec (list_to_set chs) (follows s)
                  then state_of (stream_restart
                         (set_saved (remove_destinations_spec (list_to_set chs) (follows s))
                            (set_follows (remove_destinations_spec (list_to_set chs) (follows s)) s)))
                  else set_saved (remove_destinations_spec (list_to_set chs) (follows s))
                         (set_follows (remove_destinations_spec (list_to_set chs) (follows s)) s))
               = remove_destinations_spec (list_to_set chs) (follows s)).
  { destruct (0 <? _); [|reflexivity].
    match goal with
    | |- context [stream_restart ?x] =>
        now destruct (stream_restart_frame x) as (-> & _)
    end. }
  rewrite Hf.
  destruct (get (remove_destinations_spec _ _) u) as [conf'|] eqn:Hu; [|discriminate].
  apply get_remove_destinations_spec in Hu as (conf & Hconf & Hchs); [|assumption].
  rewrite Hchs. unfold cursor in Hc. rewrite Hconf in Hc.
  destruct (get (kept_channels _ _) d) as [x|] eqn:Hd; [|discriminate].
  apply get_kept_channels in Hd. rewrite Hd in Hc. cbn in *. congruence.
Qed.

(** ** Where a cursor comes from *)

Lemma dispatch_loop_prefix w t url cs s :
  exists pre post o,
    cs = pre ++ post
    /\ dispatch_loop w t url cs s = (fold_left (delivered t url) pre s, o).
Proof.
  revert s. induction cs as [|c cs IH]; intros s.
  - exists [], [], (Return tt). auto.
  - rewrite dispatch_loop_cons.
    destruct (get_channel w c); [|exists [], (c :: cs); eauto].
    destruct (send_ok w c url); [|exists [], (c :: cs); eauto].
    destruct (IH (delivered t url s c)) as (pre & post & o & -> & Hrun).
    exists (c :: pre), post, o. auto.
Qed.

(** [dispatch_tweet] writes the id of the tweet, and nothing else. *)
Lemma cursor_dispatch_tweet w t s u d c :
  cursor s u d = Some c ->
  cursor (state_of (dispatch_tweet w t s)) u d = Some c
  \/ (tweet_user_id t = u
      /\ cursor (state_of (dispatch_tweet w t s)) u d = Some (tweet_id t)).
Proof.
  intros Hc. rewrite dispatch_tweet_unfold.
  destruct (get (follows s) (tweet_user_id t)) as [conf|] eqn:Hconf; [|now left].
  destruct (dispatch_loop_prefix w t (url_of t) (keys (channels conf)) s)
    as (pre & post & o & Hcs & ->).
  rewrite state_of_pair.
  assert (Hincl : incl pre (channel_ids s (tweet_user_id t))).
  { unfold channel_ids. rewrite Hconf, Hcs. intros x Hx. apply in_or_app. now left. }
  destruct (Z.eq_dec u (tweet_user_id t)) as [->|Hne].
  - destruct (in_dec Z.eq_dec d pre) as [Hin|Hnotin].
    + right. split; [reflexivity|]. now apply cursor_delivered_all_hit.
    + left. rewrite cursor_delivered_all_miss; auto.
  - left. rewrite cursor_delivered_all_miss; auto.
Qed.

Lemma cursor_dispatch_all w ts s u d c :
  cursor s u d = Some c ->
  exists c',
    cursor (state_of (dispatch_all w ts s)) u d = Some c'
    /\ (c' = c \/ exists t, In t ts /\ tweet_user_id t = u /\ c' = tweet_id t).
Proof.
  revert s c. induction ts as [|t ts IH]; intros s c Hc.
  - exists c. auto.
  - rewrite dispatch_all_cons.
    assert (H1 : exists c1,
               cursor (state_of (dispatch_tweet w t s)) u d = Some c1
               /\ (c1 = c \/ (tweet_user_id t = u /\ c1 = tweet_id t))).
    { destruct (cursor_dispatch_tweet w t s u d c Hc) as [H|[Hu H]]; eauto. }
    destruct H1 as (c1 & Hc1 & Hfrom).
    destruct (dispatch_tweet w t s) as [s1 [[]|e]]; rewrite state_of_pair in Hc1.
    + destruct (IH s1 c1 Hc1) as (c' & Hc' & Hfrom').
      exists c'. split; [assumption|].
      destruct Hfrom' as [->|(t' & Ht' & Hu & ->)].
      * destruct Hfrom as [->|[Hu ->]]; [now left|right].
        exists t. cbn. auto.
      * right. exists t'. cbn. auto.
    + exists c1. split; [assumption|].
      destruct Hfrom as [->|[Hu ->]]; [now left|right]. exists t. cbn. auto.
Qed.

Lemma get_timeline_state w uid name limit s :
  state_of (get_timeline w uid name limit s) = s.
Proof.
  unfold get_timeline, user_timeline_get. run_cog.
  destruct uid as [uid|].
  - destruct (uid =? 0).
    + destruct (users_show w name) as [u|]; [destruct (user_protected u)|];
        reflexivity.
    + destruct (get (follows s) uid); [|reflexivity].
      destruct (py_min _); reflexivity.
  - destruct (users_show w name) as [u|]; [destruct (user_protected u)|];
      reflexivity.
Qed.

Lemma update_feeds_loop_cons w uid rest s :
  update_feeds_loop w (uid :: rest) s
  = match get_timeline w (Some uid) "" 3 s with
    | (s1, Return timeline) =>
        match dispatch_all w (rev timeline) s1 with
        | (s2, Return _) => update_feeds_loop w rest s2
        | (s2, Raise e) => (s2, Raise e)
        end
    | (s1, Raise e) => (s1, Raise e)
    end.
Proof.
  cbn [update_feeds_loop]. unfold update_feed, bind.
  destruct (get_timeline w (Some uid) "" 3 s) as [s1 [timeline|e]]; reflexivity.
Qed.

Lemma cursor_update_feeds_loop w uids s u d c :
  cursor s u d = Some c ->
  exists c',
    cursor (state_of (update_feeds_loop w uids s)) u d = Some c'
    /\ (c' = c \/ exists t, In t (replayed_loop w uids s)
                            /\ tweet_user_id t = u /\ c' = tweet_id t).
Proof.
  revert s c. induction uids as [|uid uids IH]; intros s c Hc.
  - exists c. auto.
  - rewrite update_feeds_loop_cons. cbn [replayed_loop].
    pose proof (get_timeline_state w (Some uid) "" 3 s) as Hs.
    destruct (get_timeline w (Some uid) "" 3 s) as [s1 [timeline|e]];
      rewrite state_of_pair in Hs; subst s1; [|exists c; auto].
    destruct (cursor_dispatch_all w (rev timeline) s u d c Hc) as (c1 & Hc1 & Hfrom).
    destruct (dispatch_all w (rev timeline) s) as [s2 [[]|e]];
      rewrite state_of_pair in Hc1.
    + destruct (IH s2 c1 Hc1) as (c' & Hc' & Hfrom').
      exists c'. split; [assumption|].
      destruct Hfrom' as [->|(t & Ht & Hu & ->)].
      * destruct Hfrom as [->|(t & Ht & Hu & ->)]; [now left|right].
        exists t. split; [apply in_or_app; now left|auto].
      * right. exists t. split; [apply in_or_app; now right|auto].
    + exists c1. split; [assumption|].
      destruct Hfrom as [->|(t & Ht & Hu & ->)]; [now left|right].
      exists t. split; [apply in_or_app; now left|auto].
Qed.

(** What a turn of the stream loop leaves of the cog is what the handling
    of the data left, but for the task, which ends when the handling
    raises. *)
Lemma stream_tweets_data_frame w i data s :
  follows (state_of (stream_tweets_data w i data s))
  = follows (state_of (handle_data w data s))
  /\ saved (state_of (stream_tweets_data w i data s))
     = saved (state_of (handle_data w data s))
  /\ stream_task (state_of (stream_tweets_data w i data s))
     = stream_task (state_of (handle_data w data s))
  /\ sent (state_of (stream_tweets_data w i data s))
     = sent (state_of (handle_data w data s))
  /\ reactions (state_of (stream_tweets_data w i data s))
     = reactions (state_of (handle_data w data s))
  /\ outcome_of (stream_tweets_data w i data s)
     = outcome_of (handle_data w data s).
Proof.
  unfold stream_tweets_data.
  destruct (handle_data w data s) as [s' [[]|e]]; repeat split; reflexivity.
Qed.

Lemma cursor_stream_tweets_data w i data s u d :
  cursor (state_of (stream_tweets_data w i data s)) u d
  = cursor (state_of (handle_data w data s)) u d.
Proof.
  unfold cursor.
  now destruct (stream_tweets_data_frame w i data s) as (-> & _).
Qed.

(** C2, as the code has it.  A cursor write stores the id of the tweet
    being dispatched without comparing it with the cursor.  So, over a
    follow, an unfollow, a removal of channels, a dispatch or a
    reconciliation, the cursor of a channel is not moved back as long as the
    operation dispatches no tweet of its source older than the cursor. *)
Theorem cursor_not_moved_back
    (w : World) (o : op) (s : Twitter) (u d c c' : Z) :
  wf_registry (follows s) ->
  handles_current w (follows s) ->
  cursor s u d = Some c ->
  (forall t, In t (dispatched_by w o s) -> tweet_user_id t = u -> c <= tweet_id t) ->
  cursor (state_of (run_op w o s)) u d = Some c' ->
  c <= c'.
Proof.
  intros Hwf Hnames Hc Hitems.
  destruct o as [channel handle|channel handle|chs|channel_id|i data|i|];
    cbn [run_op dispatched_by] in *.
  - rewrite (cursor_follow w channel handle s u d c) by (assumption || apply Hwf).
    intros [= <-]. lia.
  - intros H. apply (cursor_unfollow w channel handle s u d c c') in H; [lia|assumption..].
  - rewrite state_of_then_ret.
    intros H. apply (cursor_remove_channels chs s u d c c') in H; [lia|apply Hwf|assumption].
  - rewrite state_of_then_ret. unfold on_guild_channel_delete.
    intros H.
    apply (cursor_remove_channels [PyChannel channel_id] s u d c c') in H;
      [lia|apply Hwf|assumption].
  - rewrite cursor_stream_tweets_data.
    destruct data as [t| |]; cbn [handle_data] in *.
    + destruct (cursor_dispatch_tweet w t s u d c Hc) as [H|[Hu H]];
        rewrite H; intros [= <-]; [lia|].
      apply Hitems; [now left|assumption].
    + unfold update_feeds, bind, get_state.
      destruct (cursor_update_feeds_loop w (keys (follows s)) s u d c Hc)
        as (c1 & -> & Hfrom).
      intros [= <-]. destruct Hfrom as [->|(t & Ht & Hu & ->)]; [lia|auto].
    + cbn. rewrite Hc. intros [= <-]. lia.
  - unfold cursor in *. cbn. rewrite Hc. intros [= <-]. lia.
  - unfold cursor in *. unfold cog_unload.
    destruct (stream_stop_frame s) as (-> & _). rewrite Hc. intros [= <-]. lia.
Qed.

(** Reconciling the scenario replays tweet 999 first; its dispatch writes 999
    over the cursor 1001 of channel 100. *)
Lemma dispatch_tweet_moves_cursor_back :
  hd_error (dispatched_by (scenario_world 0) (OpData 0%nat OnConnect) scenario_cog)
  = Some (alice_tweet 999)
  /\ cursor scenario_cog 42 100 = Some 1001
  /\ cursor (state_of (run_op (scenario_world 0) (OpData 0%nat (OnTweet (alice_tweet 999)))
                         scenario_cog)) 42 100
     = Some 999
  /\ ~ 1001 <= 999.
Proof. repeat (split; [vm_compute; reflexivity|]). lia. Qed.

Lemma scenario_handles_current : handles_current (scenario_world 0) scenario_follows.
Proof.
  intros name usr conf. cbn.
  destruct (String.eqb_spec name "alice") as [->|_].
  - intros [= <-]. cbn. now intros [= <-].
  - destruct (String.eqb_spec name "bob") as [->|_]; [|discriminate].
    intros [= <-]. cbn. discriminate.
Defined.

Lemma scenario_wf_registry : wf_registry scenario_follows.
Proof.
  split.
  - unfold wf. cbn. constructor; [cbn; tauto|constructor].
  - constructor; [|constructor]. unfold wf. cbn.
    constructor; [cbn; intuition discriminate|].
    constructor; [cbn; tauto|constructor].
Defined.

Lemma cursor_not_moved_back_witness :
  cursor scenario_cog 42 200 = Some 998
  /\ cursor (state_of (run_op (scenario_world 0) (OpData 0%nat OnConnect) scenario_cog)) 42 200
     = Some 1002
  /\ 998 <= 1002.
Proof.
  split; [reflexivity|]. split; [reflexivity|].
  apply (cursor_not_moved_back (scenario_world 0) (OpData 0%nat OnConnect) scenario_cog
           42 200 998 1002).
  - exact scenario_wf_registry.
  - exact scenario_handles_current.
  - reflexivity.
  - intros t Ht _. vm_compute in Ht.
    destruct Ht as [<-|[<-|[<-|[<-|[]]]]]; cbn; lia.
  - reflexivity.
Defined.

(** ** Sources without channels *)

Lemma has_channels_true item : has_channels item = true <-> channels (snd item) <> [].
Proof.
  unfold has_channels. rewrite negb_true_iff.
  destruct (len (channels (snd item)) =? 0) eqn:H.
  - apply len_zero in H. split; [discriminate|congruence].
  - split; [|reflexivity]. intros _ Hnil. rewrite Hnil in H. discriminate.
Qed.

Lemma no_empty_source_remove_destinations chans f :
  no_empty_source (remove_destinations_spec chans f).
Proof.
  unfold no_empty_source, remove_destinations_spec.
  apply List.Forall_forall. intros item Hin. apply filter_In in Hin as [_ H].
  now apply has_channels_true.
Qed.

(** [remove_channels_from_conf] leaves no source without channels. *)
Lemma no_empty_source_remove_channels chs s :
  wf (follows s) ->
  no_empty_source (follows (state_of (remove_channels_from_conf chs s))).
Proof.
  intros Hwf. rewrite remove_channels_from_conf_spec by assumption.
  rewrite state_of_pair. cbv zeta.
  destruct (0 <? _).
  - match goal with
    | |- context [stream_restart ?x] =>
        destruct (stream_restart_frame x) as (-> & _)
    end.
    apply no_empty_source_remove_destinations.
  - apply no_empty_source_remove_destinations.
Qed.

Lemma remove_set {V} (d : dict V) k v : remove (set d k v) k = remove d k.
Proof.
  induction d as [|[k' v'] d IH]; cbn.
  - now rewrite Z.eqb_refl.
  - destruct (Z.eqb_spec k' k) as [->|Hne]; cbn.
    + now rewrite Z.eqb_refl.
    + destruct (Z.eqb_spec k' k); [contradiction|]. now rewrite IH.
Qed.

Lemma Forall_set {V} (P : Z * V -> Prop) (d : dict V) k v :
  Forall P d -> P (k, v) -> Forall P (set d k v).
Proof.
  intros Hd Hv. induction Hd as [|[k' v'] d Hx Hd IH]; cbn.
  - now constructor.
  - destruct (Z.eqb_spec k' k) as [->|]; constructor; auto.
Qed.

Lemma Forall_remove {V} (P : Z * V -> Prop) (d : dict V) k :
  Forall P d -> Forall P (remove d k).
Proof.
  intros Hd. induction Hd as [|[k' v'] d Hx Hd IH]; cbn; [constructor|].
  destruct (Z.eqb_spec k' k); [assumption|now constructor].
Qed.

(** [unfollow] leaves no source without channels. *)
Lemma no_empty_source_unfollow w channel handle s :
  no_empty_source (follows s) ->
  no_empty_source (follows (state_of (unfollow w channel handle s))).
Proof.
  intros Hinv. rewrite follows_unfollow.
  destruct (config_get _ _) as [[uid conf]|]; [|assumption].
  destruct (contains _ _); [|assumption]. cbn zeta. unfold set_channels.
  destruct (len (remove (channels conf) channel) =? 0) eqn:Hlen.
  - rewrite remove_set. now apply Forall_remove.
  - apply Forall_set; [assumption|]. cbn. intros Hnil.
    rewrite Hnil in Hlen. discriminate.
Qed.

Lemma set_set {V} (d : dict V) k v v' : set (set d k v) k v' = set d k v'.
Proof.
  induction d as [|[k0 v0] d IH]; cbn.
  - now rewrite Z.eqb_refl.
  - destruct (Z.eqb_spec k0 k) as [->|Hne]; cbn.
    + now rewrite Z.eqb_refl.
    + destruct (Z.eqb_spec k0 k); [contradiction|]. now rewrite IH.
Qed.

Lemma set_not_nil {V} (d : dict V) k v : set d k v <> [].
Proof. destruct d as [|[k0 v0] d]; cbn; [|destruct (k0 =? k)]; discriminate. Qed.

(** [follow] leaves no source without channels, unless it stops on the
    [KeyError] of an account without status. *)
Lemma no_empty_source_follow w channel handle s :
  no_empty_source (follows s) ->
  outcome_of (follow w channel handle s) <> Raise KeyError ->
  no_empty_source (follows (state_of (follow w channel handle s))).
Proof.
  intros Hinv. unfold follow. run_cog.
  destruct (config_get (follows s) _) as [[uid conf]|].
  - destruct (contains _ _); [auto|].
    destruct (py_max _); [|auto]. intros _.
    rewrite follows_follow_channel. apply Forall_set; [assumption|].
    cbn. apply set_not_nil.
  - destruct (users_show w _) as [usr|]; [|auto].
    destruct (user_protected usr); [auto|].
    destruct (user_status usr) as [last|]; [|intros H; now contradiction H].
    intros _. rewrite follows_follow_channel. cbn [follows set_follows].
    rewrite set_set. apply Forall_set; [assumption|]. cbn. discriminate.
Qed.

(** ** A channel is deleted *)

Lemma remove_destinations_spec_nothing chans f :
  Forall (fun item => common_channels chans (channels (snd item)) = []
                      /\ has_channels item = true) f ->
  remove_destinations_spec chans f = f
  /\ removed_spec chans f = 0
  /\ unfollowed_spec chans f = 0.
Proof.
  unfold remove_destinations_spec.
  induction 1 as [|[uid conf] f [Hcommon Hhas] Hf (IH1 & IH2 & IH3)]; [now compute|].
  cbn [map List.filter removed_spec unfollowed_spec].
  assert (Hprune : prune_source chans (uid, conf) = (uid, conf)).
  { unfold prune_source. cbn [fst snd] in *. rewrite kept_all by assumption.
    now destruct conf. }
  rewrite Hprune, Hhas, IH1, IH2, IH3, Hcommon. auto.
Qed.

Lemma common_channels_channel_object channel_id (d : dict channel_conf) :
  common_channels (list_to_set [PyChannel channel_id]) d = [].
Proof.
  unfold common_channels. induction (keys d) as [|k ks IH]; [reflexivity|].
  cbn [List.filter]. rewrite bool_decide_eq_false_2; [exact IH|].
  rewrite elem_of_list_to_set, list_elem_of_singleton. discriminate.
Qed.

(** C6, at every deletion.  The listener gives the channel object, not its
    id, to [remove_channels_from_conf]; no key of the registry is equal to
    it, so nothing is removed and the counts are [(0, 0)]. *)
Theorem on_guild_channel_delete_removes_nothing (channel_id : Z) (s : Twitter) :
  wf (follows s) ->
  no_empty_source (follows s) ->
  on_guild_channel_delete channel_id s = (set_saved (follows s) s, Return (0, 0)).
Proof.
  intros Hwf Hinv. unfold on_guild_channel_delete.
  rewrite remove_channels_from_conf_spec by assumption.
  destruct (remove_destinations_spec_nothing
              (list_to_set [PyChannel channel_id]) (follows s)) as (-> & -> & ->).
  - apply List.Forall_forall. intros item Hin. split.
    + apply common_channels_channel_object.
    + apply has_channels_true. unfold no_empty_source in Hinv.
      rewrite List.Forall_forall in Hinv. now apply Hinv.
  - cbn. now destruct s.
Qed.

Lemma on_guild_channel_delete_removes_nothing_witness :
  on_guild_channel_delete 100 scenario_cog
  = (set_saved (follows scenario_cog) scenario_cog, Return (0, 0))
  /\ cursor (state_of (on_guild_channel_delete 100 scenario_cog)) 42 100 = Some 1001
  /\ outcome_of (remove_channels_from_conf [PyInt 100] scenario_cog) = Return (1, 0).
Proof.
  split; [|split; reflexivity].
  apply on_guild_channel_delete_removes_nothing.
  - apply scenario_wf_registry.
  - repeat constructor. cbn. discriminate.
Defined.

(** ** Following an account that never tweeted *)

(** C10, the lookup error.  Following a new account that is found, is not
    protected and has no status raises [KeyError], after the entry of the
    account, with no channel, was put in the registry: the entry stays
    there, nothing is saved and the stream is not restarted. *)
Theorem follow_without_status_keeps_entry
    (w : World) (s : Twitter) (channel : Z) (handle : string) (usr : user) :
  config_get (follows s) (lstrip_at (str_lower w handle)) = None ->
  users_show w (lstrip_at (str_lower w handle)) = Some usr ->
  user_protected usr = false ->
  user_status usr = None ->
  follow w channel handle s
  = (set_follows (set (follows s) (user_id usr)
                    (FollowConf (lstrip_at (str_lower w handle)) [])) s,
     Raise KeyError)
  /\ get (follows (state_of (follow w channel handle s))) (user_id usr)
     = Some (FollowConf (lstrip_at (str_lower w handle)) []).
Proof.
  intros Hget Husr Hprot Hstatus.
  assert (Hrun : follow w channel handle s
                 = (set_follows (set (follows s) (user_id usr)
                                   (FollowConf (lstrip_at (str_lower w handle)) [])) s,
                    Raise KeyError)).
  { unfold follow. run_cog. rewrite Hget, Husr, Hprot. run_cog.
    now rewrite Hstatus. }
  split; [exact Hrun|]. rewrite Hrun, state_of_pair. cbn [follows set_follows].
  apply get_set_eq.
Qed.

Lemma follow_without_status_keeps_entry_witness :
  follow (scenario_world 0) 100 "@Bob" (init [])
  = (set_follows [(7, FollowConf "bob" [])] (init []), Raise KeyError)
  /\ get (follows (state_of (follow (scenario_world 0) 100 "@Bob" (init [])))) 7
     = Some (FollowConf "bob" []).
Proof.
  apply (follow_without_status_keeps_entry (scenario_world 0) (init []) 100 "@Bob"
           (User 7 false None)); reflexivity.
Defined.

(** C4, at the input that breaks it.  The registry of the scenario has no
    source without channels; after [follow] of the account that never
    tweeted, which raises [KeyError], it has one. *)
Theorem follow_leaves_source_without_channels :
  no_empty_source (follows scenario_cog)
  /\ outcome_of (follow (scenario_world 0) 300 "@Bob" scenario_cog) = Raise KeyError
  /\ has_empty_source
       (follows (state_of (follow (scenario_world 0) 300 "@Bob" scenario_cog)))
     = true
  /\ ~ no_empty_source
         (follows (state_of (follow (scenario_world 0) 300 "@Bob" scenario_cog))).
Proof.
  split; [repeat constructor; cbn; discriminate|].
  split; [reflexivity|]. split; [reflexivity|].
  intros H. vm_compute in H.
  apply Forall_inv_tail in H. apply Forall_inv in H. now apply H.
Qed.

(** ** Minimum and maximum of the cursors *)

Lemma fold_max_spec (l : list Z) (x : Z) :
  In (fold_left Z.max l x) (x :: l)
  /\ forall y, In y (x :: l) -> y <= fold_left Z.max l x.
Proof.
  revert x. induction l as [|a l IH]; intros x; cbn [fold_left].
  - split; [now left|]. intros y [->|[]]. lia.
  - destruct (IH (Z.max x a)) as [Hin Hub]. split.
    + destruct Hin as [Hin|Hin]; [|right; now right].
      rewrite <- Hin. destruct (Z.max_spec x a) as [[_ ->]|[_ ->]]; cbn; auto.
    + intros y Hy. assert (Hxa : Z.max x a <= fold_left Z.max l (Z.max x a))
        by (apply Hub; now left).
      destruct Hy as [->|[->|Hy]]; [lia|lia|]. apply Hub. now right.
Qed.

Lemma fold_min_spec (l : list Z) (x : Z) :
  In (fold_left Z.min l x) (x :: l)
  /\ forall y, In y (x :: l) -> fold_left Z.min l x <= y.
Proof.
  revert x. induction l as [|a l IH]; intros x; cbn [fold_left].
  - split; [now left|]. intros y [->|[]]. lia.
  - destruct (IH (Z.min x a)) as [Hin Hlb]. split.
    + destruct Hin as [Hin|Hin]; [|right; now right].
      rewrite <- Hin. destruct (Z.min_spec x a) as [[_ ->]|[_ ->]]; cbn; auto.
    + intros y Hy. assert (Hxa : fold_left Z.min l (Z.min x a) <= Z.min x a)
        by (apply Hlb; now left).
      destruct Hy as [->|[->|Hy]]; [lia|lia|]. apply Hlb. now right.
Qed.

Lemma py_max_spec (l : list Z) (m : Z) :
  py_max l = Some m <-> In m l /\ forall y, In y l -> y <= m.
Proof.
  destruct l as [|x l]; cbn [py_max].
  - split; [discriminate|]. intros [[] _].
  - destruct (fold_max_spec l x) as [Hin Hub]. split.
    + intros [= <-]. auto.
    + intros [Hm Hmub]. f_equal. apply Z.le_antisymm; auto.
Qed.

Lemma py_min_spec (l : list Z) (m : Z) :
  py_min l = Some m <-> In m l /\ forall y, In y l -> m <= y.
Proof.
  destruct l as [|x l]; cbn [py_min].
  - split; [discriminate|]. intros [[] _].
  - destruct (fold_min_spec l x) as [Hin Hlb]. split.
    + intros [= <-]. auto.
    + intros [Hm Hmlb]. f_equal. apply Z.le_antisymm; auto.
Qed.

(** ** Following *)

Lemma follow_channel_sends w channel uid conf url last s :
  send_ok w channel url = true ->
  outcome_of (follow_channel w channel uid conf url last s)
  = (if react_ok w channel WHITE_HEAVY_CHECK_MARK
     then Return tt else Raise HTTPException)
  /\ sent (state_of (follow_channel w channel uid conf url last s))
     = sent s ++ [(channel, url)].
Proof.
  intros Hsend. unfold follow_channel. run_cog. rewrite stream_restart_eta.
  cbn beta iota. rewrite Hsend. cbn.
  match goal with
  | |- context [stream_restart ?x] =>
      destruct (stream_restart_frame x) as (_ & _ & Hsent & _)
  end.
  destruct (react_ok w channel WHITE_HEAVY_CHECK_MARK); cbn; now rewrite Hsent.
Qed.

Lemma config_get_item f name uid conf :
  config_get f name = Some (uid, conf) -> In (uid, conf) f /\ screen_name conf = name.
Proof.
  induction f as [|[k0 c0] f IH]; cbn; [discriminate|].
  destruct (String.eqb_spec (screen_name c0) name) as [Heq|].
  - intros [= <- <-]. auto.
  - intros H. destruct (IH H). auto.
Qed.

Lemma In_item_get {V} (d : dict V) k v : In (k, v) d -> get d k <> None.
Proof.
  induction d as [|[k' v'] d IH]; cbn; [tauto|].
  intros [[= -> ->]|H]; [now rewrite Z.eqb_refl|].
  destruct (k' =? k); [discriminate|auto].
Qed.

(** On a registry whose handles are current, looking a source up by its
    handle, as [follow] does, finds the entry of the account that Twitter
    knows by this handle. *)
Lemma config_get_by_handle w f name usr :
  wf f -> handles_current w f -> handles_resolve w f ->
  users_show w name = Some usr ->
  config_get f name
  = option_map (fun conf => (user_id usr, conf)) (get f (user_id usr)).
Proof.
  intros Hwf Hcur Hres Husr.
  assert (Hfound : forall uid conf,
             config_get f name = Some (uid, conf) ->
             uid = user_id usr /\ get f (user_id usr) = Some conf).
  { intros uid conf Hget. destruct (config_get_item _ _ _ _ Hget) as [Hin Hname].
    destruct (Hres uid conf Hin) as (usr' & Husr' & Hid).
    rewrite Hname, Husr in Husr'. injection Husr' as <-.
    split; [now symmetry|]. rewrite Hid. now apply (config_get_get f name). }
  destruct (get f (user_id usr)) as [conf|] eqn:Hconf; cbn [option_map].
  - pose proof (Hcur _ _ _ Husr Hconf) as Hname.
    pose proof (get_config_get _ _ _ Hconf) as Hsome. rewrite Hname in Hsome.
    destruct (config_get f name) as [[uid conf']|] eqn:Hget; [|contradiction].
    destruct (Hfound uid conf' eq_refl) as [-> [= ->]]. reflexivity.
  - destruct (config_get f name) as [[uid conf']|] eqn:Hget; [|reflexivity].
    now destruct (Hfound uid conf' eq_refl) as [_ ?].
Qed.



(** The account 42 is followed as [alice] from channels 100 and 200, and
    has changed its handle to [alicia].  The follow of [alicia] from channel
    300 finds no entry under that handle and stores a new entry for account
    42 over the old one: channels 100 and 200 are dropped, and channel 300
    starts on the last tweet 1005, not on the largest cursor 1001. *)
Lemma follow_renamed_account_replaces_entry :
  follows scenario_cog
  = [(42, FollowConf "alice" [(100, ChannelConf 1001); (200, ChannelConf 998)])]
  /\ follows (state_of (follow renamed_world 300 "alicia" scenario_cog))
     = [(42, FollowConf "alicia" [(300, ChannelConf 1005)])]
  /\ cursor (state_of (follow renamed_world 300 "alicia" scenario_cog)) 42 300
     = Some 1005
  /\ cursor (state_of (follow renamed_world 300 "alicia" scenario_cog)) 42 100
     = None.
Proof. vm_compute. repeat split. Qed.

Lemma scenario_handles_resolve : handles_resolve (scenario_world 0) scenario_follows.
Proof.
  intros uid conf [[= <- <-]|[]]. exists (User 42 false (Some 1000)). split; reflexivity.
Defined.


(** ** The bound of a backfill *)

Lemma cursors_nil conf : cursors conf = [] <-> channels conf = [].
Proof.
  unfold cursors, values. destruct (channels conf); cbn; split; congruence.
Qed.

(** C9, as the code has it.  For a followed account with a channel,
    [get_timeline] asks Twitter for the tweets since the smallest cursor of
    its channels (for its [limit] newest tweets when that cursor is not
    positive).  For a followed account without channel there is no "none"
    value: [min] raises [ValueError], and [update_feeds] stops there with
    that error instead of going on to the next account. *)
Theorem get_timeline_since_min_cursor
    (w : World) (s : Twitter) (uid : Z) (conf : follow_conf)
    (name : string) (limit : Z) :
  uid <> 0 ->
  get (follows s) uid = Some conf ->
  (channels conf <> [] ->
   exists since_id,
     In since_id (cursors conf)
     /\ (forall c, In c (cursors conf) -> since_id <= c)
     /\ get_timeline w (Some uid) name limit s
        = user_timeline_get w (inl uid)
            (if 0 <? since_id then SinceId since_id else Count limit) s)
  /\ (channels conf = [] ->
      get_timeline w (Some uid) name limit s = (s, Raise ValueError)
      /\ forall rest, update_feeds_loop w (uid :: rest) s = (s, Raise ValueError)).
Proof.
  intros Huid Hconf. split.
  - intros Hne. destruct (py_min (cursors conf)) as [since_id|] eqn:Hmin.
    + exists since_id. destruct (proj1 (py_min_spec _ _) Hmin) as [Hin Hlb].
      split; [assumption|]. split; [assumption|].
      unfold get_timeline. run_cog.
      destruct (Z.eqb_spec uid 0); [contradiction|]. now rewrite Hconf, Hmin.
    + exfalso. apply Hne. apply cursors_nil.
      destruct (cursors conf); [reflexivity|discriminate].
  - intros Hnil.
    assert (Hrun : forall n l, get_timeline w (Some uid) n l s = (s, Raise ValueError)).
    { intros n l. unfold get_timeline. run_cog.
      destruct (Z.eqb_spec uid 0); [contradiction|]. rewrite Hconf.
      apply cursors_nil in Hnil. now rewrite Hnil. }
    split; [apply Hrun|]. intros rest. rewrite update_feeds_loop_cons.
    now rewrite Hrun.
Qed.

(** After the failed follow of [bob], whose entry has no channel,
    [get_timeline] raises for it, and the reconciliation raises too, before
    it reaches [alice]: channel 100 gets nothing of what it missed. *)
Lemma update_feeds_raises_on_source_without_channels :
  follows cog_after_failed_follow
  = [(7, FollowConf "bob" []); (42, FollowConf "alice" [(100, ChannelConf 1000)])]
  /\ outcome_of (get_timeline (scenario_world 0) (Some 7) "" 3 cog_after_failed_follow)
     = Raise ValueError
  /\ outcome_of (update_feeds (scenario_world 0) cog_after_failed_follow)
     = Raise ValueError
  /\ sent (state_of (update_feeds (scenario_world 0) cog_after_failed_follow))
     = sent cog_after_failed_follow.
Proof. repeat split; vm_compute; reflexivity. Qed.

Lemma get_timeline_since_min_cursor_witness :
  (exists since_id,
      In since_id [1001; 998]
      /\ (forall c, In c [1001; 998] -> since_id <= c)
      /\ get_timeline (scenario_world 0) (Some 42) "" 3 scenario_cog
         = user_timeline_get (scenario_world 0) (inl 42)
             (if 0 <? since_id then SinceId since_id else Count 3) scenario_cog)
  /\ get_timeline (scenario_world 0) (Some 7) "" 3 cog_after_failed_follow
     = (cog_after_failed_follow, Raise ValueError).
Proof.
  split.
  - apply (get_timeline_since_min_cursor (scenario_world 0) scenario_cog 42
             (FollowConf "alice" [(100, ChannelConf 1001); (200, ChannelConf 998)])
             "" 3).
    + discriminate.
    + reflexivity.
    + discriminate.
  - apply (get_timeline_since_min_cursor (scenario_world 0) cog_after_failed_follow 7
             (FollowConf "bob" []) "" 3).
    + discriminate.
    + reflexivity.
    + reflexivity.
Defined.

(** ** The stream task *)

Lemma supervised_frame s s' :
  stream_task s' = stream_task s -> tasks s' = tasks s ->
  supervised s -> supervised s'.
Proof.
  unfold supervised, holds_handle, handle_runs. intros -> ->. auto.
Qed.

Lemma count_running_app ts ts' :
  count_running (ts ++ ts') = (count_running ts + count_running ts')%nat.
Proof. unfold count_running. now rewrite List.filter_app, length_app. Qed.

Lemma lookup_snoc (ts : list task) (t : task) : (ts ++ [t]) !! length ts = Some t.
Proof. induction ts as [|x ts IH]; [reflexivity|exact IH]. Qed.

Lemma count_running_cancel (ts : list task) (i : nat) (t : task) :
  ts !! i = Some t -> cancel_requested t = false ->
  S (count_running (alter cancel i ts)) = count_running ts.
Proof.
  unfold count_running. revert i.
  induction ts as [|x ts IH]; intros i Hi Ht; [discriminate|].
  destruct i as [|i]; cbn in *.
  - injection Hi as ->. now rewrite Ht.
  - destruct (cancel_requested x); cbn; [|f_equal]; now apply IH.
Qed.

Lemma alter_keeps_flags (g : task -> task) (ts : list task) (i : nat) :
  (forall t, cancel_requested (g t) = cancel_requested t) ->
  map cancel_requested (alter g i ts) = map cancel_requested ts.
Proof.
  intros Hg. revert i. induction ts as [|x ts IH]; intros i; [reflexivity|].
  destruct i as [|i]; cbn; [now rewrite Hg|now rewrite IH].
Qed.

Lemma count_running_flags (ts ts' : list task) :
  map cancel_requested ts' = map cancel_requested ts ->
  count_running ts' = count_running ts.
Proof.
  unfold count_running. revert ts'.
  induction ts as [|x ts IH]; intros [|x' ts']; cbn; try discriminate; [reflexivity|].
  intros [= -> H]. destruct (cancel_requested x); cbn; [|f_equal]; now apply IH.
Qed.

Lemma lookup_flags (ts ts' : list task) (i : nat) :
  map cancel_requested ts' = map cancel_requested ts ->
  option_map cancel_requested (ts' !! i) = option_map cancel_requested (ts !! i).
Proof.
  revert ts' i. induction ts as [|x ts IH]; intros [|x' ts'] i; cbn; try discriminate;
    [reflexivity|].
  intros [= Hx H]. destruct i as [|i]; cbn; [now rewrite Hx|now apply IH].
Qed.

Lemma alter_cancel_subscriptions (ts : list task) (i : nat) :
  map subscription (alter cancel i ts) = map subscription ts.
Proof.
  revert i. induction ts as [|x ts IH]; intros i; [reflexivity|].
  destruct i as [|i]; cbn; [reflexivity|now rewrite IH].
Qed.

Lemma supervised_init loaded : supervised (init loaded).
Proof.
  unfold init, stream_start, modify, state_of. cbn.
  destruct (0 <? len loaded); split; reflexivity.
Qed.

Lemma keeps_stream_stop : keeps_supervised stream_stop.
Proof.
  intros s [Hcount Hrun]. unfold stream_stop, modify, state_of. cbn [fst].
  unfold supervised, holds_handle, handle_runs in *.
  destruct (stream_task s) as [i|] eqn:Hi; [|rewrite Hi; auto].
  cbn [set_stream tasks stream_task]. split; [|reflexivity].
  destruct (tasks s !! i) as [t|] eqn:Ht; [|discriminate].
  apply negb_true_iff in Hrun.
  pose proof (count_running_cancel _ _ _ Ht Hrun) as H. lia.
Qed.

Lemma keeps_stream_start : keeps_supervised stream_start.
Proof.
  intros s [Hcount Hrun]. unfold stream_start, modify, state_of. cbn [fst].
  unfold supervised, holds_handle, handle_runs in *.
  destruct (stream_task s) as [i|] eqn:Hi; [rewrite Hi; auto|].
  destruct (0 <? len (follows s)); [|rewrite Hi; auto].
  cbn [set_stream tasks stream_task]. rewrite count_running_app, lookup_snoc, Hcount.
  split; reflexivity.
Qed.

Lemma keeps_bind {A B} (m : M A) (f : A -> M B) :
  keeps_supervised m -> (forall a, keeps_supervised (f a)) ->
  keeps_supervised (bind m f).
Proof.
  intros Hm Hf s Hs. unfold bind. specialize (Hm s Hs).
  destruct (m s) as [s' [a|e]]; rewrite state_of_pair in Hm.
  - now apply Hf.
  - now rewrite state_of_pair.
Qed.

Lemma keeps_ret {A} (a : A) : keeps_supervised (ret a).
Proof. intros s Hs. exact Hs. Qed.

Lemma keeps_raise {A} (e : exn) : keeps_supervised (@raise A e).
Proof. intros s Hs. exact Hs. Qed.

Lemma keeps_get_state : keeps_supervised get_state.
Proof. intros s Hs. exact Hs. Qed.

Lemma keeps_modify (f : Twitter -> Twitter) :
  (forall s, stream_task (f s) = stream_task s /\ tasks (f s) = tasks s) ->
  keeps_supervised (modify f).
Proof.
  intros Hf s Hs. unfold modify. rewrite state_of_pair.
  destruct (Hf s) as [H1 H2]. now apply (supervised_frame s).
Qed.

Lemma keeps_stream_restart : keeps_supervised stream_restart.
Proof.
  intros s Hs. rewrite stream_restart_unfold.
  apply keeps_stream_start. now apply keeps_stream_stop.
Qed.

Lemma keeps_save : keeps_supervised save.
Proof. apply keeps_modify. intros s. split; reflexivity. Qed.

Lemma keeps_send w channel text : keeps_supervised (send w channel text).
Proof.
  intros s Hs. unfold send. destruct (send_ok w channel text); exact Hs.
Qed.

Lemma keeps_add_reaction w channel emoji :
  keeps_supervised (add_reaction w channel emoji).
Proof.
  intros s Hs. unfold add_reaction. destruct (react_ok w channel emoji); exact Hs.
Qed.

Lemma keeps_set_follows (g : Twitter -> dict follow_conf) :
  keeps_supervised (modify (fun s => set_follows (g s) s)).
Proof. apply keeps_modify. intros s. split; reflexivity. Qed.

(** changing a task without touching its cancellation flag keeps the
    supervision *)
Lemma supervised_alter (g : task -> task) (i : nat) (s : Twitter) :
  (forall t, cancel_requested (g t) = cancel_requested t) ->
  supervised s ->
  supervised (set_stream (stream_task s) (alter g i (tasks s)) s).
Proof.
  intros Hg [Hcount Hrun].
  pose proof (alter_keeps_flags g (tasks s) i Hg) as Hflags.
  unfold supervised, holds_handle, handle_runs in *.
  cbn [set_stream tasks stream_task]. split.
  - now rewrite (count_running_flags _ _ Hflags).
  - destruct (stream_task s) as [j|]; [|reflexivity].
    pose proof (lookup_flags _ _ j Hflags) as Hj.
    destruct (tasks s !! j) as [t|]; [|discriminate].
    destruct (alter g i (tasks s) !! j) as [t'|]; [|discriminate].
    cbn in Hj. injection Hj as ->. exact Hrun.
Qed.

Lemma keeps_loop_runs_task i : keeps_supervised (loop_runs_task i).
Proof.
  intros s [Hcount Hrun]. unfold loop_runs_task, modify. rewrite state_of_pair.
  set (g := fun t : task =>
              if finished t then t
              else if cancel_requested t then end_task t
              else match subscription t with
                   | Some _ => t
                   | None => MkTask false (Some (keys (follows s))) false
                   end).
  assert (Hg : forall t, cancel_requested (g t) = cancel_requested t).
  { intros t. unfold g. destruct (finished t); [reflexivity|].
    destruct (cancel_requested t) eqn:Ht; [exact Ht|].
    destruct (subscription t); [assumption|reflexivity]. }
  now apply (supervised_alter g).
Qed.

Lemma keeps_stream_tweets_data w i data :
  keeps_supervised (handle_data w data) ->
  keeps_supervised (stream_tweets_data w i data).
Proof.
  intros Hkeeps s Hs. specialize (Hkeeps s Hs). unfold stream_tweets_data.
  destruct (handle_data w data s) as [s' [[]|e]]; rewrite state_of_pair in *;
    [exact Hkeeps|].
  now apply (supervised_alter end_task).
Qed.

#[local] Hint Resolve keeps_ret keeps_raise keeps_get_state keeps_save keeps_send
  keeps_add_reaction keeps_stream_restart keeps_stream_stop keeps_stream_start
  keeps_loop_runs_task : cog.

Ltac keeps_step :=
  match goal with
  | |- keeps_supervised (bind _ _) => apply keeps_bind; [|intros ?]
  | |- keeps_supervised (match ?x with _ => _ end) => destruct x
  | |- keeps_supervised (modify (fun s => set_follows _ s)) =>
      apply (keeps_set_follows (fun s => _))
  | |- keeps_supervised (modify _) =>
      apply keeps_modify; intros ?; split; reflexivity
  | |- keeps_supervised _ => solve [auto with cog]
  end.

Lemma keeps_follow_channel w channel uid conf url last :
  keeps_supervised (follow_channel w channel uid conf url last).
Proof. unfold follow_channel. repeat keeps_step. Qed.

Lemma keeps_follow w channel handle : keeps_supervised (follow w channel handle).
Proof.
  unfold follow. apply keeps_bind; [apply keeps_get_state|]. intros s.
  destruct (config_get (follows s) _) as [[uid conf]|].
  - destruct (contains _ _); [apply keeps_raise|].
    destruct (py_max _); [apply keeps_follow_channel|apply keeps_raise].
  - destruct (users_show w _) as [usr|]; [|apply keeps_raise].
    destruct (user_protected usr); [apply keeps_raise|].
    apply keeps_bind; [apply (keeps_set_follows (fun s => _))|]. intros _.
    destruct (user_status usr); [apply keeps_follow_channel|apply keeps_raise].
Qed.

Lemma keeps_unfollow w channel handle : keeps_supervised (unfollow w channel handle).
Proof.
  unfold unfollow. apply keeps_bind; [apply keeps_get_state|]. intros s.
  destruct (config_get (follows s) _) as [[uid conf]|]; [|apply keeps_raise].
  destruct (contains _ _); [|apply keeps_raise]. cbv zeta.
  apply keeps_bind; [apply (keeps_set_follows (fun s => _))|]. intros _.
  apply keeps_bind.
  - destruct (len _ =? 0); [|apply keeps_ret].
    apply keeps_bind; [apply (keeps_set_follows (fun s => _))|]. intros _.
    apply keeps_stream_restart.
  - intros _. apply keeps_bind; [apply keeps_save|]. intros _.
    apply keeps_add_reaction.
Qed.

Lemma keeps_remove_channels_from_conf chs :
  keeps_supervised (remove_channels_from_conf chs).
Proof.
  unfold remove_channels_from_conf. apply keeps_bind; [apply keeps_get_state|].
  intros s. cbv zeta.
  destruct (fold_left _ _ _) as [[f removed] unfollowed].
  apply keeps_bind; [apply (keeps_set_follows (fun _ => f))|]. intros _.
  apply keeps_bind; [apply keeps_save|]. intros _.
  apply keeps_bind; [|intros _; apply keeps_ret].
  destruct (0 <? unfollowed); [apply keeps_stream_restart|apply keeps_ret].
Qed.

Lemma keeps_dispatch_loop w t url cs : keeps_supervised (dispatch_loop w t url cs).
Proof.
  induction cs as [|c cs IH]; cbn [dispatch_loop]; [apply keeps_ret|].
  apply keeps_bind.
  - unfold get_channel_send. destruct (get_channel w c);
      [apply keeps_send|apply keeps_raise].
  - intros _. apply keeps_bind.
    + apply keeps_modify. intros s. unfold set_last_tweet_id.
      destruct (get (follows s) (tweet_user_id t)); split; reflexivity.
    + intros _. apply keeps_bind; [apply keeps_save|]. intros _. exact IH.
Qed.

Lemma keeps_dispatch_tweet w t : keeps_supervised (dispatch_tweet w t).
Proof.
  unfold dispatch_tweet. apply keeps_bind; [apply keeps_get_state|]. intros s.
  destruct (get (follows s) _); [apply keeps_dispatch_loop|apply keeps_ret].
Qed.

Lemma keeps_dispatch_all w ts : keeps_supervised (dispatch_all w ts).
Proof.
  induction ts as [|t ts IH]; cbn [dispatch_all]; [apply keeps_ret|].
  apply keeps_bind; [apply keeps_dispatch_tweet|]. intros _. exact IH.
Qed.

Lemma keeps_get_timeline w uid name limit :
  keeps_supervised (get_timeline w uid name limit).
Proof.
  intros s Hs. now rewrite get_timeline_state.
Qed.

Lemma keeps_update_feeds w : keeps_supervised (update_feeds w).
Proof.
  unfold update_feeds. apply keeps_bind; [apply keeps_get_state|]. intros s.
  induction (keys (follows s)) as [|uid uids IH]; cbn [update_feeds_loop];
    [apply keeps_ret|].
  apply keeps_bind; [|intros _; exact IH].
  unfold update_feed. apply keeps_bind; [apply keeps_get_timeline|].
  intros timeline. apply keeps_dispatch_all.
Qed.

Lemma keeps_run_op w o : keeps_supervised (run_op w o).
Proof.
  destruct o as [channel handle|channel handle|chs|channel_id|i data|i|]; cbn [run_op].
  - apply keeps_follow.
  - apply keeps_unfollow.
  - apply keeps_bind; [apply keeps_remove_channels_from_conf|]. intros _. apply keeps_ret.
  - apply keeps_bind; [apply keeps_remove_channels_from_conf|]. intros _. apply keeps_ret.
  - apply keeps_stream_tweets_data.
    destruct data; cbn [handle_data];
      [apply keeps_dispatch_tweet|apply keeps_update_feeds|apply keeps_ret].
  - apply keeps_loop_runs_task.
  - apply keeps_stream_stop.
Qed.

Lemma supervised_run_ops w ops s : supervised s -> supervised (run_ops w ops s).
Proof.
  unfold run_ops. revert s. induction ops as [|o ops IH]; intros s Hs; [exact Hs|].
  cbn [fold_left]. apply IH. now apply keeps_run_op.
Qed.

(** C7, as the code has it.  Whatever happens to the cog, at most one
    stream task was not asked to cancel, and it is the one the cog holds.
    A restart is a stop, then a start.  A stop asks the task to cancel and
    forgets it at once: it does not wait, the streams that are open are
    still open when it returns.  After a restart the cog holds a task
    exactly when an account is followed. *)
Theorem stream_task_supervision
    (w : World) (loaded : dict follow_conf) (ops : list op) :
  let s := run_ops w ops (init loaded) in
  count_running (tasks s) = (if holds_handle s then 1 else 0)%nat
  /\ handle_runs s = true
  /\ stream_restart s = stream_start (state_of (stream_stop s))
  /\ stream_task (state_of (stream_stop s)) = None
  /\ map subscription (tasks (state_of (stream_stop s))) = map subscription (tasks s)
  /\ holds_handle (state_of (stream_restart s)) = (0 <? len (follows s)).
Proof.
  intros s.
  destruct (supervised_run_ops w ops (init loaded) (supervised_init loaded))
    as [Hcount Hrun].
  fold s in Hcount, Hrun.
  split; [exact Hcount|]. split; [exact Hrun|]. split; [reflexivity|].
  assert (Hstop : stream_task (state_of (stream_stop s)) = None
                  /\ map subscription (tasks (state_of (stream_stop s)))
                     = map subscription (tasks s)).
  { unfold stream_stop, modify. rewrite state_of_pair.
    destruct (stream_task s) as [i|] eqn:Hi; [|auto].
    cbn [set_stream stream_task tasks]. split; [reflexivity|].
    apply alter_cancel_subscriptions. }
  destruct Hstop as [Hnone Hsubs]. split; [exact Hnone|]. split; [exact Hsubs|].
  rewrite stream_restart_unfold. unfold stream_start at 1, modify.
  rewrite state_of_pair, Hnone.
  destruct (stream_stop_frame s) as (-> & _).
  destruct (0 <? len (follows s)); [reflexivity|].
  unfold holds_handle. now rewrite Hnone.
Qed.

(** The task of the scenario has opened its stream; [stream_stop] returns
    with the handle forgotten and that stream still open, and the restart
    that a follow makes creates the next task while it is open. *)
Lemma stream_stop_does_not_wait :
  let s := run_ops (scenario_world 0) [OpLoopRuns 0] scenario_cog in
  subscribed_tasks s = [0%nat]
  /\ stream_task (state_of (stream_stop s)) = None
  /\ subscribed_tasks (state_of (stream_stop s)) = [0%nat]
  /\ subscribed_tasks (state_of (stream_stop s)) <> []
  /\ subscribed_tasks (run_ops (scenario_world 0) [OpFollow 300 "alice"] s) = [0%nat]
  /\ length (tasks (run_ops (scenario_world 0) [OpFollow 300 "alice"] s)) = 2%nat.
Proof. vm_compute. repeat split. discriminate. Qed.

(** * Further properties of the cog *)

(** ** Commands that are refused *)

Lemma follow_channel_outcome w channel uid conf url last s :
  outcome_of (follow_channel w channel uid conf url last s)
  = if send_ok w channel url && react_ok w channel WHITE_HEAVY_CHECK_MARK
    then Return tt else Raise HTTPException.
Proof.
  unfold follow_channel. run_cog. rewrite stream_restart_eta. cbn beta iota.
  destruct (send_ok w channel url); [|reflexivity].
  destruct (react_ok w channel WHITE_HEAVY_CHECK_MARK); reflexivity.
Qed.

(** X1.  A [follow] that is refused with a [TwitterError] (already
    following, account not found, protected account) has changed nothing:
    the cog is the one it found. *)
Theorem follow_refused_changes_nothing
    (w : World) (channel : Z) (handle : string) (s : Twitter) (msg : string) :
  outcome_of (follow w channel handle s) = Raise (TwitterError msg) ->
  state_of (follow w channel handle s) = s.
Proof.
  unfold follow. run_cog.
  destruct (config_get (follows s) _) as [[uid conf]|].
  - destruct (contains _ _); [reflexivity|].
    destruct (py_max _); [|reflexivity].
    rewrite follow_channel_outcome. destruct (_ && _); discriminate.
  - destruct (users_show w _) as [usr|]; [|reflexivity].
    destruct (user_protected usr); [reflexivity|].
    destruct (user_status usr); [|discriminate].
    rewrite follow_channel_outcome. destruct (_ && _); discriminate.
Qed.

Lemma follow_refused_changes_nothing_witness :
  state_of (follow (scenario_world 0) 100 "@Alice" scenario_cog) = scenario_cog
  /\ state_of (follow (scenario_world 0) 100 "carol" scenario_cog) = scenario_cog.
Proof.
  split.
  - apply (follow_refused_changes_nothing _ _ _ _
             "Already following alice in this channel.").
    reflexivity.
  - apply (follow_refused_changes_nothing _ _ _ _ "User carol not found.").
    reflexivity.
Defined.

(** X2.  [unfollow] ends in one of three ways.  When the handle is the one
    of a followed account and the channel is one of its channels, the
    channel is removed and the registry saved, and then the command returns,
    or raises the exception of the check mark that Discord refuses.
    Otherwise it raises a [TwitterError] and leaves the cog as it was. *)
Theorem unfollow_returns_or_refuses
    (w : World) (channel : Z) (handle : string) (s : Twitter) :
  (exists uid conf,
     config_get (follows s) (lstrip_at (str_lower w handle)) = Some (uid, conf)
     /\ contains (channels conf) channel = true
     /\ outcome_of (unfollow w channel handle s)
        = (if react_ok w channel WHITE_HEAVY_CHECK_MARK
           then Return tt else Raise HTTPException)
     /\ saved (state_of (unfollow w channel handle s))
        = follows (state_of (unfollow w channel handle s)))
  \/ (unfollow w channel handle s
      = (s, Raise (TwitterError ("Not following " +:+ lstrip_at (str_lower w handle)
                                  +:+ " on this channel.")))
      /\ forall uid conf,
           config_get (follows s) (lstrip_at (str_lower w handle)) = Some (uid, conf) ->
           contains (channels conf) channel = false).
Proof.
  unfold unfollow. run_cog.
  destruct (config_get (follows s) _) as [[uid conf]|].
  - destruct (contains (channels conf) channel) eqn:Hin.
    + left. exists uid, conf. split; [reflexivity|]. split; [exact Hin|].
      cbn zeta.
      destruct (len _ =? 0) eqn:Hlen; run_cog; [rewrite stream_restart_eta|];
        cbn beta iota.
      * match goal with
        | |- context [stream_restart ?x] =>
            destruct (stream_restart_frame x) as (Hf & Hs & _)
        end.
        destruct (react_ok w channel WHITE_HEAVY_CHECK_MARK); cbn;
          rewrite ?Hf, ?Hs; auto.
      * destruct (react_ok w channel WHITE_HEAVY_CHECK_MARK); cbn; auto.
    + right. split; [reflexivity|]. intros uid' conf' [= <- <-]. exact Hin.
  - right. split; [reflexivity|]. discriminate.
Qed.

(** ** What a follow and an unfollow change *)

Lemma config_get_name f name uid conf :
  config_get f name = Some (uid, conf) -> screen_name conf = name.
Proof.
  induction f as [|[k0 c0] f IH]; cbn; [discriminate|].
  destruct (String.eqb_spec (screen_name c0) name) as [Heq|]; [|exact IH].
  now intros [= <- <-].
Qed.

Lemma config_get_In f name uid conf :
  config_get f name = Some (uid, conf) -> In uid (keys f).
Proof.
  induction f as [|[k0 c0] f IH]; cbn; [discriminate|].
  destruct (String.eqb (screen_name c0) name); [intros [= <- <-]; now left|].
  intros H. right. now apply IH.
Qed.

(** the entry that [config.get] found is found again after
    [conf.channels] was changed in place *)
Lemma config_get_set_found f name uid conf conf' :
  wf f ->
  config_get f name = Some (uid, conf) ->
  screen_name conf' = name ->
  config_get (set f uid conf') name = Some (uid, conf').
Proof.
  unfold wf. intros Hwf Hget Hname.
  induction f as [|[k0 c0] f IH]; cbn in *; [discriminate|].
  apply NoDup_cons_iff in Hwf as [Hk0 Hwf].
  destruct (String.eqb (screen_name c0) name) eqn:Hc0.
  - injection Hget as -> ->. rewrite Z.eqb_refl. cbn.
    rewrite Hname, String.eqb_refl. reflexivity.
  - destruct (Z.eqb_spec k0 uid) as [->|Hne].
    + exfalso. apply Hk0. eapply config_get_In. eassumption.
    + cbn. rewrite Hc0. now apply IH.
Qed.

(** a handle that was not followed is found once its account is stored *)
Lemma config_get_set_new f name k conf' :
  config_get f name = None ->
  screen_name conf' = name ->
  config_get (set f k conf') name = Some (k, conf').
Proof.
  intros Hget Hname.
  induction f as [|[k0 c0] f IH]; cbn in *.
  - rewrite Hname, String.eqb_refl. reflexivity.
  - destruct (String.eqb (screen_name c0) name) eqn:Hc0; [discriminate|].
    destruct (Z.eqb_spec k0 k) as [->|Hne]; cbn.
    + rewrite Hname, String.eqb_refl. reflexivity.
    + rewrite Hc0. now apply IH.
Qed.

Lemma remove_absent {V} (d : dict V) k : get d k = None -> remove d k = d.
Proof.
  induction d as [|[k0 v0] d IH]; cbn; [reflexivity|].
  destruct (Z.eqb_spec k0 k); [discriminate|]. intros H. now rewrite IH.
Qed.

Lemma set_same {V} (d : dict V) k v : get d k = Some v -> set d k v = d.
Proof.
  induction d as [|[k0 v0] d IH]; cbn; [discriminate|].
  destruct (Z.eqb_spec k0 k) as [->|]; [now intros [= ->]|].
  intros H. now rewrite IH.
Qed.

Lemma length_set_present {V} (d : dict V) k v :
  In k (keys d) -> length (set d k v) = length d.
Proof.
  intros H. rewrite <- (length_map fst (set d k v)), <- (length_map fst d).
  fold (keys (set d k v)). fold (keys d). now rewrite keys_set_present.
Qed.

(** X3.  [unfollow] removes the channel from the account, and nothing
    else: the cursor of the channel for this account is gone, and every
    other cursor of the registry is the one it was. *)
Theorem unfollow_removes_that_channel_only
    (w : World) (channel : Z) (handle : string) (s : Twitter)
    (uid : Z) (conf : follow_conf) :
  wf_registry (follows s) ->
  config_get (follows s) (lstrip_at (str_lower w handle)) = Some (uid, conf) ->
  contains (channels conf) channel = true ->
  cursor (state_of (unfollow w channel handle s)) uid channel = None
  /\ forall u d, (u <> uid \/ d <> channel) ->
       cursor (state_of (unfollow w channel handle s)) u d = cursor s u d.
Proof.
  intros Hwf Hget Hin.
  pose proof (config_get_get _ _ _ _ (proj1 Hwf) Hget) as Hconf.
  pose proof (wf_entry _ _ _ Hwf Hconf) as Hchs.
  assert (Hkey : In uid (keys (follows s))) by (eapply get_In; eassumption).
  unfold cursor. rewrite follows_unfollow, Hget, Hin. cbn zeta. unfold set_channels.
  destruct (len (remove (channels conf) channel) =? 0) eqn:Hlen.
  - rewrite remove_set. apply len_zero in Hlen. split.
    + rewrite get_remove_eq by apply Hwf. reflexivity.
    + intros u d Hud. destruct (Z.eq_dec u uid) as [->|Hu].
      * rewrite get_remove_eq by apply Hwf. rewrite Hconf.
        destruct Hud as [Hud|Hd]; [contradiction|].
        rewrite <- (get_remove_ne (channels conf) channel d) by congruence.
        now rewrite Hlen.
      * rewrite get_remove_ne by congruence. reflexivity.
  - split.
    + rewrite get_set_eq. cbn [channels]. now rewrite get_remove_eq.
    + intros u d Hud. destruct (Z.eq_dec u uid) as [->|Hu].
      * rewrite get_set_eq, Hconf. cbn [channels].
        destruct Hud as [Hud|Hd]; [contradiction|].
        rewrite get_remove_ne by congruence. reflexivity.
      * rewrite get_set_ne by congruence. reflexivity.
Qed.

Lemma unfollow_removes_that_channel_only_witness :
  cursor (state_of (unfollow (scenario_world 0) 100 "@Alice" scenario_cog)) 42 100 = None
  /\ cursor (state_of (unfollow (scenario_world 0) 100 "@Alice" scenario_cog)) 42 200 = Some 998.
Proof.
  destruct (unfollow_removes_that_channel_only (scenario_world 0) 100 "@Alice"
              scenario_cog 42
              (FollowConf "alice" [(100, ChannelConf 1001); (200, ChannelConf 998)]))
    as [Hgone Hrest].
  - exact scenario_wf_registry.
  - reflexivity.
  - reflexivity.
  - split; [exact Hgone|]. rewrite Hrest; [reflexivity|]. right. discriminate.
Defined.

Lemma follow_already_following w channel handle s uid conf :
  config_get (follows s) (lstrip_at (str_lower w handle)) = Some (uid, conf) ->
  contains (channels conf) channel = true ->
  follow w channel handle s
  = (s, Raise (TwitterError ("Already following " +:+ lstrip_at (str_lower w handle)
                              +:+ " in this channel."))).
Proof. intros Hget Hin. unfold follow. run_cog. now rewrite Hget, Hin. Qed.

(** the registry after a [follow] that returned, and the entry it holds
    for the handle *)
Lemma follow_returned_entry w channel handle s :
  wf (follows s) ->
  outcome_of (follow w channel handle s) = Return tt ->
  exists uid conf',
    config_get (follows (state_of (follow w channel handle s)))
      (lstrip_at (str_lower w handle)) = Some (uid, conf')
    /\ contains (channels conf') channel = true.
Proof.
  intros Hwf. unfold follow. run_cog.
  set (name := lstrip_at (str_lower w handle)).
  destruct (config_get (follows s) name) as [[uid conf]|] eqn:Hget.
  - destruct (contains _ _); [discriminate|].
    destruct (py_max _) as [last|]; [|discriminate]. intros _.
    rewrite follows_follow_channel.
    exists uid, (FollowConf (screen_name conf)
                   (set (channels conf) channel (ChannelConf last))).
    split.
    + apply (config_get_set_found _ _ _ conf); auto.
      cbn. eapply config_get_name. eassumption.
    + unfold contains. cbn [channels]. now rewrite get_set_eq.
  - destruct (users_show w name) as [usr|]; [|discriminate].
    destruct (user_protected usr); [discriminate|].
    destruct (user_status usr) as [last|]; [|discriminate]. intros _.
    rewrite follows_follow_channel. cbn [follows set_follows]. rewrite set_set.
    eexists _, _. split.
    + apply config_get_set_new; [assumption|reflexivity].
    + unfold contains. cbn [channels]. cbn. now rewrite Z.eqb_refl.
Qed.

(** X4.  After a [follow] that returned, the same [follow] from the same
    channel is refused as "Already following" and changes nothing. *)
Theorem follow_twice_is_refused
    (w : World) (channel : Z) (handle : string) (s : Twitter) :
  wf (follows s) ->
  outcome_of (follow w channel handle s) = Return tt ->
  follow w channel handle (state_of (follow w channel handle s))
  = (state_of (follow w channel handle s),
     Raise (TwitterError ("Already following " +:+ lstrip_at (str_lower w handle)
                           +:+ " in this channel."))).
Proof.
  intros Hwf Hret.
  destruct (follow_returned_entry w channel handle s Hwf Hret)
    as (uid & conf' & Hget & Hin).
  now apply (follow_already_following _ _ _ _ uid conf').
Qed.

Lemma follow_twice_is_refused_witness :
  follow (scenario_world 0) 300 "@Alice"
    (state_of (follow (scenario_world 0) 300 "@Alice" scenario_cog))
  = (state_of (follow (scenario_world 0) 300 "@Alice" scenario_cog),
     Raise (TwitterError "Already following alice in this channel.")).
Proof.
  apply (follow_twice_is_refused (scenario_world 0) 300 "@Alice" scenario_cog).
  - apply scenario_wf_registry.
  - reflexivity.
Defined.

Lemma follow_returned_cases w channel handle s :
  outcome_of (follow w channel handle s) = Return tt ->
  (exists uid conf last,
      config_get (follows s) (lstrip_at (str_lower w handle)) = Some (uid, conf)
      /\ contains (channels conf) channel = false
      /\ py_max (cursors conf) = Some last
      /\ follows (state_of (follow w channel handle s))
         = set (follows s) uid
             (FollowConf (screen_name conf)
                (set (channels conf) channel (ChannelConf last))))
  \/ (exists usr last,
        config_get (follows s) (lstrip_at (str_lower w handle)) = None
        /\ users_show w (lstrip_at (str_lower w handle)) = Some usr
        /\ user_status usr = Some last
        /\ follows (state_of (follow w channel handle s))
           = set (follows s) (user_id usr)
               (FollowConf (lstrip_at (str_lower w handle)) [(channel, ChannelConf last)])).
Proof.
  unfold follow. run_cog.
  set (name := lstrip_at (str_lower w handle)).
  destruct (config_get (follows s) name) as [[uid conf]|] eqn:Hget.
  - destruct (contains _ _) eqn:Hin; [discriminate|].
    destruct (py_max _) as [last|] eqn:Hmax; [|discriminate]. intros _.
    left. exists uid, conf, last. rewrite follows_follow_channel.
    repeat split; assumption || reflexivity.
  - destruct (users_show w name) as [usr|] eqn:Husr; [|discriminate].
    destruct (user_protected usr); [discriminate|].
    destruct (user_status usr) as [last|] eqn:Hst; [|discriminate]. intros _.
    right. exists usr, last. rewrite follows_follow_channel.
    cbn [follows set_follows]. rewrite set_set.
    repeat split; assumption || reflexivity.
Qed.

(** a [follow] that returned had its check mark accepted *)
Lemma follow_returned_react w channel handle s :
  outcome_of (follow w channel handle s) = Return tt ->
  react_ok w channel WHITE_HEAVY_CHECK_MARK = true.
Proof.
  unfold follow. run_cog.
  destruct (config_get (follows s) _) as [[uid conf]|].
  - destruct (contains _ _); [discriminate|].
    destruct (py_max _); [|discriminate].
    rewrite follow_channel_outcome.
    destruct (send_ok _ _ _), (react_ok _ _ _); cbn; congruence.
  - destruct (users_show w _) as [usr|]; [|discriminate].
    destruct (user_protected usr); [discriminate|].
    destruct (user_status usr); [|discriminate].
    rewrite follow_channel_outcome.
    destruct (send_ok _ _ _), (react_ok _ _ _); cbn; congruence.
Qed.

Lemma unfollow_returns w channel handle s uid conf :
  config_get (follows s) (lstrip_at (str_lower w handle)) = Some (uid, conf) ->
  contains (channels conf) channel = true ->
  react_ok w channel WHITE_HEAVY_CHECK_MARK = true ->
  outcome_of (unfollow w channel handle s) = Return tt.
Proof.
  intros Hget Hin Hreact. unfold unfollow. run_cog. rewrite Hget, Hin. cbn zeta.
  destruct (len _ =? 0); run_cog; [rewrite stream_restart_eta|];
    cbn beta iota; rewrite Hreact; reflexivity.
Qed.

(** X5.  [unfollow] undoes [follow]: after a [follow] that returned, the
    [unfollow] of the same handle from the same channel returns and leaves
    the registry that was there before the [follow]. *)
Theorem follow_then_unfollow_restores_registry
    (w : World) (channel : Z) (handle : string) (s : Twitter) :
  wf (follows s) ->
  handles_current w (follows s) ->
  outcome_of (follow w channel handle s) = Return tt ->
  outcome_of (unfollow w channel handle (state_of (follow w channel handle s)))
  = Return tt
  /\ follows (state_of (unfollow w channel handle (state_of (follow w channel handle s))))
     = follows s.
Proof.
  intros Hwf Hnames Hret.
  pose proof (follow_returned_react w channel handle s Hret) as Hreact.
  set (name := lstrip_at (str_lower w handle)).
  destruct (follow_returned_cases w channel handle s Hret)
    as [(uid & conf & last & Hget & Hin & Hmax & Hf)|(usr & last & Hget & Husr & Hst & Hf)];
    fold name in Hget, Hf.
  - set (conf1 := FollowConf (screen_name conf)
                    (set (channels conf) channel (ChannelConf last))) in *.
    assert (Hget1 : config_get (follows (state_of (follow w channel handle s))) name
                    = Some (uid, conf1)).
    { rewrite Hf. apply (config_get_set_found _ _ _ conf); auto.
      cbn. eapply config_get_name. eassumption. }
    assert (Hin1 : contains (channels conf1) channel = true).
    { unfold contains. cbn [conf1 channels]. now rewrite get_set_eq. }
    split; [now apply (unfollow_returns _ _ _ _ uid conf1)|].
    rewrite follows_unfollow. fold name. rewrite Hget1, Hin1. cbn zeta.
    cbn [conf1 channels screen_name]. rewrite remove_set.
    rewrite remove_absent by (now apply contains_false_get).
    assert (Hne : (len (channels conf) =? 0) = false).
    { destruct (len (channels conf) =? 0) eqn:Hlen; [|reflexivity].
      apply len_zero in Hlen. unfold cursors, values in Hmax.
      rewrite Hlen in Hmax. discriminate. }
    rewrite Hne. unfold set_channels. rewrite Hf, set_set.
    apply set_same. rewrite (config_get_get _ _ _ _ Hwf Hget). now destruct conf.
  - set (conf1 := FollowConf name [(channel, ChannelConf last)]) in *.
    assert (Hget1 : config_get (follows (state_of (follow w channel handle s))) name
                    = Some (user_id usr, conf1)).
    { rewrite Hf. now apply config_get_set_new. }
    assert (Hin1 : contains (channels conf1) channel = true).
    { unfold contains. cbn. now rewrite Z.eqb_refl. }
    split; [now apply (unfollow_returns _ _ _ _ (user_id usr) conf1)|].
    rewrite follows_unfollow. fold name. rewrite Hget1, Hin1. cbn zeta.
    cbn [conf1 channels screen_name remove]. rewrite Z.eqb_refl.
    cbn [len length Z.of_nat Z.eqb]. unfold set_channels.
    rewrite Hf, !remove_set. apply remove_absent.
    destruct (get (follows s) (user_id usr)) as [conf|] eqn:Hconf; [|reflexivity].
    exfalso. pose proof (Hnames _ _ _ Husr Hconf) as Hname.
    apply get_config_get in Hconf. rewrite Hname in Hconf. now apply Hconf.
Qed.

Lemma follow_then_unfollow_restores_registry_witness :
  follows (state_of (unfollow (scenario_world 0) 300 "@Alice"
                       (state_of (follow (scenario_world 0) 300 "@Alice" scenario_cog))))
  = follows scenario_cog
  /\ follows (state_of (unfollow (scenario_world 0) 100 "alice"
                          (state_of (follow (scenario_world 0) 100 "alice" (init [])))))
     = follows (init []).
Proof.
  split.
  - apply (follow_then_unfollow_restores_registry (scenario_world 0) 300 "@Alice"
             scenario_cog).
    + apply scenario_wf_registry.
    + exact scenario_handles_current.
    + reflexivity.
  - apply (follow_then_unfollow_restores_registry (scenario_world 0) 100 "alice"
             (init [])).
    + constructor.
    + intros name usr conf _. discriminate.
    + reflexivity.
Defined.

(** ** What a removal of channels changes *)

Lemma get_kept_channels_full chans (chs : dict channel_conf) d :
  get (kept_channels chans chs) d
  = if bool_decide (PyInt d ∈ chans) then None else get chs d.
Proof.
  unfold kept_channels. induction chs as [|[k v] chs IH]; cbn.
  - now destruct (bool_decide _).
  - destruct (bool_decide (PyInt k ∈ chans)) eqn:Hk; cbn.
    + rewrite IH. destruct (Z.eqb_spec k d) as [->|]; [now rewrite Hk|reflexivity].
    + destruct (Z.eqb_spec k d) as [->|]; [now rewrite Hk|exact IH].
Qed.

Lemma get_remove_destinations_spec_full chans f u :
  wf f ->
  get (remove_destinations_spec chans f) u
  = match get f u with
    | Some conf =>
        if has_channels (prune_source chans (u, conf))
        then Some (snd (prune_source chans (u, conf)))
        else None
    | None => None
    end.
Proof.
  unfold wf, remove_destinations_spec.
  induction f as [|[k cf] f IH]; cbn [map List.filter keys get]; [reflexivity|].
  intros Hnd. apply NoDup_cons_iff in Hnd as [Hk Hnd].
  destruct (Z.eqb_spec k u) as [->|Hne].
  - destruct (has_channels (prune_source chans (u, cf))) eqn:Hhas.
    + cbn [get prune_source fst snd]. now rewrite Z.eqb_refl.
    + destruct (get (List.filter has_channels (map (prune_source chans) f)) u)
        eqn:Hget; [|reflexivity].
      exfalso. apply Hk. apply get_In in Hget.
      now apply keys_remove_destinations_spec in Hget.
  - destruct (has_channels (prune_source chans (k, cf))); [|auto].
    cbn [get prune_source fst snd]. destruct (Z.eqb_spec k u); [contradiction|auto].
Qed.

Lemma follows_remove_channels chs s :
  wf (follows s) ->
  follows (state_of (remove_channels_from_conf chs s))
  = remove_destinations_spec (list_to_set chs) (follows s).
Proof.
  intros Hwf. rewrite remove_channels_from_conf_spec by assumption.
  rewrite state_of_pair. cbv zeta. destruct (0 <? _); [|reflexivity].
  match goal with
  | |- context [stream_restart ?x] => now destruct (stream_restart_frame x) as (-> & _)
  end.
Qed.

Lemma elem_of_int_ids (ids : list Z) (d : Z) :
  PyInt d ∈ (list_to_set (map PyInt ids) : gset pyobj) <-> In d ids.
Proof.
  rewrite elem_of_list_to_set, list_elem_of_In, in_map_iff. split.
  - intros (x & [= ->] & Hx). exact Hx.
  - intros Hd. eauto.
Qed.

(** X6.  [remove_channels_from_conf], given channel ids, removes these
    channels from every account and nothing else: afterwards a channel of
    the list has no cursor for any account, and every other channel has,
    for every account, the cursor it had. *)
Theorem remove_channels_removes_those_channels_only
    (ids : list Z) (s : Twitter) (u d : Z) :
  wf (follows s) ->
  (In d ids ->
   cursor (state_of (remove_channels_from_conf (map PyInt ids) s)) u d = None)
  /\ (~ In d ids ->
      cursor (state_of (remove_channels_from_conf (map PyInt ids) s)) u d
      = cursor s u d).
Proof.
  intros Hwf. unfold cursor. rewrite follows_remove_channels by assumption.
  rewrite get_remove_destinations_spec_full by assumption.
  destruct (get (follows s) u) as [conf|]; [|auto].
  unfold has_channels, prune_source. cbn [fst snd channels].
  pose proof (get_kept_channels_full (list_to_set (map PyInt ids)) (channels conf) d)
    as Hkept.
  split; intros Hd.
  - rewrite bool_decide_eq_true_2 in Hkept by (now apply elem_of_int_ids).
    destruct (len _ =? 0); cbn [negb channels]; [reflexivity|]. now rewrite Hkept.
  - rewrite bool_decide_eq_false_2 in Hkept
      by (intros H; apply Hd; now apply elem_of_int_ids).
    destruct (len _ =? 0) eqn:Hlen; cbn [negb channels].
    + apply len_zero in Hlen. rewrite Hlen in Hkept. now rewrite <- Hkept.
    + now rewrite Hkept.
Qed.

Lemma remove_channels_removes_those_channels_only_witness :
  cursor (state_of (remove_channels_from_conf (map PyInt [100]) scenario_cog)) 42 100
  = None
  /\ cursor (state_of (remove_channels_from_conf (map PyInt [100]) scenario_cog)) 42 200
     = cursor scenario_cog 42 200.
Proof.
  split.
  - apply (remove_channels_removes_those_channels_only [100] scenario_cog 42 100).
    + apply scenario_wf_registry.
    + now left.
  - apply (remove_channels_removes_those_channels_only [100] scenario_cog 42 200).
    + apply scenario_wf_registry.
    + intros [H|[]]. discriminate.
Defined.

(** ** What a dispatch changes *)

Lemma unchanged_bind {X A B} (f : Twitter -> X) (m : M A) (k : A -> M B) :
  unchanged f m -> (forall a, unchanged f (k a)) -> unchanged f (bind m k).
Proof.
  intros Hm Hk s. unfold bind. specialize (Hm s).
  destruct (m s) as [s' [a|e]]; rewrite state_of_pair in Hm.
  - now rewrite Hk.
  - now rewrite state_of_pair.
Qed.

Lemma keeps_prop_bind {A B} (P : Twitter -> Prop) (m : M A) (k : A -> M B) :
  keeps P m -> (forall a, keeps P (k a)) -> keeps P (bind m k).
Proof.
  intros Hm Hk s Hs. unfold bind. specialize (Hm s Hs).
  destruct (m s) as [s' [a|e]]; rewrite state_of_pair in Hm.
  - now apply Hk.
  - now rewrite state_of_pair.
Qed.

Lemma shape_set_alike (f : dict follow_conf) k conf x :
  get f k = Some conf ->
  screen_name x = screen_name conf ->
  keys (channels x) = keys (channels conf) ->
  shape (set f k x) = shape f.
Proof.
  intros Hget Hname Hkeys. unfold shape.
  induction f as [|[k0 c0] f IH]; cbn in *; [discriminate|].
  destruct (Z.eqb_spec k0 k) as [->|].
  - injection Hget as ->. cbn. now rewrite Hname, Hkeys.
  - cbn. now rewrite IH.
Qed.

Lemma membership_delivered t url s c :
  In c (channel_ids s (tweet_user_id t)) ->
  membership (delivered t url s c) = membership s.
Proof.
  unfold membership, channel_ids, delivered, set_last_tweet_id.
  cbn [follows add_sent].
  destruct (get (follows s) (tweet_user_id t)) as [conf|] eqn:Hconf; [|intros []].
  intros Hc. cbn [follows set_follows set_saved stream_task tasks reactions add_sent].
  unfold set_channels. rewrite (shape_set_alike _ _ conf); auto.
  cbn [channels]. now apply keys_set_present.
Qed.

Lemma membership_delivered_all t url cs s :
  incl cs (channel_ids s (tweet_user_id t)) ->
  membership (fold_left (delivered t url) cs s) = membership s.
Proof.
  revert s. induction cs as [|c cs IH]; intros s Hincl; cbn [fold_left]; [reflexivity|].
  assert (Hc : In c (channel_ids s (tweet_user_id t))) by (apply Hincl; now left).
  rewrite IH.
  - now apply membership_delivered.
  - rewrite channel_ids_delivered by assumption. intros x Hx. apply Hincl. now right.
Qed.

(** the loop stops at the first channel that cannot be delivered to *)
Lemma dispatch_loop_stops w t url cs s :
  exists pre post,
    cs = pre ++ post
    /\ Forall (fun c => deliverable w c url = true) pre
    /\ ((post = [] /\ dispatch_loop w t url cs s
                      = (fold_left (delivered t url) pre s, Return tt))
        \/ (exists c post' e,
              post = c :: post' /\ deliverable w c url = false
              /\ dispatch_loop w t url cs s
                 = (fold_left (delivered t url) pre s, Raise e))).
Proof.
  revert s. induction cs as [|c cs IH]; intros s.
  - exists [], []. split; [reflexivity|]. split; [constructor|]. now left.
  - rewrite dispatch_loop_cons.
    destruct (deliverable w c url) eqn:Hc.
    + unfold deliverable in Hc. apply andb_true_iff in Hc as [Hg Hs].
      rewrite Hg, Hs.
      destruct (IH (delivered t url s c)) as (pre & post & -> & Hpre & Hrun).
      exists (c :: pre), post. split; [reflexivity|]. split.
      * constructor; [|assumption]. unfold deliverable. now rewrite Hg, Hs.
      * exact Hrun.
    + exists [], (c :: cs). split; [reflexivity|]. split; [constructor|]. right.
      pose proof Hc as Hc'. unfold deliverable in Hc'.
      destruct (get_channel w c); [|now exists c, cs, AttributeError].
      destruct (send_ok w c url); [discriminate|now exists c, cs, HTTPException].
Qed.

(** X7.  [dispatch_tweet] sends the url of the tweet, once each and in the
    order of the dictionary, to the channels of the account up to the
    first one that cannot be delivered to, and to no other channel; it
    returns when it reached them all and raises otherwise.  For an account
    that is not followed it sends nothing and returns. *)
Theorem dispatch_tweet_sends_to_deliverable_prefix (w : World) (t : tweet) (s : Twitter) :
  exists pre post,
    channel_ids s (tweet_user_id t) = pre ++ post
    /\ Forall (fun c => deliverable w c (url_of t) = true) pre
    /\ sent (state_of (dispatch_tweet w t s))
       = sent s ++ map (fun c => (c, url_of t)) pre
    /\ ((post = [] /\ outcome_of (dispatch_tweet w t s) = Return tt)
        \/ (exists c post' e,
              post = c :: post' /\ deliverable w c (url_of t) = false
              /\ outcome_of (dispatch_tweet w t s) = Raise e)).
Proof.
  rewrite dispatch_tweet_unfold. unfold channel_ids.
  destruct (get (follows s) (tweet_user_id t)) as [conf|].
  - destruct (dispatch_loop_stops w t (url_of t) (keys (channels conf)) s)
      as (pre & post & Hcs & Hpre & Hrun).
    exists pre, post. split; [exact Hcs|]. split; [exact Hpre|].
    destruct Hrun as [[-> Hrun]|(c & post' & e & -> & Hc & Hrun)];
      rewrite Hrun, state_of_pair, outcome_of_pair, sent_delivered_all.
    + split; [reflexivity|]. now left.
    + split; [reflexivity|]. right. now exists c, post', e.
  - exists [], []. split; [reflexivity|]. split; [constructor|].
    rewrite state_of_pair, outcome_of_pair. cbn. rewrite app_nil_r.
    split; [reflexivity|]. now left.
Qed.

Lemma unchanged_dispatch_tweet w t : unchanged membership (dispatch_tweet w t).
Proof.
  intros s. rewrite dispatch_tweet_unfold.
  destruct (get (follows s) (tweet_user_id t)) as [conf|] eqn:Hconf; [|reflexivity].
  destruct (dispatch_loop_prefix w t (url_of t) (keys (channels conf)) s)
    as (pre & post & o & Hcs & ->).
  rewrite state_of_pair. apply membership_delivered_all.
  unfold channel_ids. rewrite Hconf, Hcs. intros x Hx. apply in_or_app. now left.
Qed.

Lemma unchanged_dispatch_all {X} (f : Twitter -> X) w ts :
  (forall t, unchanged f (dispatch_tweet w t)) -> unchanged f (dispatch_all w ts).
Proof.
  intros Ht. induction ts as [|t ts IH]; cbn [dispatch_all]; [intros s; reflexivity|].
  apply unchanged_bind; [apply Ht|]. intros _. exact IH.
Qed.

Lemma unchanged_get_timeline {X} (f : Twitter -> X) w uid name limit :
  unchanged f (get_timeline w uid name limit).
Proof. intros s. now rewrite get_timeline_state. Qed.

Lemma unchanged_update_feeds {X} (f : Twitter -> X) w :
  (forall t, unchanged f (dispatch_tweet w t)) -> unchanged f (update_feeds w).
Proof.
  intros Ht. unfold update_feeds.
  apply unchanged_bind; [intros s; reflexivity|]. intros s.
  induction (keys (follows s)) as [|uid uids IH]; cbn [update_feeds_loop];
    [intros s'; reflexivity|].
  apply unchanged_bind; [|intros _; exact IH].
  unfold update_feed. apply unchanged_bind; [apply unchanged_get_timeline|].
  intros timeline. now apply unchanged_dispatch_all.
Qed.

Lemma membership_handle_data w data s :
  membership (state_of (handle_data w data s)) = membership s.
Proof.
  destruct data as [t| |]; cbn [handle_data].
  - apply unchanged_dispatch_tweet.
  - apply unchanged_update_feeds. apply unchanged_dispatch_tweet.
  - reflexivity.
Qed.

(** X8.  Whatever the stream hands over (a tweet, a connection signal or
    anything else), and whether the handling returns or raises, handling it
    follows and unfollows nothing: the accounts, their handles and the
    channels of each are the same afterwards, and so are the task the cog
    holds and the reactions.  When the handling returns, the tasks are as
    they were.  When it raises, the task that handled the data has ended:
    its stream is closed and the loop will not run it again, while the cog
    still holds it as its stream task. *)
Theorem stream_data_keeps_membership
    (w : World) (i : nat) (data : stream_data) (s : Twitter) :
  shape (follows (state_of (stream_tweets_data w i data s))) = shape (follows s)
  /\ stream_task (state_of (stream_tweets_data w i data s)) = stream_task s
  /\ reactions (state_of (stream_tweets_data w i data s)) = reactions s
  /\ tasks (state_of (stream_tweets_data w i data s))
     = match outcome_of (stream_tweets_data w i data s) with
       | Return _ => tasks s
       | Raise _ => alter end_task i (tasks s)
       end.
Proof.
  pose proof (membership_handle_data w data s) as H.
  unfold membership in H. injection H as H1 H2 H3 H4.
  unfold stream_tweets_data.
  destruct (handle_data w data s) as [s' [[]|e]];
    rewrite ?state_of_pair, ?outcome_of_pair in *; cbn [set_stream follows stream_task reactions tasks];
    rewrite ?H3; auto.
Qed.

(** ** What is saved *)

Lemma persisted_delivered_all t url cs s :
  persisted s -> persisted (fold_left (delivered t url) cs s).
Proof.
  revert s. induction cs as [|c cs IH]; intros s Hs; cbn [fold_left]; [exact Hs|].
  apply IH. unfold persisted, delivered. reflexivity.
Qed.

Lemma keeps_persisted_dispatch_tweet w t : keeps persisted (dispatch_tweet w t).
Proof.
  intros s Hs. rewrite dispatch_tweet_unfold.
  destruct (get (follows s) (tweet_user_id t)) as [conf|]; [|exact Hs].
  destruct (dispatch_loop_prefix w t (url_of t) (keys (channels conf)) s)
    as (pre & post & o & _ & ->).
  rewrite state_of_pair. now apply persisted_delivered_all.
Qed.

Lemma keeps_prop_dispatch_all (P : Twitter -> Prop) w ts :
  (forall t, keeps P (dispatch_tweet w t)) -> keeps P (dispatch_all w ts).
Proof.
  intros Ht. induction ts as [|t ts IH]; cbn [dispatch_all]; [intros s Hs; exact Hs|].
  apply keeps_prop_bind; [apply Ht|]. intros _. exact IH.
Qed.

Lemma keeps_prop_update_feeds (P : Twitter -> Prop) w :
  (forall t, keeps P (dispatch_tweet w t)) -> keeps P (update_feeds w).
Proof.
  intros Ht. unfold update_feeds.
  apply keeps_prop_bind; [intros s Hs; exact Hs|]. intros s.
  induction (keys (follows s)) as [|uid uids IH]; cbn [update_feeds_loop];
    [intros s' Hs'; exact Hs'|].
  apply keeps_prop_bind; [|intros _; exact IH].
  unfold update_feed. apply keeps_prop_bind.
  - intros s' Hs'. now rewrite get_timeline_state.
  - intros timeline. now apply keeps_prop_dispatch_all.
Qed.

Lemma persisted_follow_channel w channel uid conf url last s :
  persisted (state_of (follow_channel w channel uid conf url last s)).
Proof.
  unfold persisted, follow_channel. run_cog. rewrite stream_restart_eta.
  cbn beta iota.
  match goal with
  | |- context [stream_restart ?x] =>
      destruct (stream_restart_frame x) as (Hf & Hs & _); revert Hf Hs;
      generalize (state_of (stream_restart x))
  end.
  intros s' Hf Hs.
  destruct (send_ok w channel url); [destruct (react_ok w channel _)|];
    cbn; rewrite Hf, Hs; reflexivity.
Qed.

Lemma persisted_unfollow w channel handle s :
  persisted s -> persisted (state_of (unfollow w channel handle s)).
Proof.
  intros Hs. unfold unfollow. run_cog.
  destruct (config_get (follows s) _) as [[uid conf]|]; [|exact Hs].
  destruct (contains _ _); [|exact Hs]. cbn zeta.
  destruct (len _ =? 0); run_cog; [rewrite stream_restart_eta|]; cbn beta iota;
    destruct (react_ok w channel _); reflexivity.
Qed.

Lemma persisted_remove_channels chs s :
  persisted (state_of (remove_channels_from_conf chs s)).
Proof.
  unfold persisted, remove_channels_from_conf. run_cog.
  destruct (fold_left _ _ _) as [[f removed] unfollowed]. run_cog.
  destruct (0 <? unfollowed); run_cog; [|reflexivity].
  rewrite stream_restart_eta. cbn.
  match goal with
  | |- context [stream_restart ?x] =>
      now destruct (stream_restart_frame x) as (-> & -> & _)
  end.
Qed.

(** X9.  What is in memory is what is saved: when the saved configuration
    is the registry in memory, it still is after a follow, an unfollow, a
    removal of channels, the handling of stream data (returned or raised) or
    a turn of the stream task, except after the [follow] that stops on a
    [KeyError]. *)
Theorem operations_save_what_they_change (w : World) (o : op) (s : Twitter) :
  persisted s ->
  outcome_of (run_op w o s) <> Raise KeyError ->
  persisted (state_of (run_op w o s)).
Proof.
  intros Hs.
  destruct o as [channel handle|channel handle|chs|channel_id|i data|i|];
    cbn [run_op].
  - unfold follow. run_cog.
    destruct (config_get (follows s) _) as [[uid conf]|].
    + destruct (contains _ _); [auto|].
      destruct (py_max _); [|auto]. intros _. apply persisted_follow_channel.
    + destruct (users_show w _) as [usr|]; [|auto].
      destruct (user_protected usr); [auto|].
      destruct (user_status usr); [|intros H; now contradiction H].
      intros _. apply persisted_follow_channel.
  - intros _. now apply persisted_unfollow.
  - intros _. rewrite state_of_then_ret. apply persisted_remove_channels.
  - intros _. rewrite state_of_then_ret. apply persisted_remove_channels.
  - intros _. unfold persisted.
    destruct (stream_tweets_data_frame w i data s) as (-> & -> & _).
    fold (persisted (state_of (handle_data w data s))).
    destruct data as [t| |]; cbn [handle_data].
    + now apply keeps_persisted_dispatch_tweet.
    + apply keeps_prop_update_feeds; [apply keeps_persisted_dispatch_tweet|exact Hs].
    + exact Hs.
  - intros _. exact Hs.
  - intros _. unfold persisted, cog_unload.
    now destruct (stream_stop_frame s) as (-> & -> & _).
Qed.

Lemma operations_save_what_they_change_witness :
  persisted (state_of (run_op (scenario_world 200) (OpData 0%nat OnConnect) scenario_cog))
  /\ persisted (state_of (run_op (scenario_world 0) (OpFollow 300 "alice") scenario_cog)).
Proof.
  split; apply operations_save_what_they_change;
    try reflexivity; vm_compute; discriminate.
Defined.

(** ** The stream runs when an account is followed *)

Lemma stream_stop_forgets s : stream_task (state_of (stream_stop s)) = None.
Proof.
  unfold stream_stop, modify. rewrite state_of_pair.
  destruct (stream_task s) eqn:H; [reflexivity|exact H].
Qed.

Lemma streams_restart s : streams_when_following (state_of (stream_restart s)).
Proof.
  unfold streams_when_following. rewrite stream_restart_unfold.
  destruct (stream_start_frame (state_of (stream_stop s))) as (-> & _).
  pose proof (stream_stop_forgets s) as Hnone.
  revert Hnone. generalize (state_of (stream_stop s)). intros x Hnone.
  unfold stream_start, modify, holds_handle. rewrite state_of_pair, Hnone.
  destruct (0 <? len (follows x)); [reflexivity|]. now rewrite Hnone.
Qed.

Lemma streams_frame s s' :
  stream_task s' = stream_task s ->
  length (follows s') = length (follows s) ->
  streams_when_following s -> streams_when_following s'.
Proof.
  unfold streams_when_following, holds_handle, len. intros -> ->. auto.
Qed.

Lemma streams_follow_channel w channel uid conf url last s :
  streams_when_following (state_of (follow_channel w channel uid conf url last s)).
Proof.
  unfold follow_channel. run_cog. rewrite stream_restart_eta. cbn beta iota.
  match goal with
  | |- context [stream_restart ?x] =>
      pose proof (streams_restart x) as H; revert H;
      generalize (state_of (stream_restart x))
  end.
  intros s' H.
  destruct (send_ok w channel url); [destruct (react_ok w channel _)|]; exact H.
Qed.

Lemma length_shape f : length (shape f) = length f.
Proof. unfold shape. apply length_map. Qed.

Lemma spec_keeps_all chans f :
  unfollowed_spec chans f <= 0 ->
  length (remove_destinations_spec chans f) = length f.
Proof.
  assert (Hpos : forall g, 0 <= unfollowed_spec chans g).
  { induction g as [|item g IH]; cbn [unfollowed_spec]; [lia|].
    destruct (has_channels _); lia. }
  unfold remove_destinations_spec.
  induction f as [|item f IH]; cbn [unfollowed_spec map List.filter]; [reflexivity|].
  specialize (Hpos f). destruct (has_channels (prune_source chans item)); [|lia].
  intros H. cbn [length]. f_equal. apply IH. lia.
Qed.

(** X10.  The cog holds a stream task exactly when an account is followed:
    when this is so, it stays so after a follow, an unfollow, a removal of
    channels, the handling of stream data or a turn of the stream task,
    except after the [follow] that stops on a [KeyError] (the account is
    stored, the stream is not restarted) and after the unloading of the
    cog. *)
Theorem stream_runs_when_following (w : World) (o : op) (s : Twitter) :
  wf (follows s) ->
  streams_when_following s ->
  o <> OpUnload ->
  outcome_of (run_op w o s) <> Raise KeyError ->
  streams_when_following (state_of (run_op w o s)).
Proof.
  intros Hwf Hs Ho.
  destruct o as [channel handle|channel handle|chs|channel_id|i data|i|];
    cbn [run_op]; [| | | | | |contradiction].
  - unfold follow. run_cog.
    destruct (config_get (follows s) _) as [[uid conf]|].
    + destruct (contains _ _); [auto|].
      destruct (py_max _); [|auto]. intros _. apply streams_follow_channel.
    + destruct (users_show w _) as [usr|]; [|auto].
      destruct (user_protected usr); [auto|].
      destruct (user_status usr); [|intros H; now contradiction H].
      intros _. apply streams_follow_channel.
  - intros _. unfold unfollow. run_cog.
    destruct (config_get (follows s) _) as [[uid conf]|] eqn:Hget; [|exact Hs].
    destruct (contains _ _); [|exact Hs]. cbn zeta.
    destruct (len _ =? 0); run_cog.
    + rewrite stream_restart_eta. cbn beta iota.
      match goal with
      | |- context [stream_restart ?x] =>
          pose proof (streams_restart x) as H; revert H;
          generalize (state_of (stream_restart x))
      end.
      intros s' H. destruct (react_ok w channel _); exact H.
    + destruct (react_ok w channel _);
        (apply (streams_frame s); [reflexivity| |exact Hs]);
        cbn [state_of fst follows set_follows set_saved add_reacted];
        unfold set_channels;
        apply length_set_present; eapply config_get_In; eassumption.
  - intros _. rewrite state_of_then_ret.
    rewrite remove_channels_from_conf_spec by assumption.
    rewrite state_of_pair. cbv zeta.
    destruct (0 <? unfollowed_spec _ _) eqn:Hu; [apply streams_restart|].
    apply (streams_frame s); [reflexivity| |exact Hs].
    cbn [follows set_follows set_saved]. apply spec_keeps_all.
    apply Z.ltb_ge in Hu. exact Hu.
  - intros _. rewrite state_of_then_ret. unfold on_guild_channel_delete.
    rewrite remove_channels_from_conf_spec by assumption.
    rewrite state_of_pair. cbv zeta.
    destruct (0 <? unfollowed_spec _ _) eqn:Hu; [apply streams_restart|].
    apply (streams_frame s); [reflexivity| |exact Hs].
    cbn [follows set_follows set_saved]. apply spec_keeps_all.
    apply Z.ltb_ge in Hu. exact Hu.
  - intros _.
    pose proof (membership_handle_data w data s) as H.
    unfold membership in H. injection H as H1 H2 _ _.
    destruct (stream_tweets_data_frame w i data s) as (Hf & _ & Ht & _).
    apply (streams_frame s); [now rewrite Ht| |exact Hs].
    now rewrite Hf, <- !length_shape, H1.
  - intros _. exact Hs.
Qed.

Lemma stream_runs_when_following_witness :
  streams_when_following (init [])
  /\ streams_when_following
       (state_of (run_op (scenario_world 0) (OpFollow 100 "alice") (init [])))
  /\ streams_when_following
       (state_of (run_op (scenario_world 0) (OpRemoveChannels [PyInt 100; PyInt 200])
                    scenario_cog)).
Proof.
  split; [reflexivity|]. split.
  - apply stream_runs_when_following; try discriminate.
    + constructor.
    + reflexivity.
  - apply stream_runs_when_following; try discriminate.
    + apply scenario_wf_registry.
    + reflexivity.
Defined.

(** ** No account without channel *)

Lemma no_empty_source_shape f f' :
  shape f' = shape f -> no_empty_source f -> no_empty_source f'.
Proof.
  unfold no_empty_source, shape. revert f'.
  induction f as [|item f IH]; intros [|item' f']; cbn; try discriminate;
    [constructor|].
  intros [= _ _ Hkeys Hrest] Hinv. apply Forall_cons_iff in Hinv as [Hitem Hinv].
  constructor; [|now apply IH].
  intros Hnil. apply Hitem. unfold keys in Hkeys. rewrite Hnil in Hkeys.
  destruct (channels (snd item)); [reflexivity|discriminate].
Qed.

(** X11.  Apart from the [follow] that stops on a [KeyError], no operation
    leaves an account without channel in the registry: when every followed
    account has a channel, every followed account has one after a follow,
    an unfollow, a removal of channels, the handling of stream data, a turn
    of the stream task or the unloading of the cog. *)
Theorem operations_leave_no_account_without_channel
    (w : World) (o : op) (s : Twitter) :
  wf (follows s) ->
  no_empty_source (follows s) ->
  outcome_of (run_op w o s) <> Raise KeyError ->
  no_empty_source (follows (state_of (run_op w o s))).
Proof.
  intros Hwf Hinv.
  destruct o as [channel handle|channel handle|chs|channel_id|i data|i|];
    cbn [run_op].
  - now apply no_empty_source_follow.
  - intros _. now apply no_empty_source_unfollow.
  - intros _. rewrite state_of_then_ret. now apply no_empty_source_remove_channels.
  - intros _. rewrite state_of_then_ret. now apply no_empty_source_remove_channels.
  - intros _.
    pose proof (membership_handle_data w data s) as H.
    unfold membership in H. injection H as H1 _ _ _.
    destruct (stream_tweets_data_frame w i data s) as (-> & _).
    now apply (no_empty_source_shape (follows s)).
  - intros _. exact Hinv.
  - intros _. unfold cog_unload. now destruct (stream_stop_frame s) as (-> & _).
Qed.

Lemma operations_leave_no_account_without_channel_witness :
  no_empty_source
    (follows (state_of (run_op (scenario_world 0) (OpUnfollow 100 "alice") scenario_cog)))
  /\ no_empty_source
       (follows (state_of (run_op (scenario_world 0) (OpFollow 300 "alice")
                             scenario_cog))).
Proof.
  split; apply operations_leave_no_account_without_channel;
    try apply scenario_wf_registry; try discriminate;
    repeat constructor; cbn; discriminate.
Defined.

(** ** Reconciling twice *)

Lemma wf_get_item {V} (d : dict V) k v : wf d -> In (k, v) d -> get d k = Some v.
Proof.
  unfold wf. induction d as [|[k0 v0] d IH]; cbn; [tauto|].
  intros Hnd. apply NoDup_cons_iff in Hnd as [Hk0 Hnd].
  intros [[= -> ->]|Hin]; [now rewrite Z.eqb_refl|].
  destruct (Z.eqb_spec k0 k) as [->|]; [|auto].
  exfalso. apply Hk0. apply (in_map fst) in Hin. exact Hin.
Qed.

Lemma filter_none {A} (f : A -> bool) (l : list A) :
  (forall x, In x l -> f x = false) -> List.filter f l = [].
Proof.
  induction l as [|x l IH]; intros H; cbn; [reflexivity|].
  rewrite (H x) by now left. apply IH. intros y Hy. apply H. now right.
Qed.

Lemma nothing_newer_than_newest (timeline : list tweet) since_id newest :
  StronglySorted (fun a b => tweet_id b < tweet_id a) timeline ->
  hd_error (List.filter (fun t => since_id <? tweet_id t) timeline) = Some newest ->
  List.filter (fun t => tweet_id newest <? tweet_id t) timeline = [].
Proof.
  intros Hsorted Hhd. apply filter_none. intros t Ht. apply Z.ltb_ge.
  pose proof (sorted_filter (fun t => since_id <? tweet_id t) timeline Hsorted) as Hs.
  destruct (List.filter _ timeline) as [|n rest] eqn:Hf; [discriminate|].
  injection Hhd as ->.
  assert (Hn : In newest (List.filter (fun t => since_id <? tweet_id t) timeline))
    by (rewrite Hf; now left).
  apply filter_In in Hn as [_ Hn]. apply Z.ltb_lt in Hn.
  destruct (since_id <? tweet_id t) eqn:Hnew.
  - assert (Hin : In t (newest :: rest)).
    { rewrite <- Hf. apply filter_In. auto. }
    apply StronglySorted_inv in Hs as [_ Hall].
    destruct Hin as [->|Hin]; [lia|].
    rewrite List.Forall_forall in Hall. specialize (Hall t Hin). lia.
  - apply Z.ltb_ge in Hnew. lia.
Qed.

Lemma cursors_all_equal (conf : follow_conf) (x : Z) :
  wf (channels conf) ->
  channels conf <> [] ->
  (forall d, In d (keys (channels conf)) ->
             option_map last_tweet_id (get (channels conf) d) = Some x) ->
  py_min (cursors conf) = Some x.
Proof.
  intros Hwf Hne Hall.
  assert (Heach : forall y, In y (cursors conf) -> y = x).
  { intros y Hy. unfold cursors, values in Hy.
    apply in_map_iff in Hy as (v & <- & Hv). apply in_map_iff in Hv as ([k v'] & Hsnd & Hkv).
    cbn in Hsnd. subst v'.
    specialize (Hall k (in_map fst _ _ Hkv)).
    rewrite (wf_get_item _ _ _ Hwf Hkv) in Hall. now injection Hall. }
  apply py_min_spec. split.
  - destruct (cursors conf) as [|y l] eqn:Hc.
    + apply cursors_nil in Hc. contradiction.
    + rewrite (Heach y) by now left. now left.
  - intros y Hy. rewrite (Heach y Hy). lia.
Qed.

(** X12.  Reconciling an account a second time does nothing.  Under the
    conditions of a reconciliation that goes through (every send succeeds,
    Twitter lists the tweets of the account newest first), the
    reconciliation that follows at once sends no message and leaves the
    cog as it is: every channel is then on the newest tweet. *)
Theorem update_feed_twice_sends_nothing
    (w : World) (s : Twitter) (uid : Z) (conf : follow_conf) (since_id : Z) :
  uid <> 0 ->
  get (follows s) uid = Some conf ->
  wf (channels conf) ->
  py_min (cursors conf) = Some since_id ->
  0 < since_id ->
  Forall (fun t => tweet_user_id t = uid) (user_timeline w uid) ->
  StronglySorted (fun a b => tweet_id b < tweet_id a) (user_timeline w uid) ->
  (forall d text, In d (keys (channels conf)) -> deliverable w d text = true) ->
  update_feed w uid (state_of (update_feed w uid s))
  = (state_of (update_feed w uid s), Return tt).
Proof.
  intros Huid Hconf Hwf Hmin Hpos Huser Hsorted Hok.
  set (newer := List.filter (fun t => since_id <? tweet_id t) (user_timeline w uid)).
  set (fetched := firstn (page_size w) newer).
  assert (Hids : channel_ids s uid = keys (channels conf)).
  { unfold channel_ids. now rewrite Hconf. }
  assert (Hfirst : update_feed w uid s = dispatch_all w (rev fetched) s).
  { unfold update_feed, bind.
    now rewrite (get_timeline_since w uid _ _ s conf since_id). }
  destruct (dispatch_all_ok w uid (rev fetched) s) as (s1 & Hrun & Hids1 & _ & Hcur).
  { now rewrite Hids. }
  { apply List.Forall_forall. intros t Ht. apply in_rev in Ht.
    apply In_firstn in Ht.
    apply filter_In in Ht as [Ht _]. rewrite List.Forall_forall in Huser. auto. }
  { intros d text Hd. apply Hok. now rewrite <- Hids. }
  rewrite Hfirst, Hrun, state_of_pair.
  destruct fetched as [|newest rest] eqn:Hfetched.
  - cbn in Hrun. injection Hrun as <-.
    unfold update_feed, bind.
    rewrite (get_timeline_since w uid _ _ s conf since_id) by assumption.
    fold newer. fold fetched. rewrite Hfetched. reflexivity.
  - assert (Hnew : forall d, In d (keys (channels conf)) ->
                             cursor s1 uid d = Some (tweet_id newest)).
    { intros d Hd. rewrite Hcur by (now rewrite Hids).
      cbn [rev]. now rewrite fold_left_app. }
    assert (Hne : channels conf <> []).
    { intros Hnil. apply cursors_nil in Hnil. rewrite Hnil in Hmin. discriminate. }
    unfold channel_ids in Hids1. rewrite Hconf in Hids1.
    destruct (get (follows s1) uid) as [conf1|] eqn:Hconf1.
    2:{ exfalso. apply Hne. destruct (channels conf); [reflexivity|discriminate]. }
    assert (Hmin1 : py_min (cursors conf1) = Some (tweet_id newest)).
    { apply cursors_all_equal.
      - unfold wf. rewrite Hids1. exact Hwf.
      - intros Hnil. apply Hne. rewrite Hnil in Hids1.
        destruct (channels conf); [reflexivity|discriminate].
      - intros d Hd. rewrite Hids1 in Hd. specialize (Hnew d Hd).
        unfold cursor in Hnew. now rewrite Hconf1 in Hnew. }
    assert (Hhd : hd_error (List.filter (fun t => since_id <? tweet_id t)
                              (user_timeline w uid)) = Some newest).
    { fold newer. subst fetched. destruct newer as [|n l]; destruct (page_size w);
        cbn [firstn] in Hfetched; try discriminate.
      now injection Hfetched as -> _. }
    assert (Hpos1 : 0 < tweet_id newest).
    { assert (Hin : In newest newer).
      { apply (In_firstn (page_size w)). fold fetched. rewrite Hfetched. now left. }
      apply filter_In in Hin as [_ Hin]. apply Z.ltb_lt in Hin. lia. }
    unfold update_feed, bind.
    rewrite (get_timeline_since w uid _ _ s1 conf1 (tweet_id newest)) by assumption.
    rewrite (nothing_newer_than_newest _ since_id newest) by assumption.
    now rewrite firstn_nil.
Qed.

Lemma update_feed_twice_sends_nothing_witness :
  update_feed (scenario_world 0) 42
    (state_of (update_feed (scenario_world 0) 42 scenario_cog))
  = (state_of (update_feed (scenario_world 0) 42 scenario_cog), Return tt).
Proof.
  apply (update_feed_twice_sends_nothing (scenario_world 0) scenario_cog 42
           (FollowConf "alice" [(100, ChannelConf 1001); (200, ChannelConf 998)]) 998).
  - discriminate.
  - reflexivity.
  - unfold wf. cbn. repeat constructor; cbn; intuition discriminate.
  - reflexivity.
  - reflexivity.
  - cbn. repeat constructor.
  - cbn. repeat constructor.
  - intros d text [<-|[<-|[]]]; reflexivity.
Defined.

(** ** The stream after a follow *)

Lemma stream_restart_fresh_task x :
  follows x <> [] ->
  stream_task (state_of (stream_restart x)) = Some (length (tasks x))
  /\ tasks (state_of (stream_restart x)) !! length (tasks x) = Some new_task
  /\ length (tasks (state_of (stream_restart x))) = S (length (tasks x)).
Proof.
  intros Hne. rewrite stream_restart_unfold.
  assert (Hstop : stream_task (state_of (stream_stop x)) = None
                  /\ length (tasks (state_of (stream_stop x))) = length (tasks x)
                  /\ follows (state_of (stream_stop x)) = follows x).
  { unfold stream_stop, modify. rewrite state_of_pair.
    destruct (stream_task x) eqn:H; cbn [set_stream stream_task tasks follows];
      [|auto]. split; [reflexivity|]. split; [apply length_alter|reflexivity]. }
  revert Hstop. generalize (state_of (stream_stop x)). intros y (Hnone & Hlen & Hf).
  unfold stream_start, modify. rewrite state_of_pair, Hnone, Hf.
  assert (Hpos : (0 <? len (follows x)) = true).
  { unfold len. destruct (follows x); [contradiction|reflexivity]. }
  rewrite Hpos. cbn [set_stream stream_task tasks]. rewrite <- Hlen.
  split; [reflexivity|]. split; [apply lookup_snoc|].
  rewrite length_app. cbn. lia.
Qed.

Lemma follow_channel_stream w channel uid conf url last s :
  exists x,
    follows x = follows (state_of (follow_channel w channel uid conf url last s))
    /\ follows x <> []
    /\ tasks x = tasks s
    /\ stream_task (state_of (follow_channel w channel uid conf url last s))
       = stream_task (state_of (stream_restart x))
    /\ tasks (state_of (follow_channel w channel uid conf url last s))
       = tasks (state_of (stream_restart x)).
Proof.
  match goal with
  | |- context [follows (state_of (follow_channel ?w ?c ?u ?cf ?url ?l ?s))] =>
      rewrite (follows_follow_channel w c u cf url l s)
  end.
  unfold follow_channel. run_cog. rewrite stream_restart_eta. cbn beta iota.
  match goal with
  | |- context [stream_restart ?x] => exists x
  end.
  split; [reflexivity|]. split; [apply set_not_nil|]. split; [reflexivity|].
  destruct (send_ok w channel url); [destruct (react_ok w channel _)|];
    split; reflexivity.
Qed.

Lemma incl_keys_set {V} (d : dict V) k v : incl (keys d) (keys (set d k v)).
Proof.
  destruct (in_dec Z.eq_dec k (keys d)) as [Hin|Hnotin].
  - rewrite keys_set_present by assumption. apply incl_refl.
  - intros x Hx. clear Hnotin. induction d as [|[k0 v0] d IH]; [destruct Hx|].
    cbn in *. destruct (Z.eqb_spec k0 k); cbn; destruct Hx; auto.
Qed.

(** X13.  A [follow] that returned has restarted the stream: the cog holds
    a task that was just created, one more than before, and when the loop
    runs that task it opens the stream on the accounts of the registry as
    the follow left it, which are those followed before and the one just
    followed. *)
Theorem follow_restarts_stream_on_new_registry
    (w : World) (channel : Z) (handle : string) (s : Twitter) :
  outcome_of (follow w channel handle s) = Return tt ->
  let s1 := state_of (follow w channel handle s) in
  let i := length (tasks s) in
  stream_task s1 = Some i
  /\ tasks s1 !! i = Some new_task
  /\ length (tasks s1) = S (length (tasks s))
  /\ tasks (state_of (loop_runs_task i s1)) !! i
     = Some (MkTask false (Some (keys (follows s1))) false)
  /\ incl (keys (follows s)) (keys (follows s1))
  /\ exists uid conf,
       config_get (follows s1) (lstrip_at (str_lower w handle)) = Some (uid, conf)
       /\ In uid (keys (follows s1)).
Proof.
  intros Hret s1 i.
  assert (Hstream : stream_task s1 = Some i /\ tasks s1 !! i = Some new_task
                    /\ length (tasks s1) = S (length (tasks s))).
  { revert Hret. subst s1 i. unfold follow. run_cog.
    destruct (config_get (follows s) _) as [[uid conf]|].
    - destruct (contains _ _); [discriminate|].
      destruct (py_max _) as [last|]; [|discriminate]. intros _.
      destruct (follow_channel_stream w channel uid conf
                  (build_tweet_url (lstrip_at (str_lower w handle)) last) last s)
        as (x & _ & Hne & Htasks & -> & ->).
      rewrite <- Htasks. now apply stream_restart_fresh_task.
    - destruct (users_show w _) as [usr|]; [|discriminate].
      destruct (user_protected usr); [discriminate|].
      destruct (user_status usr) as [last|]; [|discriminate]. intros _.
      match goal with
      | |- context [follow_channel ?w ?c ?u ?cf ?url ?l ?s0] =>
          destruct (follow_channel_stream w c u cf url l s0)
            as (x & _ & Hne & Htasks & -> & ->)
      end.
      cbn [tasks set_follows] in Htasks. rewrite <- Htasks.
      now apply stream_restart_fresh_task. }
  destruct Hstream as (Htask & Hnew & Hlen).
  split; [exact Htask|]. split; [exact Hnew|]. split; [exact Hlen|]. split.
  { unfold loop_runs_task, modify. rewrite state_of_pair.
    cbn [set_stream tasks]. rewrite list_lookup_alter_eq, Hnew. reflexivity. }
  destruct (follow_returned_cases w channel handle s Hret)
    as [(uid & conf & last & Hget & Hin & Hmax & Hf)|(usr & last & Hget & Husr & Hst & Hf)];
    fold s1 in Hf.
  - split; [rewrite Hf; apply incl_keys_set|].
    exists uid, (FollowConf (screen_name conf)
                   (set (channels conf) channel (ChannelConf last))).
    split.
    + rewrite Hf. clear Hf. revert Hget. generalize (follows s) as f.
      intros f Hget. pose proof (config_get_name _ _ _ _ Hget) as Hname.
      induction f as [|[k0 c0] f IH]; cbn in *; [discriminate|].
      destruct (String.eqb (screen_name c0) (lstrip_at (str_lower w handle))) eqn:Hc0.
      * injection Hget as -> ->. rewrite Z.eqb_refl. cbn.
        now rewrite Hname, String.eqb_refl.
      * destruct (Z.eqb_spec k0 uid) as [->|Hne]; cbn.
        -- now rewrite Hname, String.eqb_refl.
        -- rewrite Hc0. now apply IH.
    + rewrite Hf. apply incl_keys_set. eapply config_get_In. eassumption.
  - split; [rewrite Hf; apply incl_keys_set|].
    exists (user_id usr),
      (FollowConf (lstrip_at (str_lower w handle)) [(channel, ChannelConf last)]).
    split.
    + rewrite Hf. now apply config_get_set_new.
    + rewrite Hf. eapply get_In. apply get_set_eq.
Qed.

Lemma follow_restarts_stream_on_new_registry_witness :
  stream_task (state_of (follow (scenario_world 0) 300 "alice" scenario_cog))
  = Some 1%nat
  /\ tasks (state_of (loop_runs_task 1
                        (state_of (follow (scenario_world 0) 300 "alice" scenario_cog))))
       !! 1%nat
     = Some (MkTask false (Some [42]) false).
Proof.
  destruct (follow_restarts_stream_on_new_registry (scenario_world 0) 300 "alice"
              scenario_cog eq_refl) as (H1 & _ & _ & H4 & _).
  split; [exact H1|exact H4].
Defined.

(** ** Fetching a timeline *)

Lemma fetch_loop_frame w channel name ts s :
  follows (state_of (fetch_loop w channel name ts s)) = follows s
  /\ saved (state_of (fetch_loop w channel name ts s)) = saved s
  /\ stream_task (state_of (fetch_loop w channel name ts s)) = stream_task s
  /\ tasks (state_of (fetch_loop w channel name ts s)) = tasks s
  /\ reactions (state_of (fetch_loop w channel name ts s)) = reactions s
  /\ exists k,
       (k <= length ts)%nat
       /\ sent (state_of (fetch_loop w channel name ts s))
          = sent s ++ map (fun t => (channel, build_tweet_url name (tweet_id t)))
                        (firstn k ts)
       /\ (outcome_of (fetch_loop w channel name ts s) = Return tt -> k = length ts).
Proof.
  revert s. induction ts as [|t ts IH]; intros s.
  - repeat (split; [reflexivity|]). exists 0%nat. cbn. rewrite app_nil_r. auto.
  - cbn [fetch_loop]. unfold bind, send.
    destruct (send_ok w channel (build_tweet_url name (tweet_id t))).
    + destruct (IH (add_sent channel (build_tweet_url name (tweet_id t)) s))
        as (-> & -> & -> & -> & -> & k & Hk & -> & Hret).
      repeat (split; [reflexivity|]). exists (S k). split; [cbn; lia|].
      split; [cbn; now rewrite <- app_assoc|]. intros H. cbn. f_equal. auto.
    + repeat (split; [reflexivity|]). exists 0%nat. split; [cbn; lia|].
      split; [cbn; now rewrite app_nil_r|]. discriminate.
Qed.

Lemma get_timeline_by_name w name limit s :
  get_timeline w None name limit s
  = match users_show w name with
    | Some u =>
        if user_protected u then (s, Raise PeonyException)
        else (s, Return (firstn (Z.to_nat (Z.min limit (max_count w)))
                           (user_timeline w (user_id u))))
    | None => (s, Raise NotFound)
    end.
Proof.
  unfold get_timeline, user_timeline_get. run_cog.
  destruct (users_show w name) as [u|]; [destruct (user_protected u)|]; reflexivity.
Qed.

Lemma fetch_unfold w channel handle limit s :
  fetch w channel handle limit s
  = match users_show w (lstrip_at (str_lower w handle)) with
    | Some u =>
        if user_protected u then (s, Raise PeonyException)
        else
          bind (fetch_loop w channel (lstrip_at (str_lower w handle))
                  (rev (firstn (Z.to_nat (Z.min limit (max_count w)))
                          (user_timeline w (user_id u)))))
               (fun _ => add_reaction w channel WHITE_HEAVY_CHECK_MARK) s
    | None =>
        (s, Raise (TwitterError ("User " +:+ lstrip_at (str_lower w handle) +:+ " not found.")))
    end.
Proof.
  unfold fetch, try_except, bind at 1. rewrite get_timeline_by_name.
  destruct (users_show w _) as [u|]; [destruct (user_protected u)|]; reflexivity.
Qed.

(** X14.  [fetch] only posts: it leaves the registry, the saved
    configuration and the stream task as they are, and what it sends goes
    to the channel of the command, at most [limit] messages. *)
Theorem fetch_only_posts_to_its_channel
    (w : World) (channel : Z) (handle : string) (limit : Z) (s : Twitter) :
  0 <= limit ->
  follows (state_of (fetch w channel handle limit s)) = follows s
  /\ saved (state_of (fetch w channel handle limit s)) = saved s
  /\ stream_task (state_of (fetch w channel handle limit s)) = stream_task s
  /\ tasks (state_of (fetch w channel handle limit s)) = tasks s
  /\ exists posted,
       sent (state_of (fetch w channel handle limit s))
       = sent s ++ map (fun text => (channel, text)) posted
       /\ Z.of_nat (length posted) <= limit.
Proof.
  intros Hlimit. rewrite fetch_unfold.
  assert (Hnone : forall e : exn,
             follows (state_of (s, @Raise unit e)) = follows s
             /\ saved (state_of (s, @Raise unit e)) = saved s
             /\ stream_task (state_of (s, @Raise unit e)) = stream_task s
             /\ tasks (state_of (s, @Raise unit e)) = tasks s
             /\ exists posted,
                  sent (state_of (s, @Raise unit e))
                  = sent s ++ map (fun text => (channel, text)) posted
                  /\ Z.of_nat (length posted) <= limit).
  { intros e. rewrite state_of_pair. repeat (split; [reflexivity|]).
    exists []. cbn. rewrite app_nil_r. split; [reflexivity|lia]. }
  destruct (users_show w _) as [u|]; [destruct (user_protected u)|];
    [apply Hnone| |apply Hnone].
  - unfold bind.
    set (ts := rev (firstn (Z.to_nat (Z.min limit (max_count w)))
                      (user_timeline w (user_id u)))).
    destruct (fetch_loop_frame w channel (lstrip_at (str_lower w handle)) ts s)
      as (Hf & Hsv & Hst & Htk & _ & k & Hk & Hsent & _).
    assert (Hlen : (length ts <= Z.to_nat limit)%nat).
    { subst ts. rewrite length_rev, length_firstn. lia. }
    assert (Hposted : exists posted,
               sent (state_of (fetch_loop w channel (lstrip_at (str_lower w handle)) ts s))
               = sent s ++ map (fun text => (channel, text)) posted
               /\ Z.of_nat (length posted) <= limit).
    { exists (map (fun t => build_tweet_url (lstrip_at (str_lower w handle)) (tweet_id t))
                (firstn k ts)).
      split; [now rewrite Hsent, map_map|].
      rewrite length_map, length_firstn. lia. }
    destruct (fetch_loop w channel (lstrip_at (str_lower w handle)) ts s) as [s' [[]|e]];
      rewrite state_of_pair in *; [|auto].
    unfold add_reaction. destruct (react_ok w channel _); cbn; auto.
Qed.

Lemma fetch_only_posts_to_its_channel_witness :
  follows (state_of (fetch (scenario_world 0) 300 "@Alice" 3 scenario_cog))
  = follows scenario_cog
  /\ received (state_of (fetch (scenario_world 0) 300 "@Alice" 3 scenario_cog)) 300
     = map (build_tweet_url "alice") [1000; 1001; 1002].
Proof.
  split; [|reflexivity].
  apply (fetch_only_posts_to_its_channel (scenario_world 0) 300 "@Alice" 3 scenario_cog).
  lia.
Defined.

(** X15.  [fetch] of a handle that Twitter does not know is refused with
    the [TwitterError] "User ... not found.", and nothing is sent or
    changed. *)
Theorem fetch_unknown_handle_is_refused
    (w : World) (channel : Z) (handle : string) (limit : Z) (s : Twitter) :
  users_show w (lstrip_at (str_lower w handle)) = None ->
  fetch w channel handle limit s
  = (s, Raise (TwitterError ("User " +:+ lstrip_at (str_lower w handle) +:+ " not found."))).
Proof. intros H. now rewrite fetch_unfold, H. Qed.

Lemma fetch_unknown_handle_is_refused_witness :
  fetch (scenario_world 0) 100 "@Carol" 3 scenario_cog
  = (scenario_cog, Raise (TwitterError "User carol not found.")).
Proof.
  apply (fetch_unknown_handle_is_refused (scenario_world 0) 100 "@Carol" 3 scenario_cog).
  reflexivity.
Defined.

Lemma fetch_loop_ok w channel name ts s :
  (forall text, send_ok w channel text = true) ->
  fetch_loop w channel name ts s
  = (fold_left (fun s t => add_sent channel (build_tweet_url name (tweet_id t)) s) ts s,
     Return tt).
Proof.
  intros Hok. revert s. induction ts as [|t ts IH]; intros s; [reflexivity|].
  cbn [fetch_loop fold_left]. unfold bind, send. now rewrite Hok, IH.
Qed.

Lemma sent_fold_add_sent channel (g : tweet -> string) ts s :
  sent (fold_left (fun s t => add_sent channel (g t) s) ts s)
  = sent s ++ map (fun t => (channel, g t)) ts.
Proof.
  revert s. induction ts as [|t ts IH]; intros s; cbn [fold_left map].
  - now rewrite app_nil_r.
  - rewrite IH. cbn. now rewrite <- app_assoc.
Qed.

(** X16.  [fetch] of a handle that Twitter knows.  When the account is
    protected, Twitter refuses its timeline and [fetch], which catches
    [NotFound] only, ends with that exception, nothing sent.  Otherwise,
    when the channel of the command takes messages, [fetch] sends to that
    channel the urls of the [limit] newest tweets of the account (of the
    [max_count] newest, for a larger [limit]), oldest first, each built with
    the handle as it was typed (lowered, without its [@]); it then adds the
    check mark and returns, or raises when Discord refuses the check
    mark. *)
Theorem fetch_sends_newest_tweets_oldest_first
    (w : World) (channel : Z) (handle : string) (limit : Z) (s : Twitter) (u : user) :
  users_show w (lstrip_at (str_lower w handle)) = Some u ->
  (forall text, send_ok w channel text = true) ->
  if user_protected u
  then fetch w channel handle limit s = (s, Raise PeonyException)
  else
    sent (state_of (fetch w channel handle limit s))
    = sent s
      ++ map (fun t => (channel,
                        build_tweet_url (lstrip_at (str_lower w handle)) (tweet_id t)))
           (rev (firstn (Z.to_nat (Z.min limit (max_count w)))
                   (user_timeline w (user_id u))))
    /\ if react_ok w channel WHITE_HEAVY_CHECK_MARK
       then outcome_of (fetch w channel handle limit s) = Return tt
            /\ reactions (state_of (fetch w channel handle limit s))
               = reactions s ++ [WHITE_HEAVY_CHECK_MARK]
       else outcome_of (fetch w channel handle limit s) = Raise HTTPException
            /\ reactions (state_of (fetch w channel handle limit s)) = reactions s.
Proof.
  intros Hu Hok. rewrite fetch_unfold, Hu.
  destruct (user_protected u); [reflexivity|]. unfold bind.
  rewrite fetch_loop_ok by assumption. unfold add_reaction.
  assert (Hr : forall ts s0,
             reactions (fold_left (fun s t =>
                          add_sent channel
                            (build_tweet_url (lstrip_at (str_lower w handle)) (tweet_id t)) s)
                          ts s0) = reactions s0).
  { induction ts as [|t ts IH]; intros s0; [reflexivity|].
    cbn [fold_left]. now rewrite IH. }
  destruct (react_ok w channel WHITE_HEAVY_CHECK_MARK);
    rewrite state_of_pair, outcome_of_pair;
    cbn [sent reactions add_reacted]; rewrite sent_fold_add_sent, Hr; auto.
Qed.

Lemma fetch_sends_newest_tweets_oldest_first_witness :
  sent (state_of (fetch (scenario_world 0) 300 "@Alice" 2 scenario_cog))
  = [(300, build_tweet_url "alice" 1001); (300, build_tweet_url "alice" 1002)].
Proof.
  pose proof (fetch_sends_newest_tweets_oldest_first (scenario_world 0) 300 "@Alice" 2
                scenario_cog (User 42 false (Some 1000)) eq_refl (fun _ => eq_refl))
    as H.
  cbn [user_protected] in H. exact (proj1 H).
Defined.

(** ** The url of a tweet *)

Lemma append_cancel_l (p a b : string) : p +:+ a = p +:+ b -> a = b.
Proof.
  induction p as [|c p IH]; cbn; [auto|]. intros [= H]. auto.
Qed.

(** X17.  Two tweets of an account have different urls: for a given screen
    name, [build_tweet_url] gives different urls to different ids. *)
Theorem build_tweet_url_tells_tweets_apart (screen_name : string) (i j : Z) :
  i <> j -> build_tweet_url screen_name i <> build_tweet_url screen_name j.
Proof.
  intros Hne Heq. apply Hne. unfold build_tweet_url in Heq.
  apply append_cancel_l in Heq. apply append_cancel_l in Heq.
  apply append_cancel_l in Heq. now apply (inj pretty).
Qed.

Lemma build_tweet_url_tells_tweets_apart_witness :
  build_tweet_url "alice" 999 <> build_tweet_url "alice" 1000.
Proof.
  apply build_tweet_url_tells_tweets_apart. discriminate.
Defined.

(** ** The reaction a command ends with *)

Lemma follow_channel_reactions w channel uid conf url last s :
  reactions (state_of (follow_channel w channel uid conf url last s))
  = if send_ok w channel url && react_ok w channel WHITE_HEAVY_CHECK_MARK
    then reactions s ++ [WHITE_HEAVY_CHECK_MARK]
    else reactions s.
Proof.
  unfold follow_channel. run_cog. rewrite stream_restart_eta. cbn beta iota.
  match goal with
  | |- context [stream_restart ?x] =>
      destruct (stream_restart_frame x) as (_ & _ & _ & Hr); revert Hr;
      generalize (state_of (stream_restart x))
  end.
  intros s' Hr.
  destruct (send_ok w channel url); [destruct (react_ok w channel _)|];
    cbn; now rewrite Hr.
Qed.

Lemma follow_outcomes w channel handle s :
  (exists msg, follow w channel handle s = (s, Raise (TwitterError msg)))
  \/ (outcome_of (follow w channel handle s) = Return tt
      /\ reactions (state_of (follow w channel handle s))
         = reactions s ++ [WHITE_HEAVY_CHECK_MARK])
  \/ (exists e,
        outcome_of (follow w channel handle s) = Raise e
        /\ is_user_input_error e = false
        /\ reactions (state_of (follow w channel handle s)) = reactions s).
Proof.
  unfold follow. run_cog.
  destruct (config_get (follows s) _) as [[uid conf]|].
  - destruct (contains _ _); [left; eauto|].
    destruct (py_max _) as [last|]; [|right; right; exists ValueError; auto].
    right. rewrite follow_channel_outcome, follow_channel_reactions.
    destruct (_ && _); [left; auto|right; exists HTTPException; auto].
  - destruct (users_show w _) as [usr|]; [|left; eauto].
    destruct (user_protected usr); [left; eauto|].
    destruct (user_status usr) as [last|]; [|right; right; exists KeyError; auto].
    right. rewrite follow_channel_outcome, follow_channel_reactions.
    destruct (_ && _); [left; auto|right; exists HTTPException; auto].
Qed.

(** X18.  What the user who typed [follow] sees.  The command ends in one
    of four ways: it returned, and the check mark was added; or it was
    refused with a [TwitterError], and [cog_command_error] added the cross
    mark to a cog that is otherwise unchanged; or it was refused with a
    [TwitterError] and Discord refused the cross mark as well, so that the
    cog is unchanged and no reaction was added; or it raised another
    exception (the [KeyError] of an account without status, a
    [ValueError], a message or a check mark that Discord refused), and no
    reaction was added at all. *)
Theorem follow_invoked_ends_with_a_reaction_or_none
    (w : World) (channel : Z) (handle : string) (s : Twitter) :
  (outcome_of (invoke w channel (follow w channel handle) s) = Return tt
   /\ reactions (state_of (invoke w channel (follow w channel handle) s))
      = reactions s ++ [WHITE_HEAVY_CHECK_MARK])
  \/ (exists msg,
        react_ok w channel CROSS_MARK = true
        /\ invoke w channel (follow w channel handle) s
           = (add_reacted CROSS_MARK s, Raise (TwitterError msg)))
  \/ (exists msg,
        react_ok w channel CROSS_MARK = false
        /\ follow w channel handle s = (s, Raise (TwitterError msg))
        /\ state_of (invoke w channel (follow w channel handle) s) = s)
  \/ (exists e,
        outcome_of (invoke w channel (follow w channel handle) s) = Raise e
        /\ is_user_input_error e = false
        /\ reactions (state_of (invoke w channel (follow w channel handle) s))
           = reactions s).
Proof.
  unfold invoke.
  destruct (follow_outcomes w channel handle s)
    as [[msg Hrun]|[[Hret Hreact]|(e & Hraise & He & Hreact)]].
  - right. rewrite Hrun. unfold cog_command_error, add_reaction.
    cbn [is_user_input_error].
    destruct (react_ok w channel CROSS_MARK) eqn:Hcross.
    + left. exists msg. auto.
    + right. left. exists msg. auto.
  - left. destruct (follow w channel handle s) as [s' [[]|e]]; [|discriminate].
    auto.
  - right. right. right. exists e.
    destruct (follow w channel handle s) as [s' [[]|e']]; [discriminate|].
    rewrite outcome_of_pair in Hraise. injection Hraise as ->.
    rewrite state_of_pair in Hreact.
    unfold cog_command_error. rewrite He. cbn.
    split; [reflexivity|]. split; [reflexivity|exact Hreact].
Qed.

(** * Properties of the cog [Admin] *)

Section AdminFacts.
Import Admin.

Lemma users_of_created (ig : Ignored) gid gid' :
  get (users ig) gid = None ->
  users_of (MkIgnored (guilds ig) (channels ig) (set (users ig) gid [])) gid'
  = users_of ig gid'.
Proof.
  intros Hnone. unfold users_of; cbn.
  destruct (Z.eq_dec gid gid') as [<-|Hne].
  - rewrite get_set_eq, Hnone. reflexivity.
  - rewrite get_set_ne by assumption. reflexivity.
Qed.

(** What [resolve_target] can do: raise [BadArgument], or return a target
    with its dictionary, having created the dictionary of the guild's users
    when the target is a member and the guild had none. *)
Lemma resolve_target_cases cv ctx g target s :
  (exists msg, resolve_target cv ctx g target s = (s, Raised (BadArgument msg)))
  \/ (exists c, resolve_target cv ctx g target s
                = (s, Ok (TextChannel c, IgnoredChannels)))
  \/ (exists x, resolve_target cv ctx g target s
                = (s, Ok (GuildTarget x, IgnoredGuilds)))
  \/ (exists m d, get (users (ignored s)) (guild_id g) = Some d
                  /\ resolve_target cv ctx g target s
                     = (s, Ok (Member m, IgnoredUsers (guild_id g))))
  \/ (exists m, get (users (ignored s)) (guild_id g) = None
                /\ resolve_target cv ctx g target s
                   = (set_ignored
                        (MkIgnored (guilds (ignored s)) (channels (ignored s))
                           (set (users (ignored s)) (guild_id g) [])) s,
                      Ok (Member m, IgnoredUsers (guild_id g)))).
Proof.
  unfold resolve_target.
  destruct (String.eqb target "channel"); [right; left; eexists; reflexivity|].
  destruct (String.eqb target "guild" || String.eqb target "server")%bool;
    [right; right; left; eexists; reflexivity|].
  destruct (TextChannelConverter cv target) as [c|];
    [right; left; eexists; reflexivity|].
  destruct (MemberConverter cv target) as [m|].
  - destruct (get (users (ignored s)) (guild_id g)) as [d|] eqn:Hd.
    + right; right; right; left. exists m, d. auto.
    + right; right; right; right. exists m. auto.
  - destruct (GuildConverter cv target) as [x|];
      [right; right; left; eexists; reflexivity|left; eexists; reflexivity].
Qed.

(** The target and the dictionary that [resolve_target] returns do not depend
    on the cog. *)
Lemma resolve_target_result cv ctx g target s s2 :
  snd (resolve_target cv ctx g target s) = snd (resolve_target cv ctx g target s2).
Proof.
  unfold resolve_target.
  destruct (String.eqb target "channel"); [reflexivity|].
  destruct (String.eqb target "guild" || String.eqb target "server")%bool;
    [reflexivity|].
  destruct (TextChannelConverter cv target) as [c|]; [reflexivity|].
  destruct (MemberConverter cv target) as [m|].
  - destruct (get (users (ignored s)) (guild_id g)),
             (get (users (ignored s2)) (guild_id g)); reflexivity.
  - destruct (GuildConverter cv target) as [x|]; reflexivity.
Qed.

(** X19.  [bot_check_once] does not read the permission [manage_guild]: the
    last test of the function, which is the only one that reads it, is
    reached only when the channel is not ignored, and then it cannot fire.
    A member who may manage the guild is refused in an ignored channel like
    anyone else. *)
Theorem bot_check_once_ignores_manage_guild
    (ig : Ignored) (a o : Z) (g : option Guild) (c : Z) (b b' : bool) :
  bot_check_once ig (MkContext a o g c b) = bot_check_once ig (MkContext a o g c b').
Proof.
  unfold bot_check_once; cbn.
  destruct (a =? o); [reflexivity|].
  destruct g as [g|]; [|reflexivity].
  destruct (contains (guilds ig) (guild_id g)); [reflexivity|].
  destruct (contains (channels ig) c); [reflexivity|].
  now rewrite !andb_false_r.
Qed.

(** X20.  Whom [bot_check_once] refuses.  A command is refused exactly when
    its author is not the bot owner, it was sent in a guild, and the guild is
    ignored, or the channel is ignored, or the author is an ignored user of
    the guild who is not the guild's owner. *)
Theorem bot_check_once_refuses_exactly (ig : Ignored) (ctx : Context) :
  bot_check_once ig ctx = false
  <-> author ctx <> bot_owner ctx
      /\ exists g, guild ctx = Some g
           /\ (contains (guilds ig) (guild_id g) = true
               \/ contains (channels ig) (channel ctx) = true
               \/ (author ctx <> guild_owner g
                   /\ contains (users_of ig (guild_id g)) (author ctx) = true)).
Proof.
  unfold bot_check_once.
  destruct (Z.eqb_spec (author ctx) (bot_owner ctx)) as [Ho|Ho].
  { split; [discriminate|]. intros [Hne _]. contradiction. }
  destruct (guild ctx) as [g|].
  2:{ split; [discriminate|]. intros (_ & g & Hg & _). discriminate. }
  destruct (contains (guilds ig) (guild_id g)) eqn:Hgs.
  { split; [|reflexivity]. intros _. split; [assumption|]. exists g. auto. }
  destruct (contains (channels ig) (channel ctx)) eqn:Hch.
  { split; [|reflexivity]. intros _. split; [assumption|]. exists g. auto. }
  rewrite andb_false_r.
  destruct (Z.eqb_spec (author ctx) (guild_owner g)) as [Hg|Hg].
  { split; [discriminate|].
    intros (_ & g' & [= <-] & [H|[H|[H _]]]); congruence. }
  destruct (contains (users_of ig (guild_id g)) (author ctx)) eqn:Hu.
  { split; [|reflexivity]. intros _. split; [assumption|]. exists g. auto. }
  split; [discriminate|].
  intros (_ & g' & [= <-] & [H|[H|[_ H]]]); congruence.
Qed.

Ltac admin_unfold :=
  unfold validate_ignore_target, try_except_else, set_item, del_item, del_users,
    conf_is_empty, conf_of, conf_put, save, leave, send, add_reaction, bind,
    ret, raise, modify, set_ignored.

Ltac admin_cases :=
  repeat (cbn;
          match goal with
          | |- context [if ?b then _ else _] => destruct b eqn:?
          | |- context [match ?x with Some _ => _ | None => _ end] => destruct x eqn:?
          end).

(** X21.  [unignore] never sends a message.  Its handler, which would
    answer that the target was not found, catches [ValueError], and deleting
    a key from a dictionary raises [KeyError]. *)
Theorem unignore_never_sends
    (discord : Discord) (cv : Converters) (ctx : Context) (target : string) (s : Cog) :
  sent (fst (unignore discord cv ctx target s)) = sent s.
Proof.
  unfold unignore, guarded.
  destruct (guild ctx) as [g|]; [|reflexivity].
  destruct (manage_guild ctx); [|reflexivity].
  unfold bind at 1.
  destruct (resolve_target_cases cv ctx g target s)
    as [[msg H]|[[c H]|[[x H]|[(m & d & Hd & H)|(m & Hd & H)]]]];
    rewrite H; cbn [fst snd]; admin_unfold; admin_cases; reflexivity.
Qed.

Lemma validate_ignore_target_eta ctx g t s s' :
  validate_ignore_target ctx g t s = (s, snd (validate_ignore_target ctx g t s')).
Proof. destruct t; admin_unfold; admin_cases; reflexivity. Qed.

(** A target that was resolved resolves to the same target and dictionary in
    any cog that has the dictionary, and the cog is left as it is. *)
Lemma resolve_target_again cv ctx g target s s1 t conf s2 :
  resolve_target cv ctx g target s = (s1, Ok (t, conf)) ->
  conf_of conf (ignored s2) <> None ->
  resolve_target cv ctx g target s2 = (s2, Ok (t, conf)).
Proof.
  unfold resolve_target.
  destruct (String.eqb target "channel"); [intros [= <- <- <-]; reflexivity|].
  destruct (String.eqb target "guild" || String.eqb target "server")%bool;
    [intros [= <- <- <-]; reflexivity|].
  destruct (TextChannelConverter cv target) as [c|];
    [intros [= <- <- <-]; reflexivity|].
  destruct (MemberConverter cv target) as [m|].
  - intros H Hconf.
    assert (t = Member m /\ conf = IgnoredUsers (guild_id g)) as [-> ->].
    { destruct (get (users (ignored s)) (guild_id g)); now injection H as _ <- <-. }
    cbn in Hconf. destruct (get (users (ignored s2)) (guild_id g));
      [reflexivity|contradiction].
  - destruct (GuildConverter cv target) as [x|];
      [intros [= <- <- <-]; reflexivity|discriminate].
Qed.

(** The dictionary that [resolve_target] returns is in the cog. *)
Lemma resolve_target_conf cv ctx g target s s1 t conf :
  resolve_target cv ctx g target s = (s1, Ok (t, conf)) ->
  exists d, conf_of conf (ignored s1) = Some d
            /\ (conf_of conf (ignored s) = Some d
                \/ conf_of conf (ignored s) = None /\ d = []).
Proof.
  intros H.
  destruct (resolve_target_cases cv ctx g target s)
    as [[msg H']|[[c H']|[[x H']|[(m & d & Hd & H')|(m & Hd & H')]]]];
    rewrite H' in H; try discriminate; injection H as <- <- <-; cbn.
  - eauto.
  - eauto.
  - rewrite Hd. eauto.
  - rewrite get_set_eq, Hd. eauto.
Qed.

Lemma conf_of_put conf d ig : conf_of conf (conf_put conf d ig) = Some d.
Proof. destruct conf; cbn; [reflexivity|reflexivity|apply get_set_eq]. Qed.

Lemma conf_put_put conf d d' ig :
  conf_put conf d (conf_put conf d' ig) = conf_put conf d ig.
Proof. destruct conf; cbn; [reflexivity|reflexivity|now rewrite set_set]. Qed.

Lemma conf_put_same conf d ig : conf_of conf ig = Some d -> conf_put conf d ig = ig.
Proof.
  destruct ig as [gs cs us], conf; cbn; intros H.
  - now injection H as ->.
  - now injection H as ->.
  - now rewrite set_same.
Qed.

(** What [ignore] does when it is not refused. *)
Lemma ignore_group_resolved discord cv ctx g target reason s s1 t conf d :
  guild ctx = Some g -> manage_guild ctx = true ->
  resolve_target cv ctx g target s = (s1, Ok (t, conf)) ->
  snd (validate_ignore_target ctx g t s1) = Ok tt ->
  conf_of conf (ignored s1) = Some d ->
  snd (ignore_group discord cv ctx target reason s) = Ok tt ->
  ignore_group discord cv ctx target reason s
  = (MkCog (conf_put conf (set d (target_id t) reason) (ignored s1))
           (conf_put conf (set d (target_id t) reason) (ignored s1))
           (if is_guild t then left s1 ++ [target_id t] else left s1)
           (sent s1) (reactions s1 ++ ["WHITE HEAVY CHECK MARK"]),
     Ok tt)
  /\ react_ok discord (if is_guild t then left s1 ++ [target_id t] else left s1)
       ctx "WHITE HEAVY CHECK MARK" = true.
Proof.
  intros Hg Hm Hres Hval Hd. unfold ignore_group, guarded. rewrite Hg, Hm.
  unfold bind. rewrite Hres. cbn [fst snd].
  rewrite (validate_ignore_target_eta ctx g t s1 s1), Hval.
  unfold set_item. rewrite Hd.
  admin_unfold. cbn. destruct (is_guild t); cbn.
  - destruct (leave_ok discord (target_id t)); cbn; [|discriminate].
    destruct (react_ok discord _ ctx _) eqn:Hreact; cbn; [|discriminate]. auto.
  - destruct (react_ok discord _ ctx _) eqn:Hreact; cbn; [|discriminate]. auto.
Qed.

Lemma ignore_group_returned discord cv ctx target reason s :
  snd (ignore_group discord cv ctx target reason s) = Ok tt ->
  exists g s1 t conf,
    guild ctx = Some g /\ manage_guild ctx = true
    /\ resolve_target cv ctx g target s = (s1, Ok (t, conf))
    /\ snd (validate_ignore_target ctx g t s1) = Ok tt.
Proof.
  unfold ignore_group, guarded.
  destruct (guild ctx) as [g|]; [|discriminate].
  destruct (manage_guild ctx); [|discriminate].
  unfold bind at 1.
  destruct (resolve_target cv ctx g target s) as [s1 [[t conf]|e]] eqn:Hres;
    [|discriminate].
  cbn [fst snd]. unfold bind at 1.
  rewrite (validate_ignore_target_eta ctx g t s1 s1).
  destruct (snd (validate_ignore_target ctx g t s1)) as [[]|e] eqn:Hval;
    [|discriminate].
  intros _. exists g, s1, t, conf. repeat split; reflexivity || assumption.
Qed.

(** What [unignore] does to a target that is ignored. *)
Lemma unignore_resolved discord cv ctx g target s s1 t conf d :
  guild ctx = Some g -> manage_guild ctx = true ->
  resolve_target cv ctx g target s = (s1, Ok (t, conf)) ->
  snd (validate_ignore_target ctx g t s1) = Ok tt ->
  conf_of conf (ignored s1) = Some d ->
  contains d (target_id t) = true ->
  react_ok discord (left s1) ctx "WHITE HEAVY CHECK MARK" = true ->
  exists ig,
    unignore discord cv ctx target s
    = (MkCog ig ig (left s1) (sent s1) (reactions s1 ++ ["WHITE HEAVY CHECK MARK"]),
       Ok tt)
    /\ ig = (if (is_member t && (len (remove d (target_id t)) =? 0))%bool
             then MkIgnored (guilds (ignored s1)) (channels (ignored s1))
                    (remove (users (ignored s1)) (guild_id g))
             else conf_put conf (remove d (target_id t)) (ignored s1)).
Proof.
  intros Hg Hm Hres Hval Hd Hin Hreact. unfold unignore, guarded. rewrite Hg, Hm.
  unfold bind at 1. rewrite Hres. cbn [fst snd].
  unfold bind at 1. rewrite (validate_ignore_target_eta ctx g t s1 s1), Hval.
  unfold try_except_else, del_item. rewrite Hd, Hin.
  unfold bind at 1, conf_is_empty, set_ignored. cbn [ignored].
  rewrite conf_of_put.
  destruct (is_member t) eqn:Hmem; cbn [andb].
  2:{ eexists. split; [|reflexivity]. admin_unfold. cbn. now rewrite Hreact. }
  destruct (len (remove d (target_id t)) =? 0) eqn:Hlen.
  2:{ eexists. split; [|reflexivity]. admin_unfold. cbn. now rewrite Hreact. }
  assert (conf = IgnoredUsers (guild_id g)) as ->.
  { destruct (resolve_target_cases cv ctx g target s)
      as [[msg H']|[[c H']|[[x H']|[(m & d' & _ & H')|(m & _ & H')]]]];
      rewrite H' in Hres; try discriminate; injection Hres as <- <- <-;
      try discriminate; reflexivity. }
  eexists. split; [|reflexivity].
  unfold del_users. cbn [ignored conf_put users guilds channels].
  unfold contains. rewrite get_set_eq.
  admin_unfold. cbn. rewrite Hreact, remove_set. reflexivity.
Qed.

(** X22.  [unignore] of a target that is not ignored.  The target is
    resolved and accepted, the deletion raises [KeyError], and the command
    ends with this exception: nothing is saved, no message is sent and no
    reaction is added.  The cog is what [resolve_target] left. *)
Theorem unignore_of_a_target_not_ignored_raises_key_error
    (discord : Discord) (cv : Converters) (ctx : Context) (g : Guild) (target : string)
    (s s1 : Cog) (t : Target) (conf : Conf) :
  guild ctx = Some g ->
  manage_guild ctx = true ->
  resolve_target cv ctx g target s = (s1, Ok (t, conf)) ->
  snd (validate_ignore_target ctx g t s1) = Ok tt ->
  (forall d, conf_of conf (ignored s1) = Some d -> contains d (target_id t) = false) ->
  unignore discord cv ctx target s = (s1, Raised KeyError).
Proof.
  intros Hg Hm Hres Hval Hnot. unfold unignore, guarded. rewrite Hg, Hm.
  unfold bind at 1. rewrite Hres. cbn [fst snd].
  unfold bind at 1. rewrite (validate_ignore_target_eta ctx g t s1 s1), Hval.
  unfold try_except_else, del_item.
  destruct (conf_of conf (ignored s1)) as [d|] eqn:Hd; [|reflexivity].
  rewrite (Hnot d eq_refl). reflexivity.
Qed.

Lemma unignore_of_a_target_not_ignored_raises_key_error_witness :
  unignore always (MkConverters (fun _ => None) (fun _ => None) (fun _ => None))
    (MkContext 1 9 (Some (MkGuild 5 2)) 100 true) "channel"
    (MkCog (MkIgnored [] [(200, "noisy")] []) (MkIgnored [] [(200, "noisy")] [])
       [] [] [])
  = (MkCog (MkIgnored [] [(200, "noisy")] []) (MkIgnored [] [(200, "noisy")] [])
       [] [] [],
     Raised KeyError).
Proof.
  apply (unignore_of_a_target_not_ignored_raises_key_error _ _ _ (MkGuild 5 2) _ _ _
           (TextChannel 100) IgnoredChannels);
    try reflexivity.
  intros d [= <-]. reflexivity.
Defined.

(** X23.  [ignore] followed by [unignore] of the same target, by the same
    author, the converters answering the second command as they answered
    the first, leaves the ignored guilds, channels and users as they were,
    when the target was not ignored before and the guild has no empty
    dictionary of users: [unignore] returns, and it removes the dictionary
    of the guild's users that [resolve_target] created. *)
Theorem ignore_then_unignore_restores
    (discord : Discord) (cv : Converters) (ctx : Context) (target reason : string) (s : Cog) :
  (forall g, guild ctx = Some g -> get (users (ignored s)) (guild_id g) <> Some []) ->
  (forall g t conf d,
      guild ctx = Some g ->
      snd (resolve_target cv ctx g target s) = Ok (t, conf) ->
      conf_of conf (ignored s) = Some d -> contains d (target_id t) = false) ->
  snd (ignore_group discord cv ctx target reason s) = Ok tt ->
  snd (unignore discord cv ctx target (fst (ignore_group discord cv ctx target reason s))) = Ok tt
  /\ ignored (fst (unignore discord cv ctx target (fst (ignore_group discord cv ctx target reason s))))
     = ignored s.
Proof.
  intros Hfull Hnot Hok.
  destruct (ignore_group_returned _ _ _ _ _ _ Hok)
    as (g & s1 & t & conf & Hg & Hm & Hres & Hval).
  destruct (resolve_target_conf _ _ _ _ _ _ _ _ Hres) as (d & Hd & Hbefore).
  destruct (ignore_group_resolved _ _ _ _ _ reason _ _ _ _ _ Hg Hm Hres Hval Hd Hok)
    as [Hrun Hreact].
  rewrite Hrun. cbn [fst].
  set (s2 := MkCog _ _ _ _ _) in *.
  assert (Habsent : get d (target_id t) = None).
  { destruct Hbefore as [Hd0|[_ ->]]; [|reflexivity].
    apply contains_false_get, (Hnot g t conf); auto. now rewrite Hres. }
  assert (Hres2 : resolve_target cv ctx g target s2 = (s2, Ok (t, conf))).
  { apply (resolve_target_again _ _ _ _ _ _ _ _ _ Hres).
    subst s2. cbn [ignored]. rewrite conf_of_put. discriminate. }
  assert (Hval2 : snd (validate_ignore_target ctx g t s2) = Ok tt).
  { rewrite (validate_ignore_target_eta ctx g t s2 s1). exact Hval. }
  assert (Hd2 : conf_of conf (ignored s2) = Some (set d (target_id t) reason)).
  { subst s2. cbn [ignored]. apply conf_of_put. }
  assert (Hin2 : contains (set d (target_id t) reason) (target_id t) = true).
  { unfold contains. now rewrite get_set_eq. }
  destruct (unignore_resolved discord _ _ _ _ _ _ _ _ _ Hg Hm Hres2 Hval2 Hd2 Hin2
              Hreact)
    as (ig & -> & ->).
  split; [reflexivity|]. cbn [fst ignored].
  rewrite remove_set, (remove_absent _ _ Habsent).
  subst s2. cbn [ignored]. rewrite conf_put_put, (conf_put_same _ _ _ Hd).
  destruct (resolve_target_cases cv ctx g target s)
    as [[msg H']|[[c H']|[[x H']|[(m & d' & Hd' & H')|(m & Hd' & H')]]]];
    rewrite H' in Hres; try discriminate; injection Hres as <- <- <-;
    cbn [is_member andb]; try reflexivity.
  - cbn in Hd. rewrite Hd' in Hd. injection Hd as ->.
    destruct (len d =? 0) eqn:Hlen; [|reflexivity].
    apply len_zero in Hlen. subst d. now destruct (Hfull g Hg).
  - cbn in Hd. rewrite get_set_eq in Hd. injection Hd as <-.
    cbn [len length Z.of_nat Z.eqb conf_put users guilds channels ignored set_ignored].
    rewrite !remove_set, (remove_absent _ _ Hd').
    now destruct (ignored s).
Qed.

Lemma ignore_then_unignore_restores_witness :
  snd (unignore always (MkConverters (fun _ => None) (fun _ => Some 7) (fun _ => None))
         (MkContext 1 9 (Some (MkGuild 5 2)) 100 true) "someone"
         (fst (ignore_group always
                 (MkConverters (fun _ => None) (fun _ => Some 7) (fun _ => None))
                 (MkContext 1 9 (Some (MkGuild 5 2)) 100 true) "someone" "spam"
                 (MkCog (MkIgnored [] [] []) (MkIgnored [] [] []) [] [] []))))
  = Ok tt
  /\ ignored
       (fst (unignore always (MkConverters (fun _ => None) (fun _ => Some 7) (fun _ => None))
               (MkContext 1 9 (Some (MkGuild 5 2)) 100 true) "someone"
               (fst (ignore_group always
                       (MkConverters (fun _ => None) (fun _ => Some 7) (fun _ => None))
                       (MkContext 1 9 (Some (MkGuild 5 2)) 100 true) "someone" "spam"
                       (MkCog (MkIgnored [] [] []) (MkIgnored [] [] []) [] [] [])))))
     = MkIgnored [] [] [].
Proof.
  apply (ignore_then_unignore_restores always
           (MkConverters (fun _ => None) (fun _ => Some 7) (fun _ => None))
           (MkContext 1 9 (Some (MkGuild 5 2)) 100 true) "someone" "spam"
           (MkCog (MkIgnored [] [] []) (MkIgnored [] [] []) [] [] [])).
  - intros g _. discriminate.
  - intros g t conf d [= <-]. cbn. intros [= <- <-]. discriminate.
  - reflexivity.
Defined.

(** X24.  [ignore] does what [bot_check_once] reads.  After an [ignore]
    that returned, the check refuses every command of an author other than
    the bot owner that is aimed at the target: sent in the ignored channel,
    sent in the ignored guild, or sent in the guild of the command by the
    ignored member, unless that member owns the guild. *)
Theorem ignore_makes_bot_check_once_refuse
    (discord : Discord) (cv : Converters) (ctx : Context) (g : Guild) (target reason : string)
    (s s1 : Cog) (t : Target) (conf : Conf) (ctx' : Context) (g' : Guild) :
  guild ctx = Some g ->
  resolve_target cv ctx g target s = (s1, Ok (t, conf)) ->
  snd (ignore_group discord cv ctx target reason s) = Ok tt ->
  guild ctx' = Some g' ->
  author ctx' <> bot_owner ctx' ->
  match t with
  | TextChannel c => channel ctx' = c
  | GuildTarget x => guild_id g' = x
  | Member m => author ctx' = m /\ guild_id g' = guild_id g /\ m <> guild_owner g'
  | VoiceChannel _ => False
  end ->
  bot_check_once (ignored (fst (ignore_group discord cv ctx target reason s))) ctx' = false.
Proof.
  intros Hg Hres Hok Hg' Hauthor Haim.
  destruct (ignore_group_returned _ _ _ _ _ _ Hok)
    as (g0 & s0 & t0 & conf0 & Hg0 & Hm & Hres0 & Hval).
  rewrite Hg in Hg0. injection Hg0 as <-.
  rewrite Hres in Hres0. injection Hres0 as <- <- <-.
  destruct (resolve_target_conf _ _ _ _ _ _ _ _ Hres) as (d & Hd & _).
  destruct (ignore_group_resolved _ _ _ _ _ reason _ _ _ _ _ Hg Hm Hres Hval Hd Hok)
    as [-> _].
  cbn [fst ignored]. unfold bot_check_once. rewrite Hg'.
  destruct (Z.eqb_spec (author ctx') (bot_owner ctx')); [contradiction|].
  destruct (resolve_target_cases cv ctx g target s)
    as [[msg H']|[[c H']|[[x H']|[(m & d' & Hd' & H')|(m & Hd' & H')]]]];
    rewrite H' in Hres; try discriminate; injection Hres as <- <- <-;
    cbn [conf_put guilds channels users target_id].
  - destruct (contains (guilds (ignored s)) (guild_id g')); [reflexivity|].
    subst c. unfold contains at 1. now rewrite get_set_eq.
  - subst x. unfold contains at 1. now rewrite get_set_eq.
  - destruct Haim as (Ha & Hgid & Hown).
    destruct (contains (guilds (ignored s)) (guild_id g')); [reflexivity|].
    destruct (contains (channels (ignored s)) (channel ctx')); [reflexivity|].
    destruct (Z.eqb_spec (author ctx') (guild_owner g')); [congruence|].
    unfold users_of; cbn [users]. rewrite Hgid, get_set_eq, Ha.
    unfold contains at 1. now rewrite get_set_eq.
  - destruct Haim as (Ha & Hgid & Hown).
    cbn [set_ignored ignored guilds channels users].
    destruct (contains (guilds (ignored s)) (guild_id g')); [reflexivity|].
    destruct (contains (channels (ignored s)) (channel ctx')); [reflexivity|].
    destruct (Z.eqb_spec (author ctx') (guild_owner g')); [congruence|].
    unfold users_of; cbn [users]. rewrite Hgid, get_set_eq, Ha.
    unfold contains at 1. now rewrite get_set_eq.
Qed.

Lemma ignore_makes_bot_check_once_refuse_witness :
  bot_check_once
    (ignored
       (fst (ignore_group always
               (MkConverters (fun _ => None) (fun _ => Some 7) (fun _ => None))
               (MkContext 1 9 (Some (MkGuild 5 2)) 100 true) "someone" "spam"
               (MkCog (MkIgnored [] [] []) (MkIgnored [] [] []) [] [] []))))
    (MkContext 7 9 (Some (MkGuild 5 2)) 300 true)
  = false.
Proof.
  apply (ignore_makes_bot_check_once_refuse always
           (MkConverters (fun _ => None) (fun _ => Some 7) (fun _ => None))
           (MkContext 1 9 (Some (MkGuild 5 2)) 100 true) (MkGuild 5 2)
           "someone" "spam"
           (MkCog (MkIgnored [] [] []) (MkIgnored [] [] []) [] [] [])
           (MkCog (MkIgnored [] [] [(5, [])]) (MkIgnored [] [] []) [] [] [])
           (Member 7) (IgnoredUsers 5)
           (MkContext 7 9 (Some (MkGuild 5 2)) 300 true) (MkGuild 5 2));
    try reflexivity.
  - cbn. lia.
  - cbn. repeat split; lia.
Defined.

(** X25.  Only the bot owner ignores or unignores a guild.  When the author
    of [ignore] or [unignore] is not the bot owner, the ignored guilds stay
    as they are and the bot leaves no guild, whatever the target. *)
Theorem only_the_bot_owner_changes_ignored_guilds
    (discord : Discord) (cv : Converters) (ctx : Context) (target reason : string) (s : Cog)
    (m : M unit) :
  author ctx <> bot_owner ctx ->
  m = ignore_group discord cv ctx target reason \/ m = unignore discord cv ctx target ->
  guilds (ignored (fst (m s))) = guilds (ignored s)
  /\ left (fst (m s)) = left s.
Proof.
  intros Hauthor Hm.
  assert (Hneq : (author ctx =? bot_owner ctx) = false) by now apply Z.eqb_neq.
  destruct Hm as [-> | ->]; unfold ignore_group, unignore, guarded;
    (destruct (guild ctx) as [g|]; [|split; reflexivity]);
    (destruct (manage_guild ctx); [|split; reflexivity]);
    unfold bind;
    destruct (resolve_target_cases cv ctx g target s)
      as [[msg H]|[[c H]|[[x H]|[(u & d & Hd & H)|(u & Hd & H)]]]];
    rewrite H; cbn [fst snd]; admin_unfold; cbn; rewrite ?Hneq;
    admin_cases; split; reflexivity.
Qed.

Lemma only_the_bot_owner_changes_ignored_guilds_witness :
  guilds
    (ignored
       (fst (ignore_group always
               (MkConverters (fun _ => None) (fun _ => None) (fun _ => Some 5))
               (MkContext 1 9 (Some (MkGuild 5 2)) 100 true) "server" "spam"
               (MkCog (MkIgnored [] [] []) (MkIgnored [] [] []) [] [] []))))
  = []
  /\ left
       (fst (ignore_group always
               (MkConverters (fun _ => None) (fun _ => None) (fun _ => Some 5))
               (MkContext 1 9 (Some (MkGuild 5 2)) 100 true) "server" "spam"
               (MkCog (MkIgnored [] [] []) (MkIgnored [] [] []) [] [] [])))
     = [].
Proof.
  apply (only_the_bot_owner_changes_ignored_guilds always
           (MkConverters (fun _ => None) (fun _ => None) (fun _ => Some 5))
           (MkContext 1 9 (Some (MkGuild 5 2)) 100 true) "server" "spam"
           (MkCog (MkIgnored [] [] []) (MkIgnored [] [] []) [] [] [])).
  - cbn. lia.
  - left. reflexivity.
Defined.

Lemma bot_check_once_ext ig ig' ctx :
  guilds ig = guilds ig' -> channels ig = channels ig' ->
  (forall gid, users_of ig gid = users_of ig' gid) ->
  bot_check_once ig ctx = bot_check_once ig' ctx.
Proof.
  intros Hg Hc Hu. unfold bot_check_once. rewrite Hg, Hc.
  destruct (guild ctx) as [g|]; [|reflexivity]. now rewrite Hu.
Qed.

(** A command that raised an exception of its own left the ignored guilds,
    channels and users as they were, but for an empty dictionary of the
    guild's users. *)
Lemma refused_command_leaves discord cv ctx target reason s m e :
  m = ignore_group discord cv ctx target reason \/ m = unignore discord cv ctx target ->
  snd (m s) = Raised e ->
  e <> HTTPException ->
  ignored (fst (m s)) = ignored s
  \/ exists gid,
       get (users (ignored s)) gid = None
       /\ ignored (fst (m s))
          = MkIgnored (guilds (ignored s)) (channels (ignored s))
              (set (users (ignored s)) gid []).
Proof.
  intros Hm Hraised Hne. revert Hraised.
  destruct Hm as [-> | ->]; unfold ignore_group, unignore, guarded;
    (destruct (guild ctx) as [g|]; [|left; reflexivity]);
    (destruct (manage_guild ctx); [|left; reflexivity]);
    unfold bind;
    destruct (resolve_target_cases cv ctx g target s)
      as [[msg H]|[[c H]|[[x H]|[(u & d & Hd & H)|(u & Hd & H)]]]];
    rewrite H; cbn [fst snd]; admin_unfold; cbn;
    rewrite ?Hd, ?get_set_eq; unfold contains; rewrite ?get_set_eq;
    admin_cases; try discriminate; intros Hr;
    try (injection Hr as Hr; symmetry in Hr; contradiction);
    repeat match goal with
           | Hx : context [get (set _ ?k _) ?k] |- _ => rewrite get_set_eq in Hx
           end;
    try discriminate;
    solve [left; reflexivity | right; exists (guild_id g); split; [assumption|reflexivity]].
Qed.

(** When Discord refuses the last requests of a command, to leave the guild
    or to add the check mark, the change was made and saved before. *)
Lemma refused_by_discord_saved discord cv ctx target reason s m :
  m = ignore_group discord cv ctx target reason \/ m = unignore discord cv ctx target ->
  snd (m s) = Raised HTTPException ->
  saved (fst (m s)) = ignored (fst (m s)).
Proof.
  intros Hm.
  destruct Hm as [-> | ->]; unfold ignore_group, unignore, guarded;
    (destruct (guild ctx) as [g|]; [|discriminate]);
    (destruct (manage_guild ctx); [|discriminate]);
    unfold bind;
    destruct (resolve_target_cases cv ctx g target s)
      as [[msg H]|[[c H]|[[x H]|[(u & d & Hd & H)|(u & Hd & H)]]]];
    rewrite H; cbn [fst snd]; admin_unfold; cbn;
    rewrite ?Hd, ?get_set_eq; unfold contains; rewrite ?get_set_eq;
    admin_cases; try discriminate; intros _; reflexivity.
Qed.



(** X27.  A command that returned saved what it changed: after an [ignore]
    or an [unignore] that returned, what was written last is what the cog
    holds. *)
Theorem returned_command_saved_its_change
    (discord : Discord) (cv : Converters) (ctx : Context) (target reason : string) (s : Cog)
    (m : M unit) :
  m = ignore_group discord cv ctx target reason \/ m = unignore discord cv ctx target ->
  snd (m s) = Ok tt ->
  saved (fst (m s)) = ignored (fst (m s)).
Proof.
  intros Hm.
  destruct Hm as [-> | ->]; unfold ignore_group, unignore, guarded;
    (destruct (guild ctx) as [g|]; [|discriminate]);
    (destruct (manage_guild ctx); [|discriminate]);
    unfold bind;
    destruct (resolve_target_cases cv ctx g target s)
      as [[msg H]|[[c H]|[[x H]|[(u & d & Hd & H)|(u & Hd & H)]]]];
    rewrite H; cbn [fst snd]; admin_unfold; cbn;
    rewrite ?Hd, ?get_set_eq; unfold contains; rewrite ?get_set_eq;
    admin_cases; try discriminate; intros _; reflexivity.
Qed.

Lemma returned_command_saved_its_change_witness :
  saved
    (fst (ignore_group always
            (MkConverters (fun _ => None) (fun _ => Some 7) (fun _ => None))
            (MkContext 1 9 (Some (MkGuild 5 2)) 100 true) "channel" "spam"
            (MkCog (MkIgnored [] [] []) (MkIgnored [] [] []) [] [] [])))
  = MkIgnored [] [(100, "spam")] [].
Proof.
  rewrite (returned_command_saved_its_change always
             (MkConverters (fun _ => None) (fun _ => Some 7) (fun _ => None))
             (MkContext 1 9 (Some (MkGuild 5 2)) 100 true) "channel" "spam"
             (MkCog (MkIgnored [] [] []) (MkIgnored [] [] []) [] [] [])
             _ (or_introl eq_refl) eq_refl).
  reflexivity.
Defined.

End AdminFacts.
